(** * AccountabilityApp: the group ledger and the goal-status calculator

    A shallow embedding of the PL/pgSQL ledger functions [log_failure]
    ([supabase/photo_proof_setup.sql], and the two-argument version of
    [supabase/full_setup.sql]) and [settle_debt] ([supabase/full_setup.sql]),
    of the TypeScript goal-status calculation ([getGoalStatus] of the
    [useGoals] hook, fed by [fetchGoals]) and of its database counterpart
    [check_goal_status] ([supabase/scheduled_goals_setup.sql]), followed by
    the properties of the specification that concern them: the closed
    ledger, the distribution of a penalty, settlement, and the deadline of a
    goal. *)

(** The development then embeds the functions around them:
    [join_group_by_code] and [get_net_balance] ([supabase/full_setup.sql]),
    the [log_failure] of [supabase/schema.sql], [log_goal_completion]
    ([supabase/scheduled_goals_setup.sql]), the hook [joinGroup] and the
    [getStatusInfo] and [formatLastCompletion] of the goal card, and proves
    what the code shows of them: when the functions return and what they
    leave alone, the invariants of the ledger under every sequence of calls,
    and how the client and the database read the same completions. *)

From Stdlib Require Import ZArith List Bool String Lia PeanoNat Sorted.
Import ListNotations.
Open Scope Z_scope.

(** * PostgreSQL values *)

(** A [uuid] is an opaque key; only equality is ever used on it. *)
Definition uuid := nat.

(** [numeric] is PostgreSQL's exact decimal type.  Every value stored in a
    finite database has finitely many decimals, so all of them are whole
    multiples of one sufficiently small unit.  A [numeric] is the count of
    such units; [cent] (a parameter of everything below that depends on the
    scale) is the number of units in 0.01.  Addition, subtraction and
    multiplication by an integer are exact on this representation, as they
    are in PostgreSQL. *)
Definition numeric := Z.

(** Statement-level errors.  [Raise] aborts the function call; PostgreSQL
    rolls the surrounding statement back, so no write of an aborted call is
    visible. *)
Inductive exn (A : Type) : Type :=
| Return (a : A)
| Raise (msg : string).
Arguments Return {A} a.
Arguments Raise {A} msg.

Definition bind {A B : Type} (c : exn A) (k : A -> exn B) : exn B :=
  match c with
  | Return a => k a
  | Raise msg => Raise msg
  end.

Notation "x <- c ;; k" := (bind c (fun x => k))
  (at level 61, c at next level, right associativity).
Notation "' pat <- c ;; k" := (bind c (fun x => match x with pat => k end))
  (at level 61, pat pattern, c at next level, right associativity).

(** [integer] is a 32-bit signed type whose arithmetic raises on overflow. *)
Definition INT4_MAX : Z := 2147483647.
Definition INT4_MIN : Z := -2147483648.

Definition int4 (z : Z) : exn Z :=
  if (INT4_MIN <=? z) && (z <=? INT4_MAX) then Return z
  else Raise "integer out of range".

(** Rounding to a whole number of cents, ties away from zero (PostgreSQL's
    rounding of [numeric]). *)
Definition round_to_cent (cent : positive) (x : numeric) : numeric :=
  Z.sgn x * ((2 * Z.abs x + Z.pos cent) / (2 * Z.pos cent)) * Z.pos cent.

(** Assignment to a variable declared [DECIMAL(10,2)]: the value is rounded
    to two decimals and must then have at most eight digits before the
    decimal point. *)
Definition DECIMAL_10_2_LIMIT (cent : positive) : numeric :=
  10 ^ 10 * Z.pos cent.

Definition to_decimal_10_2 (cent : positive) (x : numeric) : exn numeric :=
  let r := round_to_cent cent x in
  if Z.abs r <? DECIMAL_10_2_LIMIT cent then Return r
  else Raise "numeric field overflow".

(** A value that a [DECIMAL(10,2)] variable holds unchanged. *)
Definition is_decimal_10_2 (cent : positive) (x : numeric) : bool :=
  (x mod Z.pos cent =? 0) && (Z.abs x <? DECIMAL_10_2_LIMIT cent).

(** Comparison with a possibly NULL right-hand side, as a [WHERE] clause
    reads it: a NULL comparison selects no row. *)
Definition sql_eq (a : uuid) (b : option uuid) : bool :=
  match b with
  | Some b' => Nat.eqb a b'
  | None => false
  end.

Definition sql_neq (a : uuid) (b : option uuid) : bool :=
  match b with
  | Some b' => negb (Nat.eqb a b')
  | None => false
  end.

(** A value written to a [NOT NULL] column. *)
Definition not_null {A : Type} (column : string) (v : option A) : exn A :=
  match v with
  | Some a => Return a
  | None => Raise ("null value in column " ++ column ++ " violates not-null constraint")
  end.

(** * Tables *)

Record groups_row := {
  g_id : uuid;
  default_penalty_amount : numeric
}.

Record group_members_row := {
  gm_group_id : uuid;
  gm_user_id : uuid;
  current_balance : numeric;
  failure_count : Z;
  joined_at : Z
}.

Inductive tx_status := pending | paid.

Record transactions_row := {
  tx_id : uuid;
  tx_group_id : uuid;
  from_user_id : uuid;
  to_user_id : uuid;
  amount : numeric;
  status : tx_status;
  description : option string;
  proof_photo_url : option string;
  created_at : Z;
  settled_at : option Z
}.

(** The table [profiles] is read through the foreign keys of the rows the
    functions insert, and written by none of them.  [group_members.user_id
    REFERENCES profiles(id)] holds in every database, so the users of the
    memberships have a row in it; the field [profiles] lists the ids of the
    rows the table holds besides. *)
Record db := {
  groups : list groups_row;
  group_members : list group_members_row;
  transactions : list transactions_row;
  profiles : list uuid
}.

(** The ids of the rows of [profiles]. *)
Definition profile_ids (s : db) : list uuid :=
  map gm_user_id (group_members s) ++ profiles s.

(** The check of a column that [REFERENCES profiles(id)], made when a row is
    inserted into [table]. *)
Definition references_profiles (table column : string) (ids : list uuid)
    (id : uuid) : exn unit :=
  if existsb (Nat.eqb id) ids then Return tt
  else Raise ("insert or update on table " ++ table
              ++ " violates foreign key constraint "
              ++ table ++ "_" ++ column ++ "_fkey").

Definition status_eqb (a b : tx_status) : bool :=
  match a, b with
  | pending, pending | paid, paid => true
  | _, _ => false
  end.

(** [uuid_generate_v4()], the default of [transactions.id]: a key that no
    row of the table carries yet. *)
Definition uuid_generate_v4 (txs : list transactions_row) : uuid :=
  S (list_max (map tx_id txs)).

(** [UPDATE t SET ... WHERE w]: every row selected by [w] is rewritten by
    [set]; one failing row aborts the statement. *)
Fixpoint sql_update {R : Type} (w : R -> bool) (set : R -> exn R)
    (rows : list R) : exn (list R) :=
  match rows with
  | [] => Return []
  | r :: rest =>
      r' <- (if w r then set r else Return r) ;;
      rest' <- sql_update w set rest ;;
      Return (r' :: rest')
  end.

Definition with_balance (m : group_members_row) (b : numeric) : group_members_row :=
  {| gm_group_id := gm_group_id m; gm_user_id := gm_user_id m;
     current_balance := b; failure_count := failure_count m;
     joined_at := joined_at m |}.

Definition with_failure_count (m : group_members_row) (c : Z) : group_members_row :=
  {| gm_group_id := gm_group_id m; gm_user_id := gm_user_id m;
     current_balance := current_balance m; failure_count := c;
     joined_at := joined_at m |}.

Definition mark_paid (now : Z) (t : transactions_row) : transactions_row :=
  {| tx_id := tx_id t; tx_group_id := tx_group_id t;
     from_user_id := from_user_id t; to_user_id := to_user_id t;
     amount := amount t; status := paid;
     description := description t; proof_photo_url := proof_photo_url t;
     created_at := created_at t; settled_at := Some now |}.

(** [SELECT default_penalty_amount FROM groups WHERE id = p_group_id]: the
    value of the first matching row, NULL when there is none. *)
Definition select_default_penalty_amount (s : db) (p_group_id : uuid)
    : option numeric :=
  option_map default_penalty_amount
    (find (fun g => Nat.eqb (g_id g) p_group_id) (groups s)).

(** [SELECT user_id FROM group_members WHERE group_id = p_group_id AND
    user_id != v_user_id], the rows the [FOR] loops run over. *)
Definition select_other_members (s : db) (p_group_id : uuid)
    (v_user_id : option uuid) : list uuid :=
  map gm_user_id
    (filter (fun m => Nat.eqb (gm_group_id m) p_group_id
                      && sql_neq (gm_user_id m) v_user_id)
            (group_members s)).

(** The JSON objects the functions return. *)
Record log_failure_json := {
  lf_success : bool;
  transactions_created : Z;
  total_debt : option numeric
}.

Record settle_debt_json := {
  sd_success : bool;
  sd_error : option string
}.

(** * [log_failure(p_group_id, p_description, p_proof_photo_url)]
    ([supabase/photo_proof_setup.sql]) *)

Section PhotoProof.
Variable cent : positive.
Variable now : Z.

(** The body of the [FOR v_member IN ... LOOP]: one [INSERT] per other
    member, then the two counters.  [ids] are the ids of [profiles], which
    [from_user_id] references; [to_user_id] is the user of a membership and
    [group_id] the id of the group just read, so their references hold. *)
Fixpoint log_failure_loop (ids : list uuid)
    (p_group_id v_user_id : uuid) (v_penalty : numeric)
    (p_description p_proof_photo_url : option string)
    (members : list uuid) (txs : list transactions_row)
    (v_tx_count : Z) (v_total_debt : numeric)
    : exn (list transactions_row * Z * numeric) :=
  match members with
  | [] => Return (txs, v_tx_count, v_total_debt)
  | v_member :: rest =>
      _ <- references_profiles "transactions" "from_user_id" ids v_user_id ;;
      let txs' := txs ++ [ {| tx_id := uuid_generate_v4 txs;
                              tx_group_id := p_group_id;
                              from_user_id := v_user_id;
                              to_user_id := v_member;
                              amount := v_penalty;
                              status := pending;
                              description :=
                                Some (match p_description with
                                      | Some d => d
                                      | None => "Logged failure"%string
                                      end);
                              proof_photo_url := p_proof_photo_url;
                              created_at := now;
                              settled_at := None |} ] in
      v_tx_count' <- int4 (v_tx_count + 1) ;;
      v_total_debt' <- to_decimal_10_2 cent (v_total_debt + v_penalty) ;;
      log_failure_loop ids p_group_id v_user_id v_penalty
        p_description p_proof_photo_url rest txs' v_tx_count' v_total_debt'
  end.

Definition log_failure (auth_uid : option uuid) (p_group_id : uuid)
    (p_description p_proof_photo_url : option string) (s : db)
    : exn (log_failure_json * db) :=
  match auth_uid with
  | None => Raise "Not authenticated"
  | Some v_user_id =>
      match select_default_penalty_amount s p_group_id with
      | None => Raise "Group not found"
      | Some p =>
          v_penalty <- to_decimal_10_2 cent p ;;
          ' (txs, v_tx_count, v_total_debt) <-
            log_failure_loop (profile_ids s) p_group_id v_user_id v_penalty
              p_description p_proof_photo_url
              (select_other_members s p_group_id (Some v_user_id))
              (transactions s) 0 0 ;;
          (* Update failure count for the user *)
          gm1 <- sql_update
                   (fun m => Nat.eqb (gm_group_id m) p_group_id
                             && Nat.eqb (gm_user_id m) v_user_id)
                   (fun m => c <- int4 (failure_count m + 1) ;;
                             Return (with_failure_count m c))
                   (group_members s) ;;
          (* Decrease failing user's balance *)
          gm2 <- sql_update
                   (fun m => Nat.eqb (gm_group_id m) p_group_id
                             && Nat.eqb (gm_user_id m) v_user_id)
                   (fun m => Return (with_balance m (current_balance m - v_total_debt)))
                   gm1 ;;
          (* Increase each other member's balance *)
          gm3 <- sql_update
                   (fun m => Nat.eqb (gm_group_id m) p_group_id
                             && negb (Nat.eqb (gm_user_id m) v_user_id))
                   (fun m => Return (with_balance m (current_balance m + v_penalty)))
                   gm2 ;;
          Return ({| lf_success := true;
                     transactions_created := v_tx_count;
                     total_debt := Some v_total_debt |},
                  {| groups := groups s;
                     profiles := profiles s;
                     group_members := gm3;
                     transactions := txs |})
      end
  end.
End PhotoProof.

(** * [log_failure(p_group_id, p_description)] ([supabase/full_setup.sql]) *)

Section FullSetup.
Variable now : Z.

(** [v_penalty] is NULL when the group does not exist; the function does
    not test it, so NULL reaches the [NOT NULL] columns. *)
Fixpoint full_setup_log_failure_loop (ids : list uuid) (p_group_id : uuid)
    (v_user_id : option uuid) (v_penalty : option numeric)
    (p_description : option string)
    (members : list uuid) (gm : list group_members_row)
    (txs : list transactions_row) (v_tx_count : Z)
    : exn (list group_members_row * list transactions_row * Z) :=
  match members with
  | [] => Return (gm, txs, v_tx_count)
  | v_member :: rest =>
      from <- not_null "from_user_id" v_user_id ;;
      a <- not_null "amount" v_penalty ;;
      _ <- references_profiles "transactions" "from_user_id" ids from ;;
      let txs' := txs ++ [ {| tx_id := uuid_generate_v4 txs;
                              tx_group_id := p_group_id;
                              from_user_id := from;
                              to_user_id := v_member;
                              amount := a;
                              status := pending;
                              description := p_description;
                              proof_photo_url := None;
                              created_at := now;
                              settled_at := None |} ] in
      (* Update recipient balance *)
      gm' <- sql_update
               (fun m => Nat.eqb (gm_group_id m) p_group_id
                         && Nat.eqb (gm_user_id m) v_member)
               (fun m => b <- not_null "current_balance"
                                (option_map (Z.add (current_balance m)) v_penalty) ;;
                         Return (with_balance m b))
               gm ;;
      v_tx_count' <- int4 (v_tx_count + 1) ;;
      full_setup_log_failure_loop ids p_group_id v_user_id v_penalty
        p_description rest gm' txs' v_tx_count'
  end.

Definition full_setup_log_failure (auth_uid : option uuid) (p_group_id : uuid)
    (p_description : option string) (s : db)
    : exn (log_failure_json * db) :=
  let v_user_id := auth_uid in
  let v_penalty := select_default_penalty_amount s p_group_id in
  (* Update failure count *)
  gm1 <- sql_update
           (fun m => Nat.eqb (gm_group_id m) p_group_id
                     && sql_eq (gm_user_id m) v_user_id)
           (fun m => c <- int4 (failure_count m + 1) ;;
                     b <- not_null "current_balance"
                            (option_map (Z.sub (current_balance m)) v_penalty) ;;
                     Return (with_balance (with_failure_count m c) b))
           (group_members s) ;;
  (* Find other members to pay *)
  ' (gm2, txs, v_tx_count) <-
    full_setup_log_failure_loop (profile_ids s) p_group_id v_user_id v_penalty
      p_description
      (map gm_user_id
         (filter (fun m => Nat.eqb (gm_group_id m) p_group_id
                           && sql_neq (gm_user_id m) v_user_id) gm1))
      gm1 (transactions s) 0 ;;
  Return ({| lf_success := true;
             transactions_created := v_tx_count;
             total_debt := option_map (fun p => p * v_tx_count) v_penalty |},
          {| groups := groups s;
             profiles := profiles s;
             group_members := gm2;
             transactions := txs |}).

(** * [settle_debt(p_transaction_id)] ([supabase/full_setup.sql]) *)

(** [SELECT * INTO v_tx]: the first row with that id; when there is none
    every field of [v_tx] is NULL. *)
Definition select_transaction (s : db) (p_transaction_id : uuid)
    : option transactions_row :=
  find (fun t => Nat.eqb (tx_id t) p_transaction_id) (transactions s).

Definition settle_debt (p_transaction_id : uuid) (s : db)
    : exn (settle_debt_json * db) :=
  let v_tx := select_transaction s p_transaction_id in
  (* IF v_tx.status = 'paid': a NULL condition does not take the branch *)
  if match v_tx with
     | Some t => status_eqb (status t) paid
     | None => false
     end
  then Return ({| sd_success := false; sd_error := Some "Already paid"%string |}, s)
  else
    (* Mark as paid *)
    txs <- sql_update
             (fun t => Nat.eqb (tx_id t) p_transaction_id)
             (fun t => Return (mark_paid now t))
             (transactions s) ;;
    (* Adjust balances (reverse the debt) *)
    gm1 <- sql_update
             (fun m => sql_eq (gm_group_id m) (option_map tx_group_id v_tx)
                       && sql_eq (gm_user_id m) (option_map from_user_id v_tx))
             (fun m => b <- not_null "current_balance"
                              (option_map (fun t => current_balance m + amount t) v_tx) ;;
                       Return (with_balance m b))
             (group_members s) ;;
    gm2 <- sql_update
             (fun m => sql_eq (gm_group_id m) (option_map tx_group_id v_tx)
                       && sql_eq (gm_user_id m) (option_map to_user_id v_tx))
             (fun m => b <- not_null "current_balance"
                              (option_map (fun t => current_balance m - amount t) v_tx) ;;
                       Return (with_balance m b))
             gm1 ;;
    Return ({| sd_success := true; sd_error := None |},
            {| groups := groups s;
               profiles := profiles s;
               group_members := gm2;
               transactions := txs |}).
End FullSetup.

(** The state a call leaves behind: the new database when it returns, the
    old one when it raises. *)
Definition db_after {J : Type} (s : db) (o : exn (J * db)) : db :=
  match o with
  | Return (_, s') => s'
  | Raise _ => s
  end.

(** * Observations on a database *)

Definition member_row (s : db) (g u : uuid) : option group_members_row :=
  find (fun m => Nat.eqb (gm_group_id m) g && Nat.eqb (gm_user_id m) u)
       (group_members s).

Definition is_member (s : db) (g u : uuid) : bool :=
  match member_row s g u with Some _ => true | None => false end.

Definition balance_of (s : db) (g u : uuid) : option numeric :=
  option_map current_balance (member_row s g u).

Definition failures_of (s : db) (g u : uuid) : option Z :=
  option_map failure_count (member_row s g u).

(** [sum(current_balance)] over the memberships of group [g]. *)
Definition sum_balances (g : uuid) (gm : list group_members_row) : numeric :=
  fold_right Z.add 0
    (map current_balance (filter (fun m => Nat.eqb (gm_group_id m) g) gm)).

Definition group_balance_sum (s : db) (g : uuid) : numeric :=
  sum_balances g (group_members s).

(** The constraints the schema and the engine maintain: [UNIQUE(group_id,
    user_id)] on [group_members], [PRIMARY KEY] on [transactions.id], and
    every transaction running between two members of its group. *)
Fixpoint unique_keys {K : Type} (eqb : K -> K -> bool) (keys : list K) : bool :=
  match keys with
  | [] => true
  | k :: rest => negb (existsb (eqb k) rest) && unique_keys eqb rest
  end.

Definition membership_key (m : group_members_row) : uuid * uuid :=
  (gm_group_id m, gm_user_id m).

Definition key_eqb (a b : uuid * uuid) : bool :=
  Nat.eqb (fst a) (fst b) && Nat.eqb (snd a) (snd b).

Definition unique_memberships (s : db) : bool :=
  unique_keys key_eqb (map membership_key (group_members s)).

Definition unique_transaction_ids (s : db) : bool :=
  unique_keys Nat.eqb (map tx_id (transactions s)).

Definition parties_are_members (s : db) : bool :=
  forallb (fun t => is_member s (tx_group_id t) (from_user_id t)
                    && is_member s (tx_group_id t) (to_user_id t))
          (transactions s).

Definition consistent (s : db) : bool :=
  unique_memberships s && unique_transaction_ids s && parties_are_members s.



(** * Goal status ([getGoalStatus] of the [useGoals] hook) *)

(** Instants are JavaScript time values: whole milliseconds since the
    epoch. *)
Definition MS_PER_DAY : Z := 1000 * 60 * 60 * 24.

Record Goal := {
  goal_id : uuid;
  goal_group_id : uuid;
  frequency_days : Z;
  is_active : bool
}.

Record GoalCompletion := {
  gc_id : uuid;
  gc_goal_id : uuid;
  gc_user_id : uuid;
  completed_at : Z
}.

Record GoalWithCompletions := {
  goal : Goal;
  completions : list GoalCompletion
}.

Record GoalStatus := {
  gs_goal_id : uuid;
  gs_user_id : option uuid;
  last_completion : option Z;
  next_deadline : Z;
  is_overdue : bool;
  days_remaining : Z;
  total_completions : nat
}.

(** [.order('completed_at', { ascending: false })] *)
Fixpoint insert_desc (c : GoalCompletion) (l : list GoalCompletion)
    : list GoalCompletion :=
  match l with
  | [] => [c]
  | x :: rest =>
      if completed_at x <=? completed_at c then c :: l
      else x :: insert_desc c rest
  end.

Definition order_by_completed_at_desc (l : list GoalCompletion)
    : list GoalCompletion :=
  fold_right insert_desc [] l.

(** The completions query of [fetchGoals]: the rows of [goal_completions]
    whose goal is one of [goalIds], most recent first. *)
Definition fetch_completions (goal_completions : list GoalCompletion)
    (goalIds : list uuid) : list GoalCompletion :=
  order_by_completed_at_desc
    (filter (fun c => existsb (Nat.eqb (gc_goal_id c)) goalIds) goal_completions).

(** "Merge completions into goals". *)
Definition merge_completions (completionsData : list GoalCompletion) (g : Goal)
    : GoalWithCompletions :=
  {| goal := g;
     completions :=
       filter (fun c => Nat.eqb (gc_goal_id c) (goal_id g)) completionsData |}.

(** A [Date] holds a time value or NaN (an invalid date), which is [None]
    here.  [TimeClip] keeps the time values of at most 8.64e15 ms. *)
Definition MAX_TIME_VALUE : Z := 8640000000000000.

Definition TimeClip (t : Z) : option Z :=
  if Z.abs t <=? MAX_TIME_VALUE then Some t else None.

Section Host.
(** The time zone of the host, as ECMAScript has it: [LocalTZA t true] is
    the offset of local time from UTC, in milliseconds, at the instant [t];
    [LocalTZA t false] is the offset at the local time value [t]. *)
Variable LocalTZA : Z -> bool -> Z.

Definition LocalTime (t : Z) : Z := t + LocalTZA t true.

Definition UTC (t : Z) : Z := t - LocalTZA t false.

(** [d.setDate(d.getDate() + n)]: the date of the month is read and written
    in local time, and a date outside the month carries over, so the local
    time value moves by [n] days; the result is converted back to UTC with
    the offset in force at that local time, and clipped. *)
Definition setDate_plus (d : option Z) (n : Z) : option Z :=
  match d with
  | None => None
  | Some t => TimeClip (UTC (LocalTime t + n * MS_PER_DAY))
  end.

(** [Math.ceil(a / b)] for a positive [b]. *)
Definition Math_ceil_div (a b : Z) : Z := - ((- a) / b).

(** [c.user_id === user?.id]: no completion matches when nobody is signed
    in. *)
Definition is_user (c_user_id : uuid) (user : option uuid) : bool :=
  match user with
  | Some id => Nat.eqb c_user_id id
  | None => false
  end.

(** [new_Date k] is the instant the [k]-th evaluation of [new Date()] in
    the call returns; the branch without a completion reads the clock
    twice.  [new Date(lastCompletion.completed_at)] is the instant of the
    completion, clipped.  [toISOString()] throws a [RangeError] on an
    invalid date, and so does the call. *)
Definition getGoalStatus (new_Date : nat -> Z) (user : option uuid)
    (g : GoalWithCompletions) : exn GoalStatus :=
  let userCompletions :=
    filter (fun c => is_user (gc_user_id c) user) (completions g) in
  let lastCompletion := hd_error userCompletions in
  let '(nextDeadline, reads) :=
    match lastCompletion with
    | Some c => (setDate_plus (TimeClip (completed_at c)) (frequency_days (goal g)),
                 0%nat)
    | None => (setDate_plus (Some (new_Date 0%nat)) (frequency_days (goal g)),
               1%nat)
    end in
  let now := new_Date reads in
  match nextDeadline with
  | None => Raise "Invalid time value"
  | Some deadline =>
      let isOverdue := deadline <? now in
      let daysRemaining := Math_ceil_div (deadline - now) MS_PER_DAY in
      Return {| gs_goal_id := goal_id (goal g);
                gs_user_id := user;
                last_completion := option_map completed_at lastCompletion;
                next_deadline := deadline;
                is_overdue := isOverdue;
                days_remaining := daysRemaining;
                total_completions := List.length userCompletions |}
  end.
End Host.

(** * [check_goal_status(p_goal_id, p_user_id)]
    ([supabase/scheduled_goals_setup.sql]) *)

(** In the database instants are whole microseconds since 2000-01-01
    00:00:00 UTC, and a [timestamptz] lies between 4714-11-24 BC and the end
    of the year 294276. *)
Definition USEC_PER_DAY : Z := 24 * 60 * 60 * 1000000.

Definition MIN_TIMESTAMP : Z := -211813488000000000.

Definition END_TIMESTAMP : Z := 9223371331200000000.

Definition IS_VALID_TIMESTAMP (t : Z) : bool :=
  (MIN_TIMESTAMP <=? t) && (t <? END_TIMESTAMP).

(** [t + (n || ' days')::INTERVAL] in a session time zone whose UTC offset
    does not change between the two dates; a result that is no [timestamptz]
    is an error. *)
Definition plus_days (t : Z) (n : Z) : exn Z :=
  if IS_VALID_TIMESTAMP (t + n * USEC_PER_DAY)
  then Return (t + n * USEC_PER_DAY)
  else Raise "timestamp out of range".

(** [EXTRACT(DAY FROM a - b)::INTEGER]: the whole days of the interval,
    which carries the sign of the difference. *)
Definition extract_day (a b : Z) : Z := Z.quot (a - b) USEC_PER_DAY.

Record check_goal_status_json := {
  cgs_last_completion : option Z;
  cgs_next_deadline : option Z;
  cgs_is_overdue : option bool;
  cgs_days_remaining : option Z;
  cgs_total_completions : nat
}.

(** [SELECT completed_at ... ORDER BY completed_at DESC LIMIT 1] *)
Definition select_last_completion (goal_completions : list GoalCompletion)
    (p_goal_id p_user_id : uuid) : option Z :=
  option_map completed_at
    (hd_error
       (order_by_completed_at_desc
          (filter (fun c => Nat.eqb (gc_goal_id c) p_goal_id
                            && Nat.eqb (gc_user_id c) p_user_id)
                  goal_completions))).

(** [SELECT joined_at ... FROM group_members gm JOIN goals g ON g.group_id =
    gm.group_id WHERE g.id = p_goal_id AND gm.user_id = p_user_id] *)
Definition select_joined_at (goals : list Goal)
    (members : list group_members_row) (p_goal_id p_user_id : uuid)
    : option Z :=
  option_map (fun gm_g => joined_at (fst gm_g))
    (find (fun gm_g => Nat.eqb (goal_group_id (snd gm_g)) (gm_group_id (fst gm_g))
                       && Nat.eqb (goal_id (snd gm_g)) p_goal_id
                       && Nat.eqb (gm_user_id (fst gm_g)) p_user_id)
          (list_prod members goals)).

(** The result is [None] for the "Goal not found" object. *)
Definition check_goal_status (NOW : Z) (goals : list Goal)
    (members : list group_members_row) (goal_completions : list GoalCompletion)
    (p_goal_id p_user_id : uuid) : exn (option check_goal_status_json) :=
  match find (fun g => Nat.eqb (goal_id g) p_goal_id) goals with
  | None => Return None
  | Some v_goal =>
      let v_last_completion :=
        select_last_completion goal_completions p_goal_id p_user_id in
      v_deadline <-
        match v_last_completion with
        | None =>
            (* If never completed, deadline is from when they joined *)
            match select_joined_at goals members p_goal_id p_user_id with
            | None => Return None
            | Some j =>
                deadline <- plus_days j (frequency_days v_goal) ;;
                Return (Some deadline)
            end
        | Some last =>
            deadline <- plus_days last (frequency_days v_goal) ;;
            Return (Some deadline)
        end ;;
      Return
        (Some {| cgs_last_completion := v_last_completion;
                 cgs_next_deadline := v_deadline;
                 cgs_is_overdue := option_map (fun dl => dl <? NOW) v_deadline;
                 cgs_days_remaining :=
                   option_map (fun dl => extract_day dl NOW) v_deadline;
                 cgs_total_completions :=
                   List.length
                     (filter (fun c => Nat.eqb (gc_goal_id c) p_goal_id
                                       && Nat.eqb (gc_user_id c) p_user_id)
                             goal_completions) |})
  end.

(** * Closed forms of the ledger operations *)

(** The rows the loop of [log_failure] appends to a table that holds [txs]. *)
Fixpoint inserted_rows (now : Z) (g u : uuid) (P : numeric)
    (d url : option string) (members : list uuid) (txs : list transactions_row)
    : list transactions_row :=
  match members with
  | [] => []
  | r :: rest =>
      let t := {| tx_id := uuid_generate_v4 txs; tx_group_id := g;
                  from_user_id := u; to_user_id := r; amount := P;
                  status := pending; description := d;
                  proof_photo_url := url; created_at := now;
                  settled_at := None |} in
      t :: inserted_rows now g u P d url rest (txs ++ [t])
  end.

(** [COALESCE(p_description, 'Logged failure')] *)
Definition coalesce_description (p_description : option string) : string :=
  match p_description with
  | Some d => d
  | None => "Logged failure"%string
  end.

(** What the three [UPDATE]s of [log_failure] do to one membership row:
    the row of the failing user counts one more failure and loses [total],
    every other row of the group gains [P]. *)
Definition failure_applied (g u : uuid) (P total : numeric)
    (m : group_members_row) : group_members_row :=
  if Nat.eqb (gm_group_id m) g then
    if Nat.eqb (gm_user_id m) u
    then with_balance (with_failure_count m (failure_count m + 1))
                      (current_balance m - total)
    else with_balance m (current_balance m + P)
  else m.

(** What the two balance [UPDATE]s of [settle_debt] do to one row. *)
Definition debt_settled (t : transactions_row) (m : group_members_row)
    : group_members_row :=
  let m1 := if Nat.eqb (gm_group_id m) (tx_group_id t)
               && Nat.eqb (gm_user_id m) (from_user_id t)
            then with_balance m (current_balance m + amount t) else m in
  if Nat.eqb (gm_group_id m1) (tx_group_id t)
     && Nat.eqb (gm_user_id m1) (to_user_id t)
  then with_balance m1 (current_balance m1 - amount t) else m1.

(** [SET failure_count = failure_count + 1] on one row. *)
Definition bump_failure_count (m : group_members_row) : exn group_members_row :=
  c <- int4 (failure_count m + 1) ;; Return (with_failure_count m c).

(** The database [log_failure] leaves when it returns. *)
Definition failure_logged (now : Z) (g u : uuid) (P : numeric)
    (d url : option string) (s : db) : db :=
  let others := select_other_members s g (Some u) in
  {| groups := groups s;
     profiles := profiles s;
     group_members :=
       map (failure_applied g u P (Z.of_nat (List.length others) * P))
           (group_members s);
     transactions :=
       transactions s
       ++ inserted_rows now g u P (Some (coalesce_description d)) url others
            (transactions s) |}.

(** The database [settle_debt] leaves when it settles the pending row [t]. *)
Definition debt_settled_db (now : Z) (t : transactions_row) (s : db) : db :=
  {| groups := groups s;
     profiles := profiles s;
     group_members := map (debt_settled t) (group_members s);
     transactions :=
       map (fun x => if Nat.eqb (tx_id x) (tx_id t) then mark_paid now x else x)
           (transactions s) |}.

(** "Most recent first". *)
Definition newer_or_same (a b : GoalCompletion) : Prop :=
  completed_at b <= completed_at a.

(** The goal as [fetchGoals] hands it to [getGoalStatus]. *)
Definition fetched_goal (goal_completions : list GoalCompletion)
    (goalIds : list uuid) (g : Goal) : GoalWithCompletions :=
  merge_completions (fetch_completions goal_completions goalIds) g.

(** [UPDATE group_members SET current_balance = current_balance + P WHERE
    group_id = g AND user_id = r] on one row. *)
Definition credited (g r : uuid) (P : numeric) (m : group_members_row)
    : group_members_row :=
  if Nat.eqb (gm_group_id m) g && Nat.eqb (gm_user_id m) r
  then with_balance m (current_balance m + P) else m.

(** The database the two-argument [log_failure] leaves when it returns:
    the failing member is debited [P], whatever the number of recipients. *)
Definition full_setup_failure_logged (now : Z) (g u : uuid) (P : numeric)
    (d : option string) (s : db) : db :=
  let others := select_other_members s g (Some u) in
  {| groups := groups s;
     profiles := profiles s;
     group_members := map (failure_applied g u P P) (group_members s);
     transactions :=
       transactions s ++ inserted_rows now g u P d None others (transactions s) |}.


(** What the transactions [txs] put on the balance of member [r] of group
    [g] while they are pending: the amounts owed to [r] minus the amounts
    [r] owes. *)
Definition owed (txs : list transactions_row) (g r : uuid) : numeric :=
  fold_right Z.add 0
    (map (fun t =>
            (if Nat.eqb g (tx_group_id t) && Nat.eqb r (to_user_id t)
             then amount t else 0)
            - (if Nat.eqb g (tx_group_id t) && Nat.eqb r (from_user_id t)
               then amount t else 0))
         txs).

(** * Example data *)

(** The scenario of the specification, in cents: a group with penalty 2.00
    and the members 1, 2 and 3, all balances at zero, no transaction yet.
    The users 4 and 9 have a profile and no membership. *)
Definition example_group : db :=
  {| groups := [ {| g_id := 1%nat; default_penalty_amount := 200 |} ];
     profiles := [4%nat; 9%nat];
     group_members :=
       [ {| gm_group_id := 1%nat; gm_user_id := 1%nat;
            current_balance := 0; failure_count := 0; joined_at := 0 |};
         {| gm_group_id := 1%nat; gm_user_id := 2%nat;
            current_balance := 0; failure_count := 0; joined_at := 0 |};
         {| gm_group_id := 1%nat; gm_user_id := 3%nat;
            current_balance := 0; failure_count := 0; joined_at := 0 |} ];
     transactions := [] |}.

(** A ledger kept to three decimals ([cent] is 10 units): a group with
    penalty 2.005 and the members 1 and 2. *)
Definition example_mills : db :=
  {| groups := [ {| g_id := 1%nat; default_penalty_amount := 2005 |} ];
     profiles := [];
     group_members :=
       [ {| gm_group_id := 1%nat; gm_user_id := 1%nat;
            current_balance := 0; failure_count := 0; joined_at := 0 |};
         {| gm_group_id := 1%nat; gm_user_id := 2%nat;
            current_balance := 0; failure_count := 0; joined_at := 0 |} ];
     transactions := [] |}.

(** In cents: a group with penalty 100000000.00 whose only member is 1. *)
Definition example_huge_penalty : db :=
  {| groups := [ {| g_id := 1%nat; default_penalty_amount := 10000000000 |} ];
     profiles := [];
     group_members :=
       [ {| gm_group_id := 1%nat; gm_user_id := 1%nat;
            current_balance := 0; failure_count := 0; joined_at := 0 |} ];
     transactions := [] |}.

(** In cents: a group with penalty 2.00 whose only member is 1. *)
Definition example_solo : db :=
  {| groups := [ {| g_id := 1%nat; default_penalty_amount := 200 |} ];
     profiles := [];
     group_members :=
       [ {| gm_group_id := 1%nat; gm_user_id := 1%nat;
            current_balance := 0; failure_count := 0; joined_at := 0 |} ];
     transactions := [] |}.

(** The three-member group after member 1 failed: one pending transaction
    to each of the members 2 and 3. *)
Definition example_pending : db :=
  db_after example_group
    (log_failure 1 0 (Some 1%nat) 1%nat None None example_group).

(** ... and after the transaction to member 2 was settled at instant 5. *)
Definition example_settled : db :=
  db_after example_pending (settle_debt 5 1%nat example_pending).




(** Goal 1, due every 3 days, with two completions of user 1 (the later
    one at instant 5000) and one of user 2. *)
Definition example_goal : Goal :=
  {| goal_id := 1%nat; goal_group_id := 1%nat; frequency_days := 3;
     is_active := true |}.

Definition example_completions : list GoalCompletion :=
  [ {| gc_id := 1%nat; gc_goal_id := 1%nat; gc_user_id := 1%nat; completed_at := 1000 |};
    {| gc_id := 2%nat; gc_goal_id := 1%nat; gc_user_id := 1%nat; completed_at := 5000 |};
    {| gc_id := 3%nat; gc_goal_id := 1%nat; gc_user_id := 2%nat; completed_at := 9000 |} ].

(** A host on UTC, and a host in New York around the end of daylight
    saving time in 2024: its offset is -4 h before 2024-11-03 06:00 UTC and
    -5 h from then on; a local time of the repeated hour is read with the
    earlier offset. *)
Definition utc_host (t : Z) (isUTC : bool) : Z := 0.

Definition new_york_host (t : Z) (isUTC : bool) : Z :=
  if isUTC
  then if t <? 1730613600000 then -14400000 else -18000000
  else if t <? 1730613600000 - 14400000 then -14400000 else -18000000.

(** The status of user 1 two days after the completion at 5000, and the
    status of user 3, who never completed the goal, both on the UTC host. *)
Definition example_status_after_two_days : GoalStatus :=
  {| gs_goal_id := 1%nat; gs_user_id := Some 1%nat;
     last_completion := Some 5000;
     next_deadline := 5000 + 3 * MS_PER_DAY;
     is_overdue := false; days_remaining := 1;
     total_completions := 2 |}.

Definition example_status_never_completed : GoalStatus :=
  {| gs_goal_id := 1%nat; gs_user_id := Some 3%nat;
     last_completion := None;
     next_deadline := 123456789 + 3 * MS_PER_DAY;
     is_overdue := false; days_remaining := 3;
     total_completions := 0 |}.

(** Goal 1 with a completion of user 1 on 2024-11-02 at 12:00 UTC, the day
    before the clocks of New York go back. *)
Definition example_completions_november : list GoalCompletion :=
  [ {| gc_id := 1%nat; gc_goal_id := 1%nat; gc_user_id := 1%nat;
       completed_at := 1730548800000 |} ].

(** * [join_group_by_code(p_invite_code)] ([supabase/full_setup.sql]) *)

Record join_group_json := {
  jg_success : bool;
  jg_group_id : option uuid;
  jg_error : option string
}.

(** [SELECT id FROM groups WHERE invite_code = p_invite_code].  The column
    [invite_code] is read by this function only; [invite_codes] lists, in
    table order, the id and the code of the rows of [groups] that have
    one. *)
Definition select_group_by_invite_code (invite_codes : list (uuid * string))
    (p_invite_code : string) : option uuid :=
  option_map fst
    (find (fun r => String.eqb (snd r) p_invite_code) invite_codes).

(** The row [INSERT INTO group_members (group_id, user_id)] adds: the
    other columns take their defaults. *)
Definition new_membership (now : Z) (g u : uuid) : group_members_row :=
  {| gm_group_id := g; gm_user_id := u; current_balance := 0;
     failure_count := 0; joined_at := now |}.

Definition join_group_by_code (now : Z) (invite_codes : list (uuid * string))
    (auth_uid : option uuid) (p_invite_code : string) (s : db)
    : exn (join_group_json * db) :=
  let v_user_id := auth_uid in
  (* Find group *)
  match select_group_by_invite_code invite_codes p_invite_code with
  | None =>
      Return ({| jg_success := false; jg_group_id := None;
                 jg_error := Some "Invalid invite code"%string |}, s)
  | Some v_group_id =>
      (* Check membership *)
      let v_already_member :=
        existsb (fun m => Nat.eqb (gm_group_id m) v_group_id
                          && sql_eq (gm_user_id m) v_user_id)
                (group_members s) in
      if v_already_member
      then Return ({| jg_success := false; jg_group_id := None;
                      jg_error := Some "Already a member"%string |}, s)
      else
        (* Add to group *)
        u <- not_null "user_id" v_user_id ;;
        _ <- references_profiles "group_members" "user_id" (profile_ids s) u ;;
        Return ({| jg_success := true; jg_group_id := Some v_group_id;
                   jg_error := None |},
                {| groups := groups s;
                   profiles := profiles s;
                   group_members :=
                     group_members s ++ [new_membership now v_group_id u];
                   transactions := transactions s |})
  end.

(** * [get_net_balance()] ([supabase/full_setup.sql]) *)

(** [SELECT coalesce(sum(current_balance), 0) FROM group_members WHERE
    user_id = auth.uid()] *)
Definition get_net_balance (auth_uid : option uuid) (s : db) : numeric :=
  fold_right Z.add 0
    (map current_balance
       (filter (fun m => sql_eq (gm_user_id m) auth_uid) (group_members s))).

(** * [log_goal_completion(p_goal_id, p_proof_photo_url, p_notes)]
    ([supabase/scheduled_goals_setup.sql]) *)

Record log_goal_completion_json := {
  lgc_success : bool;
  lgc_completion_id : uuid
}.

(** [gen_random_uuid()], the default of [goal_completions.id]. *)
Definition gen_random_uuid (goal_completions : list GoalCompletion) : uuid :=
  S (list_max (map gc_id goal_completions)).

(** [EXISTS (SELECT 1 FROM goals g JOIN group_members gm ON g.group_id =
    gm.group_id WHERE g.id = p_goal_id AND gm.user_id = v_user_id)] *)
Definition is_member_of_goal_group (goals : list Goal)
    (members : list group_members_row) (p_goal_id v_user_id : uuid) : bool :=
  existsb (fun g_gm => Nat.eqb (goal_group_id (fst g_gm)) (gm_group_id (snd g_gm))
                       && Nat.eqb (goal_id (fst g_gm)) p_goal_id
                       && Nat.eqb (gm_user_id (snd g_gm)) v_user_id)
          (list_prod goals members).

(** The photo and the notes go to columns that no function reads back;
    [GoalCompletion] does not carry them.  The result is the JSON object and
    the table [goal_completions] after the [INSERT]. *)
Definition log_goal_completion (NOW : Z) (auth_uid : option uuid)
    (goals : list Goal) (members : list group_members_row)
    (goal_completions : list GoalCompletion) (p_goal_id : uuid)
    : exn (log_goal_completion_json * list GoalCompletion) :=
  match auth_uid with
  | None => Raise "Not authenticated"
  | Some v_user_id =>
      (* Verify user is member of the goal's group *)
      if negb (is_member_of_goal_group goals members p_goal_id v_user_id)
      then Raise "You are not a member of this goal's group"
      else
        (* Insert completion *)
        let v_completion_id := gen_random_uuid goal_completions in
        Return ({| lgc_success := true; lgc_completion_id := v_completion_id |},
                goal_completions
                ++ [ {| gc_id := v_completion_id; gc_goal_id := p_goal_id;
                        gc_user_id := v_user_id; completed_at := NOW |} ])
  end.

(** * [joinGroup] of the [useGroups] hook *)

(** The promise of [joinGroup] and the database the call leaves: the hook
    throws the error of the remote call, and throws the [error] of an answer
    whose [success] is false.  ([join_group_by_code] answers with an object
    whenever it returns, so the test [!data] never holds.) *)
Definition joinGroup (now : Z) (invite_codes : list (uuid * string))
    (auth_uid : option uuid) (inviteCode : string) (s : db)
    : exn join_group_json * db :=
  match join_group_by_code now invite_codes auth_uid inviteCode s with
  | Raise error => (Raise error, s)
  | Return (data, s') =>
      if negb (jg_success data)
      then (Raise (match jg_error data with
                   | Some e => if String.eqb e "" then "Failed to join group"%string
                               else e
                   | None => "Failed to join group"%string
                   end), s')
      else (Return data, s')
  end.

(** * [getStatusInfo] and [formatLastCompletion] of the goal card *)

Inductive theme_color := colors_error | colors_warning | colors_success.

(** The texts of the card, by template: [Overdue_by n plural] is "Overdue by
    [n] day" followed by "s" when [plural]; [Days_remaining d] is "[d] days
    remaining"; [Completed_days_ago n] is "Completed [n] days ago". *)
Inductive status_text :=
| Overdue_by (n : Z) (plural : bool)
| Due_today
| Due_tomorrow
| Days_remaining (d : Z).

Inductive last_completion_text :=
| Never_completed
| Completed_today
| Completed_yesterday
| Completed_days_ago (n : Z).

Record StatusInfo := {
  si_color : theme_color;
  si_bgColor : string;
  si_borderColor : string;
  si_text : status_text;
  si_urgent : bool
}.

Definition getStatusInfo (status : GoalStatus) : StatusInfo :=
  if is_overdue status then
    {| si_color := colors_error;
       si_bgColor := "rgba(239, 68, 68, 0.1)";
       si_borderColor := "rgba(239, 68, 68, 0.3)";
       si_text := Overdue_by (Z.abs (days_remaining status))
                    (negb (Z.abs (days_remaining status) =? 1));
       si_urgent := true |}
  else if days_remaining status <=? 1 then
    {| si_color := colors_warning;
       si_bgColor := "rgba(234, 179, 8, 0.1)";
       si_borderColor := "rgba(234, 179, 8, 0.3)";
       si_text := if days_remaining status <=? 0 then Due_today else Due_tomorrow;
       si_urgent := true |}
  else
    {| si_color := colors_success;
       si_bgColor := "rgba(34, 197, 94, 0.1)";
       si_borderColor := "rgba(34, 197, 94, 0.3)";
       si_text := Days_remaining (days_remaining status);
       si_urgent := false |}.

(** [Math.floor(a / b)] for a positive [b]. *)
Definition Math_floor_div (a b : Z) : Z := a / b.

(** [now] is the instant [new Date()] returns in the call. *)
Definition formatLastCompletion (now : Z) (status : GoalStatus)
    : last_completion_text :=
  match last_completion status with
  | None => Never_completed
  | Some date =>
      let diffDays := Math_floor_div (now - date) MS_PER_DAY in
      if diffDays =? 0 then Completed_today
      else if diffDays =? 1 then Completed_yesterday
      else Completed_days_ago diffDays
  end.

(** * [log_failure(p_group_id, p_description)] ([supabase/schema.sql]) *)

Record schema_log_failure_json := {
  slf_transactions_created : Z;
  slf_total_debt : option numeric
}.

Section SchemaSql.
Variable now : Z.

(** [v_total_debt + v_penalty_amount], NULL when the penalty is. *)
Definition add_penalty (v_total_debt v_penalty_amount : option numeric)
    : option numeric :=
  match v_total_debt, v_penalty_amount with
  | Some t, Some p => Some (t + p)
  | _, _ => None
  end.

Fixpoint schema_log_failure_loop (ids : list uuid) (p_group_id : uuid)
    (auth_uid : option uuid) (v_penalty_amount : option numeric)
    (p_description : option string)
    (members : list uuid) (gm : list group_members_row)
    (txs : list transactions_row) (v_transaction_count : Z)
    (v_total_debt : option numeric)
    : exn (list group_members_row * list transactions_row * Z * option numeric) :=
  match members with
  | [] => Return (gm, txs, v_transaction_count, v_total_debt)
  | v_member :: rest =>
      (* Create transaction (debt) *)
      from <- not_null "from_user_id" auth_uid ;;
      a <- not_null "amount" v_penalty_amount ;;
      _ <- references_profiles "transactions" "from_user_id" ids from ;;
      let txs' := txs ++ [ {| tx_id := uuid_generate_v4 txs;
                              tx_group_id := p_group_id;
                              from_user_id := from;
                              to_user_id := v_member;
                              amount := a;
                              status := pending;
                              description := p_description;
                              proof_photo_url := None;
                              created_at := now;
                              settled_at := None |} ] in
      (* Update other member's balance (they gain credit) *)
      gm' <- sql_update
               (fun m => Nat.eqb (gm_group_id m) p_group_id
                         && Nat.eqb (gm_user_id m) v_member)
               (fun m => b <- not_null "current_balance"
                                (option_map (Z.add (current_balance m))
                                   v_penalty_amount) ;;
                         Return (with_balance m b))
               gm ;;
      v_transaction_count' <- int4 (v_transaction_count + 1) ;;
      schema_log_failure_loop ids p_group_id auth_uid v_penalty_amount
        p_description rest gm' txs' v_transaction_count'
        (add_penalty v_total_debt v_penalty_amount)
  end.

Definition schema_log_failure (auth_uid : option uuid) (p_group_id : uuid)
    (p_description : option string) (s : db)
    : exn (schema_log_failure_json * db) :=
  (* Get penalty amount *)
  let v_penalty_amount := select_default_penalty_amount s p_group_id in
  (* select count( * ) - 1 from group_members where group_id = p_group_id *)
  let count_minus_1 :=
    Z.of_nat (List.length
                (filter (fun m => Nat.eqb (gm_group_id m) p_group_id)
                        (group_members s))) - 1 in
  (* Update failure count and balance for the failing user *)
  gm1 <- sql_update
           (fun m => Nat.eqb (gm_group_id m) p_group_id
                     && sql_eq (gm_user_id m) auth_uid)
           (fun m => c <- int4 (failure_count m + 1) ;;
                     b <- not_null "current_balance"
                            (option_map
                               (fun p => current_balance m - p * count_minus_1)
                               v_penalty_amount) ;;
                     Return (with_balance (with_failure_count m c) b))
           (group_members s) ;;
  (* Loop through other members to create debts *)
  ' (gm2, txs, v_transaction_count, v_total_debt) <-
    schema_log_failure_loop (profile_ids s) p_group_id auth_uid v_penalty_amount
      p_description
      (map gm_user_id
         (filter (fun m => Nat.eqb (gm_group_id m) p_group_id
                           && sql_neq (gm_user_id m) auth_uid) gm1))
      gm1 (transactions s) 0 (Some 0) ;;
  Return ({| slf_transactions_created := v_transaction_count;
             slf_total_debt := v_total_debt |},
          {| groups := groups s;
             profiles := profiles s;
             group_members := gm2;
             transactions := txs |}).
End SchemaSql.

(** * Notions used by the further properties *)

(** The transactions that are still pending. *)
Definition pending_transactions (s : db) : list transactions_row :=
  filter (fun t => status_eqb (status t) pending) (transactions s).

(** Every balance is what the pending transactions make it. *)
Definition balances_match_pending (s : db) : Prop :=
  forall g r b, balance_of s g r = Some b ->
                b = owed (pending_transactions s) g r.

(** What a transaction is, apart from its settlement. *)
Definition tx_core (t : transactions_row)
    : uuid * uuid * uuid * uuid * numeric * option string * option string * Z :=
  (tx_id t, tx_group_id t, from_user_id t, to_user_id t, amount t,
   description t, proof_photo_url t, created_at t).

(** The states a ledger reaches when users may also join groups. *)
Inductive reachable_joining (cent : positive) (invite_codes : list (uuid * string))
    (s0 : db) : db -> Prop :=
| rj_init : reachable_joining cent invite_codes s0 s0
| rj_log_failure s now g u d url :
    reachable_joining cent invite_codes s0 s ->
    is_member s g u = true ->
    reachable_joining cent invite_codes s0
      (db_after s (log_failure cent now (Some u) g d url s))
| rj_settle_debt s now id :
    reachable_joining cent invite_codes s0 s ->
    reachable_joining cent invite_codes s0 (db_after s (settle_debt now id s))
| rj_join s now auth_uid code :
    reachable_joining cent invite_codes s0 s ->
    reachable_joining cent invite_codes s0
      (db_after s (join_group_by_code now invite_codes auth_uid code s)).

(** The database [join_group_by_code] leaves when it adds the membership. *)
Definition joined (now : Z) (g u : uuid) (s : db) : db :=
  {| groups := groups s;
     profiles := profiles s;
     group_members := group_members s ++ [new_membership now g u];
     transactions := transactions s |}.

(** The invite code of the example group, and the group once user 4 has
    joined it and failed. *)
Definition example_invite_codes : list (uuid * string) :=
  [(1%nat, "ABC123"%string)].

Definition example_joined : db :=
  db_after example_group
    (join_group_by_code 7 example_invite_codes (Some 4%nat) "ABC123" example_group).

Definition example_joined_failed : db :=
  db_after example_joined
    (log_failure 1 8 (Some 4%nat) 1%nat None None example_joined).

(** The users and the groups that occur in [group_members], each once, and
    the sum of a quantity over a list. *)
Definition all_users (s : db) : list uuid :=
  nodup Nat.eq_dec (map gm_user_id (group_members s)).

Definition all_groups (s : db) : list uuid :=
  nodup Nat.eq_dec (map gm_group_id (group_members s)).

Definition total_of {A : Type} (f : A -> Z) (l : list A) : Z :=
  fold_right Z.add 0 (map f l).

(** What [check_goal_status] answers for user 1 and goal 1 at instant 0,
    and the table once member 3 has logged a completion at instant 9500. *)
Definition example_check_goal_status : check_goal_status_json :=
  {| cgs_last_completion := Some 5000;
     cgs_next_deadline := Some (5000 + 3 * USEC_PER_DAY);
     cgs_is_overdue := Some false;
     cgs_days_remaining := Some 3;
     cgs_total_completions := 2 |}.


(** The time a status of [getGoalStatus] has left: its deadline minus the
    clock reading the deadline was compared with. *)
Definition time_left (new_Date : nat -> Z) (st : GoalStatus) : Z :=
  next_deadline st
  - new_Date (match last_completion st with
              | Some _ => 0%nat
              | None => 1%nat
              end).

(** * Properties *)

(** ** Arithmetic of the column types *)

Lemma int4_in_range (z : Z) :
  INT4_MIN <= z <= INT4_MAX -> int4 z = Return z.
Proof.
  intros [Hlo Hhi]. unfold int4.
  apply Z.leb_le in Hlo. apply Z.leb_le in Hhi.
  now rewrite Hlo, Hhi.
Qed.

Lemma int4_Return (z z' : Z) :
  int4 z = Return z' -> z' = z /\ INT4_MIN <= z <= INT4_MAX.
Proof.
  unfold int4. destruct (INT4_MIN <=? z) eqn:Hlo; [|discriminate].
  destruct (z <=? INT4_MAX) eqn:Hhi; [|discriminate].
  simpl. intros [= <-]. apply Z.leb_le in Hlo. apply Z.leb_le in Hhi. lia.
Qed.

Lemma round_to_cent_whole (cent : positive) (x : numeric) :
  x mod Z.pos cent = 0 -> round_to_cent cent x = x.
Proof.
  intros Hmod. unfold round_to_cent.
  apply Z.mod_divide in Hmod; [|lia]. destruct Hmod as [k ->].
  assert (Hq : (2 * Z.abs (k * Z.pos cent) + Z.pos cent) / (2 * Z.pos cent) = Z.abs k).
  { symmetry. apply Z.div_unique with (r := Z.pos cent); [lia|].
    rewrite Z.abs_mul, (Z.abs_eq (Z.pos cent)) by lia. ring. }
  rewrite Hq, Z.sgn_mul. simpl (Z.sgn (Z.pos cent)).
  rewrite Z.mul_1_r, (Z.mul_comm (Z.sgn k)), Z.abs_sgn. reflexivity.
Qed.

Lemma round_to_cent_mod (cent : positive) (x : numeric) :
  round_to_cent cent x mod Z.pos cent = 0.
Proof. unfold round_to_cent. apply Z.mod_mul. lia. Qed.

Lemma is_decimal_10_2_spec (cent : positive) (x : numeric) :
  is_decimal_10_2 cent x = true <->
  x mod Z.pos cent = 0 /\ Z.abs x < DECIMAL_10_2_LIMIT cent.
Proof.
  unfold is_decimal_10_2. rewrite andb_true_iff, Z.eqb_eq, Z.ltb_lt. tauto.
Qed.

Lemma to_decimal_10_2_fits (cent : positive) (x : numeric) :
  is_decimal_10_2 cent x = true -> to_decimal_10_2 cent x = Return x.
Proof.
  intros H. apply is_decimal_10_2_spec in H. destruct H as [Hmod Hlim].
  unfold to_decimal_10_2. rewrite (round_to_cent_whole _ _ Hmod).
  apply Z.ltb_lt in Hlim. now rewrite Hlim.
Qed.

Lemma to_decimal_10_2_Return (cent : positive) (x r : numeric) :
  to_decimal_10_2 cent x = Return r ->
  r = round_to_cent cent x /\ is_decimal_10_2 cent r = true.
Proof.
  unfold to_decimal_10_2.
  destruct (Z.abs (round_to_cent cent x) <? DECIMAL_10_2_LIMIT cent) eqn:Hlim;
    [|discriminate].
  intros [= <-]. split; [reflexivity|].
  apply is_decimal_10_2_spec. split.
  - apply round_to_cent_mod.
  - now apply Z.ltb_lt.
Qed.

(** ** [UPDATE] statements *)

Lemma sql_update_ok {R : Type} (w : R -> bool) (set : R -> exn R) (f : R -> R)
    (rows : list R) :
  (forall r, In r rows -> w r = true -> set r = Return (f r)) ->
  sql_update w set rows = Return (map (fun r => if w r then f r else r) rows).
Proof.
  induction rows as [|r rest IH]; intros Hset; simpl; [reflexivity|].
  rewrite IH by (intros; apply Hset; [right|]; assumption).
  destruct (w r) eqn:Hw; [|reflexivity].
  rewrite (Hset r) by (auto using in_eq). reflexivity.
Qed.

Lemma sql_update_Return {R : Type} (w : R -> bool) (set : R -> exn R) (f : R -> R)
    (rows rows' : list R) :
  (forall r r', set r = Return r' -> r' = f r) ->
  sql_update w set rows = Return rows' ->
  rows' = map (fun r => if w r then f r else r) rows /\
  (forall r, In r rows -> w r = true -> set r = Return (f r)).
Proof.
  intros Hset. revert rows'.
  induction rows as [|r rest IH]; simpl; intros rows' H.
  - injection H as <-. split; [reflexivity|]. intros r [].
  - destruct (w r) eqn:Hw.
    + destruct (set r) as [r1|] eqn:Hr; [|discriminate]. simpl in H.
      destruct (sql_update w set rest) as [rest'|]; [|discriminate].
      simpl in H. injection H as <-.
      destruct (IH rest' eq_refl) as [-> Hall].
      pose proof (Hset _ _ Hr) as ->. split; [reflexivity|].
      intros r0 [<-|Hin] Hw0; [assumption|now apply Hall].
    + simpl in H.
      destruct (sql_update w set rest) as [rest'|]; [|discriminate].
      simpl in H. injection H as <-.
      destruct (IH rest' eq_refl) as [-> Hall]. split; [reflexivity|].
      intros r0 [<-|Hin] Hw0; [congruence|now apply Hall].
Qed.

(** ** The loop of [log_failure] *)

Lemma references_profiles_Return (table column : string) (ids : list uuid)
    (id : uuid) (r : unit) :
  references_profiles table column ids id = Return r ->
  existsb (Nat.eqb id) ids = true.
Proof.
  unfold references_profiles. now destruct (existsb (Nat.eqb id) ids).
Qed.

Lemma references_profiles_ok (table column : string) (ids : list uuid) (id : uuid) :
  existsb (Nat.eqb id) ids = true ->
  references_profiles table column ids id = Return tt.
Proof. unfold references_profiles. now intros ->. Qed.

Lemma member_has_profile (s : db) (g u : uuid) (m : group_members_row) :
  In m (group_members s) -> gm_user_id m = u ->
  existsb (Nat.eqb u) (profile_ids s) = true.
Proof.
  intros Hin Hu. apply existsb_exists. exists u. split; [|apply Nat.eqb_refl].
  unfold profile_ids. apply in_app_iff. left. rewrite <- Hu. now apply in_map.
Qed.

Lemma log_failure_loop_Return cent now ids g u P d url members :
  P mod Z.pos cent = 0 ->
  forall txs c tot r,
  tot mod Z.pos cent = 0 ->
  log_failure_loop cent now ids g u P d url members txs c tot = Return r ->
  r = (txs ++ inserted_rows now g u P (Some (coalesce_description d)) url members txs,
       c + Z.of_nat (List.length members),
       tot + Z.of_nat (List.length members) * P).
Proof.
  intros HP. induction members as [|m rest IH]; intros txs c tot r Htot H.
  - simpl in *. injection H as <-.
    now rewrite app_nil_r, Z.add_0_r, Z.add_0_r.
  - cbn [log_failure_loop] in H.
    destruct (references_profiles _ _ ids u) as [[]|]; [|discriminate].
    cbn [bind] in H.
    destruct (int4 (c + 1)) as [c'|] eqn:Hc; [|discriminate].
    apply int4_Return in Hc. destruct Hc as [-> _]. cbn [bind] in H.
    destruct (to_decimal_10_2 cent (tot + P)) as [t'|] eqn:Ht; [|discriminate].
    apply to_decimal_10_2_Return in Ht. destruct Ht as [-> _]. cbn [bind] in H.
    assert (Hsum : (tot + P) mod Z.pos cent = 0).
    { rewrite Z.add_mod, Htot, HP by lia. reflexivity. }
    rewrite (round_to_cent_whole _ _ Hsum) in H.
    apply IH in H; [|assumption]. subst r.
    cbn [inserted_rows List.length]. rewrite <- app_assoc. cbn [app].
    unfold coalesce_description. rewrite Nat2Z.inj_succ.
    apply f_equal2; [apply f_equal2; [reflexivity|lia]|lia].
Qed.

Lemma log_failure_loop_ok cent now ids g u P d url members :
  P mod Z.pos cent = 0 ->
  members = [] \/ existsb (Nat.eqb u) ids = true ->
  forall txs c tot,
  tot mod Z.pos cent = 0 ->
  INT4_MIN <= c -> c + Z.of_nat (List.length members) <= INT4_MAX ->
  Z.abs tot < DECIMAL_10_2_LIMIT cent ->
  Z.abs (tot + Z.of_nat (List.length members) * P) < DECIMAL_10_2_LIMIT cent ->
  log_failure_loop cent now ids g u P d url members txs c tot =
  Return (txs ++ inserted_rows now g u P (Some (coalesce_description d)) url members txs,
          c + Z.of_nat (List.length members),
          tot + Z.of_nat (List.length members) * P).
Proof.
  intros HP Hfk.
  induction members as [|m rest IH]; intros txs c tot Htot Hlo Hhi Ht Hend.
  - simpl. now rewrite app_nil_r, Z.add_0_r, Z.add_0_r.
  - cbn [log_failure_loop].
    assert (Hu : existsb (Nat.eqb u) ids = true)
      by (destruct Hfk as [Hnil|Hu]; [discriminate|assumption]).
    rewrite (references_profiles_ok _ _ _ _ Hu). cbn [bind].
    specialize (IH (or_intror Hu)).
    cbn [List.length] in Hhi, Hend. rewrite Nat2Z.inj_succ in Hhi, Hend.
    rewrite int4_in_range by lia. cbn [bind].
    assert (Hsum : (tot + P) mod Z.pos cent = 0).
    { rewrite Z.add_mod, Htot, HP by lia. reflexivity. }
    assert (Hnext : Z.abs (tot + P) < DECIMAL_10_2_LIMIT cent).
    { pose proof (Nat2Z.is_nonneg (List.length rest)).
      apply Z.abs_lt in Ht. apply Z.abs_lt in Hend. apply Z.abs_lt. nia. }
    rewrite to_decimal_10_2_fits
      by (apply is_decimal_10_2_spec; split; assumption).
    cbn [bind].
    rewrite IH; try assumption; try lia.
    cbn [inserted_rows List.length]. rewrite <- app_assoc. cbn [app].
    unfold coalesce_description. rewrite Nat2Z.inj_succ.
    apply f_equal. apply f_equal2; [apply f_equal2; [reflexivity|lia]|lia].
Qed.

(** ** Closed form of [log_failure] *)

Lemma bump_failure_count_Return (m m' : group_members_row) :
  bump_failure_count m = Return m' ->
  m' = with_failure_count m (failure_count m + 1).
Proof.
  unfold bump_failure_count.
  destruct (int4 (failure_count m + 1)) as [c|] eqn:Hc; [|discriminate].
  apply int4_Return in Hc. destruct Hc as [-> _]. now intros [= <-].
Qed.

Lemma three_updates (g u : uuid) (P total : numeric) (gm : list group_members_row) :
  map (fun m => if Nat.eqb (gm_group_id m) g && negb (Nat.eqb (gm_user_id m) u)
                then with_balance m (current_balance m + P) else m)
    (map (fun m => if Nat.eqb (gm_group_id m) g && Nat.eqb (gm_user_id m) u
                   then with_balance m (current_balance m - total) else m)
       (map (fun m => if Nat.eqb (gm_group_id m) g && Nat.eqb (gm_user_id m) u
                      then with_failure_count m (failure_count m + 1) else m)
          gm))
  = map (failure_applied g u P total) gm.
Proof.
  rewrite !map_map. apply map_ext. intros m. unfold failure_applied.
  destruct (Nat.eqb (gm_group_id m) g) eqn:Hg;
    destruct (Nat.eqb (gm_user_id m) u) eqn:Hu; cbn;
    rewrite ?Hg, ?Hu; cbn; rewrite ?Hg, ?Hu; reflexivity.
Qed.

Lemma log_failure_Return cent now u g d url s j s' :
  log_failure cent now (Some u) g d url s = Return (j, s') ->
  exists p P,
    select_default_penalty_amount s g = Some p /\
    to_decimal_10_2 cent p = Return P /\
    j = {| lf_success := true;
           transactions_created :=
             Z.of_nat (List.length (select_other_members s g (Some u)));
           total_debt :=
             Some (Z.of_nat (List.length (select_other_members s g (Some u))) * P) |} /\
    s' = failure_logged now g u P d url s.
Proof.
  unfold log_failure.
  destruct (select_default_penalty_amount s g) as [p|]; [|discriminate].
  destruct (to_decimal_10_2 cent p) as [P|] eqn:HP; [|discriminate].
  cbn [bind]. intros H. exists p, P. split; [reflexivity|]. split; [exact HP|].
  apply to_decimal_10_2_Return in HP. destruct HP as [_ HP].
  apply is_decimal_10_2_spec in HP. destruct HP as [HP _].
  destruct (log_failure_loop cent now (profile_ids s) g u P d url
              (select_other_members s g (Some u)) (transactions s) 0 0)
    as [[[txs c] tot]|] eqn:Hloop; [|discriminate].
  apply log_failure_loop_Return in Hloop; [|assumption|reflexivity].
  injection Hloop as -> -> ->. cbn [bind] in H.
  fold bump_failure_count in H.
  destruct (sql_update _ bump_failure_count (group_members s)) as [gm1|] eqn:H1;
    [|discriminate].
  apply (sql_update_Return _ _ (fun m => with_failure_count m (failure_count m + 1)))
    in H1; [|exact bump_failure_count_Return].
  destruct H1 as [-> _]. cbn [bind] in H.
  rewrite (sql_update_ok _ _ (fun m => with_balance m (current_balance m - _))) in H
    by reflexivity.
  cbn [bind] in H.
  rewrite (sql_update_ok _ _ (fun m => with_balance m (current_balance m + P))) in H
    by reflexivity.
  cbn [bind] in H. rewrite three_updates in H.
  injection H as <- <-. split; reflexivity.
Qed.

Lemma log_failure_ok cent now u g d url s p P :
  select_default_penalty_amount s g = Some p ->
  to_decimal_10_2 cent p = Return P ->
  Z.of_nat (List.length (select_other_members s g (Some u))) <= INT4_MAX ->
  Z.abs (Z.of_nat (List.length (select_other_members s g (Some u))) * P)
    < DECIMAL_10_2_LIMIT cent ->
  (forall m, In m (group_members s) ->
             gm_group_id m = g -> gm_user_id m = u ->
             failure_count m + 1 <= INT4_MAX /\ INT4_MIN <= failure_count m + 1) ->
  select_other_members s g (Some u) = []
  \/ existsb (Nat.eqb u) (profile_ids s) = true ->
  log_failure cent now (Some u) g d url s =
  Return ({| lf_success := true;
             transactions_created :=
               Z.of_nat (List.length (select_other_members s g (Some u)));
             total_debt :=
               Some (Z.of_nat (List.length (select_other_members s g (Some u))) * P) |},
          failure_logged now g u P d url s).
Proof.
  intros Hp HP Hn Htot Hfc Hfk. unfold log_failure. rewrite Hp, HP. cbn [bind].
  apply to_decimal_10_2_Return in HP. destruct HP as [_ HP].
  apply is_decimal_10_2_spec in HP. destruct HP as [HP HPlim].
  rewrite log_failure_loop_ok; try assumption; try reflexivity;
    [|unfold INT4_MIN; lia].
  - cbn [bind]. fold bump_failure_count.
    rewrite (sql_update_ok _ _ (fun m => with_failure_count m (failure_count m + 1))).
    + cbn [bind].
      rewrite (sql_update_ok _ _ (fun m => with_balance m (current_balance m - _)))
        by reflexivity.
      cbn [bind].
      rewrite (sql_update_ok _ _ (fun m => with_balance m (current_balance m + P)))
        by reflexivity.
      cbn [bind]. rewrite three_updates. reflexivity.
    + intros m Hin Hw. apply andb_true_iff in Hw. destruct Hw as [Hg Hu].
      apply Nat.eqb_eq in Hg. apply Nat.eqb_eq in Hu.
      unfold bump_failure_count. rewrite int4_in_range; [reflexivity|].
      specialize (Hfc m Hin Hg Hu). lia.
Qed.

(** ** Closed form of [settle_debt] *)

Lemma select_transaction_id s id t :
  select_transaction s id = Some t -> tx_id t = id /\ In t (transactions s).
Proof.
  unfold select_transaction. intros H. apply find_some in H.
  destruct H as [Hin Hid]. apply Nat.eqb_eq in Hid. auto.
Qed.

Lemma settle_debt_paid now id s t :
  select_transaction s id = Some t -> status t = paid ->
  settle_debt now id s =
  Return ({| sd_success := false; sd_error := Some "Already paid"%string |}, s).
Proof. intros Ht Hs. unfold settle_debt. rewrite Ht, Hs. reflexivity. Qed.

Lemma settle_debt_pending now id s t :
  select_transaction s id = Some t -> status t = pending ->
  settle_debt now id s =
  Return ({| sd_success := true; sd_error := None |}, debt_settled_db now t s).
Proof.
  intros Ht Hs. unfold settle_debt. rewrite Ht, Hs. cbn [status_eqb].
  destruct (select_transaction_id _ _ _ Ht) as [<- _].
  rewrite (sql_update_ok _ _ (mark_paid now)) by reflexivity. cbn [bind].
  rewrite (sql_update_ok _ _ (fun m => with_balance m (current_balance m + amount t)))
    by reflexivity.
  cbn [bind].
  rewrite (sql_update_ok _ _ (fun m => with_balance m (current_balance m - amount t)))
    by reflexivity.
  cbn [bind]. rewrite map_map. reflexivity.
Qed.

Lemma map_unselected {R : Type} (w : R -> bool) (f : R -> R) (rows : list R) :
  (forall r, In r rows -> w r = false) ->
  map (fun r => if w r then f r else r) rows = rows.
Proof.
  intros H. rewrite <- (map_id rows) at 2. apply map_ext_in.
  intros r Hin. now rewrite (H r Hin).
Qed.

Lemma settle_debt_missing now id s :
  select_transaction s id = None ->
  settle_debt now id s = Return ({| sd_success := true; sd_error := None |}, s).
Proof.
  intros Ht. unfold settle_debt. rewrite Ht. cbn [option_map].
  rewrite (sql_update_ok _ _ (mark_paid now)) by reflexivity. cbn [bind].
  rewrite (sql_update_ok _ _ (fun m => m)) by (intros r _ Hw; discriminate Hw).
  cbn [bind].
  rewrite (sql_update_ok _ _ (fun m => m)) by (intros r _ Hw; discriminate Hw).
  cbn [bind]. rewrite !map_unselected.
  - destruct s; reflexivity.
  - intros t Hin. unfold select_transaction in Ht.
    exact (find_none _ _ Ht t Hin).
  - reflexivity.
  - reflexivity.
Qed.

(** ** Keys and memberships *)

Lemma unique_keys_NoDup {K : Type} (eqb : K -> K -> bool) (keys : list K) :
  (forall a b, eqb a b = true <-> a = b) ->
  unique_keys eqb keys = true <-> NoDup keys.
Proof.
  intros Heqb. induction keys as [|k rest IH]; simpl.
  - split; [constructor|reflexivity].
  - rewrite andb_true_iff, negb_true_iff, IH. split.
    + intros [Hk Hrest]. constructor; [|assumption].
      intros Hin. apply not_true_iff_false in Hk. apply Hk.
      apply existsb_exists. exists k. split; [assumption|now apply Heqb].
    + intros H. inversion H as [|? ? Hk Hrest]; subst. split; [|assumption].
      apply not_true_iff_false. intros Hex. apply existsb_exists in Hex.
      destruct Hex as [k' [Hin Hkk]]. apply Heqb in Hkk. now subst k'.
Qed.

Lemma key_eqb_eq (a b : uuid * uuid) : key_eqb a b = true <-> a = b.
Proof.
  destruct a as [a1 a2], b as [b1 b2]. unfold key_eqb. simpl.
  rewrite andb_true_iff, !Nat.eqb_eq. split; [intros [-> ->]|intros [= -> ->]]; auto.
Qed.

Lemma unique_memberships_NoDup (s : db) :
  unique_memberships s = true <-> NoDup (map membership_key (group_members s)).
Proof. apply unique_keys_NoDup, key_eqb_eq. Qed.

Lemma unique_transaction_ids_NoDup (s : db) :
  unique_transaction_ids s = true <-> NoDup (map tx_id (transactions s)).
Proof. apply unique_keys_NoDup, Nat.eqb_eq. Qed.

Lemma find_row_In (g u : uuid) (rows : list group_members_row) :
  (exists m, find (fun m => Nat.eqb (gm_group_id m) g && Nat.eqb (gm_user_id m) u) rows
             = Some m)
  <-> In (g, u) (map membership_key rows).
Proof.
  induction rows as [|m rest IH]; simpl.
  - split; [intros [m H]; discriminate|intros []].
  - destruct (Nat.eqb (gm_group_id m) g && Nat.eqb (gm_user_id m) u) eqn:Hm.
    + apply andb_true_iff in Hm. destruct Hm as [Hg Hu].
      apply Nat.eqb_eq in Hg. apply Nat.eqb_eq in Hu.
      split; [intros _; left; unfold membership_key; congruence|eauto].
    + rewrite IH. split; [auto|]. intros [Hk|Hin]; [|assumption].
      unfold membership_key in Hk. injection Hk as <- <-.
      now rewrite !Nat.eqb_refl in Hm.
Qed.

Lemma is_member_In (s : db) (g u : uuid) :
  is_member s g u = true <-> In (g, u) (map membership_key (group_members s)).
Proof.
  rewrite <- find_row_In. unfold is_member, member_row.
  destruct (find _ (group_members s)) as [m|].
  - split; eauto.
  - split; [discriminate|intros [m H]; discriminate].
Qed.

Lemma is_member_same_keys (s s' : db) (g u : uuid) :
  map membership_key (group_members s') = map membership_key (group_members s) ->
  is_member s' g u = is_member s g u.
Proof.
  intros Hk. apply eq_true_iff_eq. now rewrite !is_member_In, Hk.
Qed.

Lemma one_row_per_member (g u : uuid) (rows : list group_members_row) :
  NoDup (map membership_key rows) ->
  In (g, u) (map membership_key rows) ->
  List.length (filter (fun m => Nat.eqb (gm_group_id m) g && Nat.eqb (gm_user_id m) u) rows)
  = 1%nat.
Proof.
  induction rows as [|m rest IH]; simpl; intros Hnd Hin; [contradiction|].
  inversion Hnd as [|? ? Hfresh Hrest]; subst.
  destruct (Nat.eqb (gm_group_id m) g && Nat.eqb (gm_user_id m) u) eqn:Hm.
  - simpl. f_equal.
    apply andb_true_iff in Hm. destruct Hm as [Hg Hu].
    apply Nat.eqb_eq in Hg. apply Nat.eqb_eq in Hu.
    assert (Hnone : ~ In (g, u) (map membership_key rest)).
    { unfold membership_key in Hfresh. now rewrite Hg, Hu in Hfresh. }
    clear - Hnone. induction rest as [|r rest IH]; simpl; [reflexivity|].
    simpl in Hnone.
    destruct (Nat.eqb (gm_group_id r) g && Nat.eqb (gm_user_id r) u) eqn:Hr.
    + exfalso. apply Hnone. left.
      apply andb_true_iff in Hr. destruct Hr as [Hg Hu].
      apply Nat.eqb_eq in Hg. apply Nat.eqb_eq in Hu.
      unfold membership_key. congruence.
    + apply IH. tauto.
  - apply IH; [assumption|]. destruct Hin as [Hk|Hin]; [|assumption].
    unfold membership_key in Hk. injection Hk as <- <-.
    now rewrite !Nat.eqb_refl in Hm.
Qed.

Lemma failure_applied_key (g u : uuid) (P total : numeric) (m : group_members_row) :
  membership_key (failure_applied g u P total m) = membership_key m.
Proof.
  unfold failure_applied.
  destruct (Nat.eqb (gm_group_id m) g); [|reflexivity].
  destruct (Nat.eqb (gm_user_id m) u); reflexivity.
Qed.

Lemma debt_settled_key (t : transactions_row) (m : group_members_row) :
  membership_key (debt_settled t m) = membership_key m.
Proof.
  unfold debt_settled.
  destruct (Nat.eqb (gm_group_id m) (tx_group_id t)
            && Nat.eqb (gm_user_id m) (from_user_id t)); cbn;
  match goal with |- context [if ?c then _ else _] => destruct c end; reflexivity.
Qed.

Lemma failure_logged_keys now g u P d url s :
  map membership_key (group_members (failure_logged now g u P d url s))
  = map membership_key (group_members s).
Proof.
  unfold failure_logged. cbn [group_members]. rewrite map_map.
  apply map_ext. intros m. apply failure_applied_key.
Qed.

Lemma debt_settled_db_keys now t s :
  map membership_key (group_members (debt_settled_db now t s))
  = map membership_key (group_members s).
Proof.
  unfold debt_settled_db. cbn [group_members]. rewrite map_map.
  apply map_ext. intros m. apply debt_settled_key.
Qed.

(** ** Balance sums *)

Lemma failure_applied_group (g u : uuid) (P total : numeric) (m : group_members_row) :
  gm_group_id (failure_applied g u P total m) = gm_group_id m.
Proof. exact (f_equal fst (failure_applied_key g u P total m)). Qed.

Lemma failure_applied_balance (g u : uuid) (P total : numeric) (m : group_members_row) :
  current_balance (failure_applied g u P total m)
  = if Nat.eqb (gm_group_id m) g
    then if Nat.eqb (gm_user_id m) u
         then current_balance m - total else current_balance m + P
    else current_balance m.
Proof.
  unfold failure_applied.
  destruct (Nat.eqb (gm_group_id m) g); [|reflexivity].
  destruct (Nat.eqb (gm_user_id m) u); reflexivity.
Qed.

Lemma debt_settled_group (t : transactions_row) (m : group_members_row) :
  gm_group_id (debt_settled t m) = gm_group_id m.
Proof. exact (f_equal fst (debt_settled_key t m)). Qed.

Lemma debt_settled_balance (t : transactions_row) (m : group_members_row) :
  current_balance (debt_settled t m)
  = current_balance m
    + (if Nat.eqb (gm_group_id m) (tx_group_id t)
          && Nat.eqb (gm_user_id m) (from_user_id t) then amount t else 0)
    - (if Nat.eqb (gm_group_id m) (tx_group_id t)
          && Nat.eqb (gm_user_id m) (to_user_id t) then amount t else 0).
Proof.
  unfold debt_settled.
  destruct (Nat.eqb (gm_group_id m) (tx_group_id t)
            && Nat.eqb (gm_user_id m) (from_user_id t)); cbn;
  match goal with |- context [if ?c then _ else _] => destruct c end; cbn; lia.
Qed.

Lemma sum_failure_applied (g u : uuid) (P total : numeric) (g' : uuid)
    (rows : list group_members_row) :
  sum_balances g' (map (failure_applied g u P total) rows)
  = sum_balances g' rows
    + (if Nat.eqb g' g
       then P * Z.of_nat (List.length
                 (filter (fun m => Nat.eqb (gm_group_id m) g
                                   && sql_neq (gm_user_id m) (Some u)) rows))
            - total * Z.of_nat (List.length
                 (filter (fun m => Nat.eqb (gm_group_id m) g
                                   && Nat.eqb (gm_user_id m) u) rows))
       else 0).
Proof.
  unfold sum_balances.
  induction rows as [|m rest IH]; cbn [map filter].
  - destruct (Nat.eqb g' g); simpl; lia.
  - rewrite failure_applied_group.
    change (sql_neq (gm_user_id m) (Some u)) with (negb (Nat.eqb (gm_user_id m) u)).
    destruct (Nat.eqb_spec (gm_group_id m) g') as [Hg'|Hg'];
      cbn [map fold_right]; rewrite ?failure_applied_balance, IH;
      destruct (Nat.eqb_spec g' g) as [Hgg|Hgg];
      destruct (Nat.eqb_spec (gm_group_id m) g) as [Hg|Hg]; try congruence;
      destruct (Nat.eqb_spec (gm_user_id m) u) as [Hu|Hu];
      cbn [andb negb List.length]; rewrite ?Nat2Z.inj_succ; lia.
Qed.

Lemma sum_debt_settled (t : transactions_row) (g' : uuid)
    (rows : list group_members_row) :
  sum_balances g' (map (debt_settled t) rows)
  = sum_balances g' rows
    + (if Nat.eqb g' (tx_group_id t)
       then amount t * Z.of_nat (List.length
                 (filter (fun m => Nat.eqb (gm_group_id m) (tx_group_id t)
                                   && Nat.eqb (gm_user_id m) (from_user_id t)) rows))
            - amount t * Z.of_nat (List.length
                 (filter (fun m => Nat.eqb (gm_group_id m) (tx_group_id t)
                                   && Nat.eqb (gm_user_id m) (to_user_id t)) rows))
       else 0).
Proof.
  unfold sum_balances.
  induction rows as [|m rest IH]; cbn [map filter].
  - destruct (Nat.eqb g' (tx_group_id t)); simpl; lia.
  - rewrite debt_settled_group.
    destruct (Nat.eqb_spec (gm_group_id m) g') as [Hg'|Hg'];
      cbn [map fold_right]; rewrite ?debt_settled_balance, IH;
      destruct (Nat.eqb_spec g' (tx_group_id t)) as [Hgg|Hgg];
      destruct (Nat.eqb_spec (gm_group_id m) (tx_group_id t)) as [Hg|Hg];
      try congruence;
      destruct (Nat.eqb_spec (gm_user_id m) (from_user_id t)) as [Hf|Hf];
      destruct (Nat.eqb_spec (gm_user_id m) (to_user_id t)) as [Ht|Ht];
      cbn [andb List.length]; rewrite ?Nat2Z.inj_succ; lia.
Qed.

Lemma failure_logged_sum now g u P d url s g' :
  unique_memberships s = true -> is_member s g u = true ->
  group_balance_sum (failure_logged now g u P d url s) g' = group_balance_sum s g'.
Proof.
  intros Hun Hmem. unfold group_balance_sum, failure_logged. cbn [group_members].
  rewrite sum_failure_applied.
  destruct (Nat.eqb g' g); [|lia].
  rewrite one_row_per_member
    by (try apply unique_memberships_NoDup; try apply is_member_In; assumption).
  unfold select_other_members. rewrite length_map. lia.
Qed.

Lemma debt_settled_db_sum now t s g' :
  unique_memberships s = true ->
  is_member s (tx_group_id t) (from_user_id t) = true ->
  is_member s (tx_group_id t) (to_user_id t) = true ->
  group_balance_sum (debt_settled_db now t s) g' = group_balance_sum s g'.
Proof.
  intros Hun Hfrom Hto. unfold group_balance_sum, debt_settled_db.
  cbn [group_members]. rewrite sum_debt_settled.
  destruct (Nat.eqb g' (tx_group_id t)); [|lia].
  rewrite !one_row_per_member
    by (try apply unique_memberships_NoDup; try apply is_member_In; assumption).
  lia.
Qed.

(** ** Consistency is preserved *)

Lemma consistent_spec (s : db) :
  consistent s = true <->
  NoDup (map membership_key (group_members s)) /\
  NoDup (map tx_id (transactions s)) /\
  (forall t, In t (transactions s) ->
     is_member s (tx_group_id t) (from_user_id t) = true /\
     is_member s (tx_group_id t) (to_user_id t) = true).
Proof.
  unfold consistent, parties_are_members.
  rewrite !andb_true_iff, unique_memberships_NoDup,
    unique_transaction_ids_NoDup, forallb_forall.
  split.
  - intros [[Hk Hid] Hp]. repeat split; try assumption;
      specialize (Hp t H); apply andb_true_iff in Hp; tauto.
  - intros (Hk & Hid & Hp). repeat split; try assumption.
    intros t Hin. apply andb_true_iff. now apply Hp.
Qed.

Lemma uuid_generate_v4_fresh (txs : list transactions_row) :
  ~ In (uuid_generate_v4 txs) (map tx_id txs).
Proof.
  unfold uuid_generate_v4. intros Hin.
  pose proof (proj1 (list_max_le (map tx_id txs) (list_max (map tx_id txs)))
                    (Nat.le_refl _)) as Hall.
  rewrite Forall_forall in Hall. specialize (Hall _ Hin). lia.
Qed.

Lemma inserted_rows_In now g u P d url members :
  forall txs t,
  In t (inserted_rows now g u P d url members txs) ->
  tx_group_id t = g /\ from_user_id t = u /\ In (to_user_id t) members /\
  amount t = P /\ status t = pending /\ description t = d /\
  proof_photo_url t = url /\ settled_at t = None.
Proof.
  induction members as [|r rest IH]; intros txs t Hin; [destruct Hin|].
  cbn [inserted_rows] in Hin. destruct Hin as [<-|Hin].
  - cbn. tauto.
  - apply IH in Hin. cbn [In]. tauto.
Qed.

Lemma inserted_rows_length now g u P d url members :
  forall txs, List.length (inserted_rows now g u P d url members txs)
              = List.length members.
Proof.
  induction members as [|r rest IH]; intros txs; cbn; [reflexivity|].
  now rewrite IH.
Qed.

Lemma inserted_rows_recipients now g u P d url members :
  forall txs, map to_user_id (inserted_rows now g u P d url members txs) = members.
Proof.
  induction members as [|r rest IH]; intros txs; cbn; [reflexivity|].
  now rewrite IH.
Qed.

Lemma NoDup_snoc {A : Type} (l : list A) (x : A) :
  NoDup l -> ~ In x l -> NoDup (l ++ [x]).
Proof.
  intros Hl Hx. apply NoDup_app; [assumption|repeat constructor; intros []|].
  intros a Hin [<-|[]]. contradiction.
Qed.

Lemma inserted_rows_NoDup now g u P d url members :
  forall txs,
  NoDup (map tx_id txs) ->
  NoDup (map tx_id (txs ++ inserted_rows now g u P d url members txs)).
Proof.
  induction members as [|r rest IH]; intros txs Hnd; cbn [inserted_rows].
  - now rewrite app_nil_r.
  - match goal with |- context [?t :: inserted_rows _ _ _ _ _ _ _ _] =>
      change (txs ++ t :: inserted_rows now g u P d url rest (txs ++ [t]))
        with (txs ++ [t] ++ inserted_rows now g u P d url rest (txs ++ [t]))
    end.
    rewrite app_assoc. apply IH.
    rewrite map_app. cbn [map tx_id]. apply NoDup_snoc; [assumption|].
    apply uuid_generate_v4_fresh.
Qed.

Lemma other_members_In (s : db) (g u r : uuid) :
  In r (select_other_members s g (Some u)) <->
  is_member s g r = true /\ r <> u.
Proof.
  unfold select_other_members. rewrite in_map_iff, is_member_In, in_map_iff.
  split.
  - intros [m [<- Hin]]. apply filter_In in Hin. destruct Hin as [Hin Hw].
    apply andb_true_iff in Hw. destruct Hw as [Hg Hu].
    apply Nat.eqb_eq in Hg. cbn in Hu. apply negb_true_iff, Nat.eqb_neq in Hu.
    split; [|assumption]. exists m. unfold membership_key. now rewrite Hg.
  - intros [[m [Hk Hin]] Hne]. unfold membership_key in Hk.
    injection Hk as Hg Hu. exists m. split; [assumption|].
    apply filter_In. split; [assumption|]. subst g r. rewrite Nat.eqb_refl. cbn.
    now apply negb_true_iff, Nat.eqb_neq.
Qed.

Lemma failure_logged_consistent now g u P d url s :
  consistent s = true -> is_member s g u = true ->
  consistent (failure_logged now g u P d url s) = true.
Proof.
  intros Hc Hmem. apply consistent_spec in Hc. destruct Hc as (Hk & Hid & Hp).
  apply consistent_spec. split; [|split].
  - now rewrite failure_logged_keys.
  - unfold failure_logged. cbn [transactions]. now apply inserted_rows_NoDup.
  - intros t Hin.
    rewrite !(is_member_same_keys s (failure_logged now g u P d url s))
      by apply failure_logged_keys.
    unfold failure_logged in Hin. cbn [transactions] in Hin.
    apply in_app_iff in Hin. destruct Hin as [Hin|Hin]; [now apply Hp|].
    apply inserted_rows_In in Hin. destruct Hin as (-> & -> & Hto & _).
    apply other_members_In in Hto. tauto.
Qed.

Lemma debt_settled_db_consistent now t s :
  consistent s = true -> consistent (debt_settled_db now t s) = true.
Proof.
  intros Hc. apply consistent_spec in Hc. destruct Hc as (Hk & Hid & Hp).
  apply consistent_spec. split; [|split].
  - now rewrite debt_settled_db_keys.
  - unfold debt_settled_db. cbn [transactions]. rewrite map_map.
    erewrite map_ext; [exact Hid|].
    intros x. now destruct (Nat.eqb (tx_id x) (tx_id t)).
  - intros x Hin.
    rewrite !(is_member_same_keys s (debt_settled_db now t s))
      by apply debt_settled_db_keys.
    unfold debt_settled_db in Hin. cbn [transactions] in Hin.
    apply in_map_iff in Hin. destruct Hin as [y [<- Hin]].
    destruct (Nat.eqb (tx_id y) (tx_id t)); cbn; now apply Hp.
Qed.

(** ** Every step of the ledger keeps each group's sum *)

Lemma log_failure_step cent now g u d url s :
  consistent s = true -> is_member s g u = true ->
  let s' := db_after s (log_failure cent now (Some u) g d url s) in
  consistent s' = true /\
  forall g', group_balance_sum s' g' = group_balance_sum s g'.
Proof.
  intros Hc Hmem.
  destruct (log_failure cent now (Some u) g d url s) as [[j s1]|msg] eqn:H;
    cbn [db_after]; [|now split].
  apply log_failure_Return in H. destruct H as (p & P & _ & _ & _ & ->).
  split; [now apply failure_logged_consistent|].
  intros g'. apply failure_logged_sum; [|assumption].
  unfold consistent in Hc. apply andb_true_iff in Hc. destruct Hc as [Hc _].
  apply andb_true_iff in Hc. tauto.
Qed.

Lemma settle_debt_step now id s :
  consistent s = true ->
  let s' := db_after s (settle_debt now id s) in
  consistent s' = true /\
  forall g', group_balance_sum s' g' = group_balance_sum s g'.
Proof.
  intros Hc. destruct (select_transaction s id) as [t|] eqn:Ht.
  - destruct (status t) eqn:Hs.
    + rewrite (settle_debt_pending _ _ _ _ Ht Hs). cbn [db_after].
      split; [now apply debt_settled_db_consistent|].
      destruct (select_transaction_id _ _ _ Ht) as [_ Hin].
      pose proof Hc as Hc'. apply consistent_spec in Hc'.
      destruct Hc' as (_ & _ & Hp). destruct (Hp t Hin) as [Hfrom Hto].
      intros g'. apply debt_settled_db_sum; try assumption.
      unfold consistent in Hc. apply andb_true_iff in Hc. destruct Hc as [Hc _].
      apply andb_true_iff in Hc. tauto.
    + rewrite (settle_debt_paid _ _ _ _ Ht Hs). cbn [db_after]. now split.
  - rewrite (settle_debt_missing _ _ _ Ht). cbn [db_after]. now split.
Qed.





(** The scenario of the specification: member 1 fails (two transactions of
    2.00, balances -4.00, +2.00, +2.00), then the transaction to member 2
    is settled (it becomes paid, balances -2.00, 0.00, +2.00); the sum is 0
    throughout. *)
Example concrete_scenario :
  map (fun t => (from_user_id t, to_user_id t, amount t, status t))
      (transactions example_pending)
  = [(1%nat, 2%nat, 200, pending); (1%nat, 3%nat, 200, pending)] /\
  map current_balance (group_members example_pending) = [-400; 200; 200] /\
  group_balance_sum example_pending 1%nat = 0 /\
  map (fun t => (from_user_id t, to_user_id t, amount t, status t))
      (transactions example_settled)
  = [(1%nat, 2%nat, 200, paid); (1%nat, 3%nat, 200, pending)] /\
  map current_balance (group_members example_settled) = [-200; 0; 200] /\
  group_balance_sum example_settled 1%nat = 0.
Proof. repeat split. Qed.

(** ** Reading one membership after an operation *)

Lemma find_row_map (f : group_members_row -> group_members_row) (g u : uuid)
    (rows : list group_members_row) :
  (forall m, membership_key (f m) = membership_key m) ->
  find (fun m => Nat.eqb (gm_group_id m) g && Nat.eqb (gm_user_id m) u) (map f rows)
  = option_map f
      (find (fun m => Nat.eqb (gm_group_id m) g && Nat.eqb (gm_user_id m) u) rows).
Proof.
  intros Hkey. induction rows as [|m rest IH]; cbn [map find]; [reflexivity|].
  pose proof (Hkey m) as Hm. unfold membership_key in Hm. injection Hm as -> ->.
  destruct (Nat.eqb (gm_group_id m) g && Nat.eqb (gm_user_id m) u);
    [reflexivity|exact IH].
Qed.

Lemma member_row_key (s : db) (g u : uuid) (m : group_members_row) :
  member_row s g u = Some m ->
  In m (group_members s) /\ gm_group_id m = g /\ gm_user_id m = u.
Proof.
  unfold member_row. intros H. apply find_some in H. destruct H as [Hin Hw].
  apply andb_true_iff in Hw. rewrite !Nat.eqb_eq in Hw. tauto.
Qed.

Lemma balance_of_failure_logged now g u P d url s g' r :
  balance_of (failure_logged now g u P d url s) g' r
  = option_map
      (fun b => if Nat.eqb g' g
                then if Nat.eqb r u
                     then b - Z.of_nat (List.length (select_other_members s g (Some u))) * P
                     else b + P
                else b)
      (balance_of s g' r).
Proof.
  unfold balance_of, member_row, failure_logged. cbn [group_members].
  rewrite find_row_map by apply failure_applied_key.
  destruct (find _ (group_members s)) as [m|] eqn:Hm; [|reflexivity].
  apply (member_row_key s) in Hm. destruct Hm as (_ & <- & <-).
  cbn [option_map]. now rewrite failure_applied_balance.
Qed.

Lemma failures_of_failure_logged now g u P d url s g' r :
  failures_of (failure_logged now g u P d url s) g' r
  = option_map
      (fun c => if Nat.eqb g' g && Nat.eqb r u then c + 1 else c)
      (failures_of s g' r).
Proof.
  unfold failures_of, member_row, failure_logged. cbn [group_members].
  rewrite find_row_map by apply failure_applied_key.
  destruct (find _ (group_members s)) as [m|] eqn:Hm; [|reflexivity].
  apply (member_row_key s) in Hm. destruct Hm as (_ & <- & <-).
  cbn [option_map]. unfold failure_applied.
  destruct (Nat.eqb (gm_group_id m) g); [|reflexivity].
  destruct (Nat.eqb (gm_user_id m) u); reflexivity.
Qed.

Lemma balance_of_debt_settled_db now t s g r :
  balance_of (debt_settled_db now t s) g r
  = option_map
      (fun b => b + (if Nat.eqb g (tx_group_id t) && Nat.eqb r (from_user_id t)
                     then amount t else 0)
                  - (if Nat.eqb g (tx_group_id t) && Nat.eqb r (to_user_id t)
                     then amount t else 0))
      (balance_of s g r).
Proof.
  unfold balance_of, member_row, debt_settled_db. cbn [group_members].
  rewrite find_row_map by apply debt_settled_key.
  destruct (find _ (group_members s)) as [m|] eqn:Hm; [|reflexivity].
  apply (member_row_key s) in Hm. destruct Hm as (_ & <- & <-).
  cbn [option_map]. now rewrite debt_settled_balance.
Qed.

Lemma unique_row (g u : uuid) (rows : list group_members_row) (m0 m : group_members_row) :
  NoDup (map membership_key rows) ->
  find (fun m => Nat.eqb (gm_group_id m) g && Nat.eqb (gm_user_id m) u) rows = Some m0 ->
  In m rows -> gm_group_id m = g -> gm_user_id m = u -> m = m0.
Proof.
  induction rows as [|x rest IH]; cbn [map find]; intros Hnd Hfind Hin Hg Hu;
    [destruct Hin|].
  inversion Hnd as [|? ? Hfresh Hrest]; subst.
  destruct (Nat.eqb (gm_group_id x) (gm_group_id m)
            && Nat.eqb (gm_user_id x) (gm_user_id m)) eqn:Hx.
  - injection Hfind as <-. destruct Hin as [Hin|Hin]; [now symmetry|].
    exfalso. apply Hfresh. apply andb_true_iff in Hx.
    rewrite !Nat.eqb_eq in Hx. destruct Hx as [Hxg Hxu].
    apply in_map_iff. exists m. unfold membership_key. split; [congruence|assumption].
  - destruct Hin as [->|Hin]; [now rewrite !Nat.eqb_refl in Hx|].
    now apply IH.
Qed.

Lemma balance_of_member (s : db) (g u : uuid) :
  is_member s g u = true -> exists b, balance_of s g u = Some b.
Proof.
  unfold is_member, balance_of.
  destruct (member_row s g u) as [m|]; [|discriminate].
  intros _. now exists (current_balance m).
Qed.

Lemma is_member_failures_of (s : db) (g u : uuid) (c : Z) :
  failures_of s g u = Some c -> is_member s g u = true.
Proof.
  unfold failures_of, is_member. now destruct (member_row s g u).
Qed.

(** ** Distribution *)

Lemma failures_of_row (s : db) (g u : uuid) (c : Z) :
  failures_of s g u = Some c ->
  exists m0, member_row s g u = Some m0 /\ failure_count m0 = c.
Proof.
  unfold failures_of. destruct (member_row s g u) as [m0|]; [|discriminate].
  intros [= <-]. eauto.
Qed.

Lemma caller_has_profile (s : db) (g u : uuid) (c : Z) :
  failures_of s g u = Some c ->
  existsb (Nat.eqb u) (profile_ids s) = true.
Proof.
  intros Hc. apply failures_of_row in Hc. destruct Hc as (m0 & Hm0 & _).
  apply member_row_key in Hm0. destruct Hm0 as (Hin & _ & Hu).
  exact (member_has_profile s g u m0 Hin Hu).
Qed.

Lemma log_failure_in_range cent now s g u p P c d url :
  unique_memberships s = true ->
  select_default_penalty_amount s g = Some p ->
  to_decimal_10_2 cent p = Return P ->
  failures_of s g u = Some c ->
  INT4_MIN <= c + 1 <= INT4_MAX ->
  Z.of_nat (List.length (select_other_members s g (Some u))) <= INT4_MAX ->
  Z.abs (Z.of_nat (List.length (select_other_members s g (Some u))) * P)
    < DECIMAL_10_2_LIMIT cent ->
  log_failure cent now (Some u) g d url s =
  Return ({| lf_success := true;
             transactions_created :=
               Z.of_nat (List.length (select_other_members s g (Some u)));
             total_debt :=
               Some (Z.of_nat (List.length (select_other_members s g (Some u))) * P) |},
          failure_logged now g u P d url s).
Proof.
  intros Hun Hp HP Hc Hrange Hn Htot.
  apply (log_failure_ok cent now u g d url s p P); try assumption.
  - intros m Hin Hg Hu. apply failures_of_row in Hc. destruct Hc as (m0 & Hm0 & <-).
    apply unique_memberships_NoDup in Hun.
    rewrite (unique_row g u (group_members s) m0 m Hun Hm0 Hin Hg Hu). lia.
  - right. exact (caller_has_profile s g u c Hc).
Qed.

(** C2 (distribution correctness), within the ranges of the declared
    types.  Let [P] be the penalty of the group rounded to two decimals (the
    penalty itself when it is a whole number of cents).  When [P * n] fits
    [DECIMAL(10,2)] and the counters stay within [integer], [log_failure]
    called by a member [u] with [n] other members appends [n] pending
    transactions from [u] of amount [P], one to each other member, takes
    [P * n] from the balance of [u], adds [P] to the balance of each other
    member and returns [n] and [P * n]. *)
Theorem log_failure_distribution cent now s g u p P c d url others n :
  unique_memberships s = true ->
  select_default_penalty_amount s g = Some p ->
  to_decimal_10_2 cent p = Return P ->
  failures_of s g u = Some c ->
  others = select_other_members s g (Some u) ->
  n = Z.of_nat (List.length others) ->
  Z.abs (P * n) < DECIMAL_10_2_LIMIT cent ->
  n <= INT4_MAX ->
  0 <= c < INT4_MAX ->
  (is_decimal_10_2 cent p = true -> P = p) /\
  exists s' new,
    log_failure cent now (Some u) g d url s
    = Return ({| lf_success := true; transactions_created := n;
                 total_debt := Some (P * n) |}, s') /\
    transactions s' = transactions s ++ new /\
    Z.of_nat (List.length new) = n /\
    map to_user_id new = others /\
    (forall t, In t new ->
       tx_group_id t = g /\ from_user_id t = u /\ amount t = P /\
       status t = pending) /\
    (exists b, balance_of s g u = Some b /\ balance_of s' g u = Some (b - P * n)) /\
    (forall r, In r others ->
       exists b, balance_of s g r = Some b /\ balance_of s' g r = Some (b + P)).
Proof.
  intros Hun Hp HP Hc -> -> Htot Hn Hrange. split.
  { intros Hfit. apply to_decimal_10_2_fits in Hfit. congruence. }
  exists (failure_logged now g u P d url s).
  exists (inserted_rows now g u P (Some (coalesce_description d)) url
            (select_other_members s g (Some u)) (transactions s)).
  split; [|split; [|split; [|split; [|split; [|split]]]]].
  - rewrite (log_failure_in_range cent now s g u p P c d url); try assumption.
    + now rewrite (Z.mul_comm P).
    + unfold INT4_MIN. lia.
    + now rewrite (Z.mul_comm _ P).
  - reflexivity.
  - now rewrite inserted_rows_length.
  - apply inserted_rows_recipients.
  - intros t Hin. apply inserted_rows_In in Hin. tauto.
  - pose proof (is_member_failures_of _ _ _ _ Hc) as Hmem.
    destruct (balance_of_member s g u Hmem) as [b Hb].
    exists b. split; [assumption|].
    rewrite balance_of_failure_logged, Hb.
    cbn [option_map]. rewrite !Nat.eqb_refl. f_equal. lia.
  - intros r Hin. apply other_members_In in Hin. destruct Hin as [Hmem Hne].
    destruct (balance_of_member s g r Hmem) as [b Hb].
    exists b. split; [assumption|].
    rewrite balance_of_failure_logged, Hb.
    cbn [option_map]. rewrite Nat.eqb_refl.
    apply Nat.eqb_neq in Hne. now rewrite Hne.
Qed.

Lemma log_failure_distribution_witness :
  (is_decimal_10_2 1 200 = true -> 200 = 200) /\
  exists s' new,
    log_failure 1 0 (Some 1%nat) 1%nat None None example_group
    = Return ({| lf_success := true; transactions_created := 2;
                 total_debt := Some (200 * 2) |}, s') /\
    transactions s' = transactions example_group ++ new /\
    Z.of_nat (List.length new) = 2 /\
    map to_user_id new = [2%nat; 3%nat] /\
    (forall t, In t new ->
       tx_group_id t = 1%nat /\ from_user_id t = 1%nat /\ amount t = 200 /\
       status t = pending) /\
    (exists b, balance_of example_group 1%nat 1%nat = Some b /\
               balance_of s' 1%nat 1%nat = Some (b - 200 * 2)) /\
    (forall r, In r [2%nat; 3%nat] ->
       exists b, balance_of example_group 1%nat r = Some b /\
                 balance_of s' 1%nat r = Some (b + 200)).
Proof.
  apply (log_failure_distribution 1 0 example_group 1%nat 1%nat 200 200 0 None None
           [2%nat; 3%nat] 2); try reflexivity.
  - unfold INT4_MAX. lia.
  - unfold INT4_MAX. lia.
Defined.

(** With a penalty of 2.005 the transaction carries 2.01: the amount is the
    penalty rounded to two decimals, not the penalty. *)
Lemma log_failure_distribution_counterexample :
  select_default_penalty_amount example_mills 1%nat = Some 2005 /\
  exists j s',
    log_failure 10 0 (Some 1%nat) 1%nat None None example_mills = Return (j, s') /\
    map amount (transactions s') = [2010] /\
    ~ (forall t, In t (transactions s') -> amount t = 2005).
Proof.
  split; [reflexivity|]. eexists. eexists. split; [reflexivity|].
  split; [reflexivity|]. intros H.
  specialize (H _ (or_introl eq_refl)). discriminate H.
Qed.

(** ** The sole member *)

Lemma map_failure_applied_balances (g u : uuid) (P : numeric)
    (rows : list group_members_row) :
  (forall m, In m rows -> gm_group_id m = g -> gm_user_id m = u) ->
  map current_balance (map (failure_applied g u P 0) rows)
  = map current_balance rows.
Proof.
  intros Hsole. rewrite map_map. apply map_ext_in. intros m Hin.
  rewrite failure_applied_balance.
  destruct (Nat.eqb_spec (gm_group_id m) g) as [Hg|Hg]; [|reflexivity].
  rewrite (Hsole m Hin Hg), Nat.eqb_refl. lia.
Qed.

Lemma no_other_members (s : db) (g u : uuid) :
  select_other_members s g (Some u) = [] ->
  forall m, In m (group_members s) -> gm_group_id m = g -> gm_user_id m = u.
Proof.
  intros Hnone m Hin Hg.
  destruct (Nat.eq_dec (gm_user_id m) u) as [Hu|Hu]; [assumption|].
  assert (Hr : In (gm_user_id m) (select_other_members s g (Some u))).
  { apply other_members_In. split; [|assumption].
    apply is_member_In. apply in_map_iff. exists m.
    unfold membership_key. now rewrite Hg. }
  rewrite Hnone in Hr. destruct Hr.
Qed.

(** C5 (sole member), within the ranges of the column types: when the
    penalty rounds to a [DECIMAL(10,2)] value and the failure count is below
    the largest [integer], [log_failure] called by the only member of a
    group returns success with no transaction and no debt, inserts nothing,
    counts one more failure for the member and leaves every balance as it
    was. *)
Theorem log_failure_sole_member cent now s g u p P c d url :
  unique_memberships s = true ->
  select_default_penalty_amount s g = Some p ->
  to_decimal_10_2 cent p = Return P ->
  failures_of s g u = Some c ->
  0 <= c < INT4_MAX ->
  select_other_members s g (Some u) = [] ->
  exists s',
    log_failure cent now (Some u) g d url s
    = Return ({| lf_success := true; transactions_created := 0;
                 total_debt := Some 0 |}, s') /\
    transactions s' = transactions s /\
    failures_of s' g u = Some (c + 1) /\
    map current_balance (group_members s') = map current_balance (group_members s) /\
    map membership_key (group_members s') = map membership_key (group_members s).
Proof.
  intros Hun Hp HP Hc Hrange Hnone.
  exists (failure_logged now g u P d url s).
  split; [|split; [|split; [|split]]].
  - rewrite (log_failure_in_range cent now s g u p P c d url); try assumption;
      rewrite ?Hnone; cbn [List.length Z.of_nat Z.mul Z.abs];
      try reflexivity; unfold INT4_MIN, INT4_MAX in *; lia.
  - unfold failure_logged. rewrite Hnone. cbn. apply app_nil_r.
  - rewrite failures_of_failure_logged, Hc. cbn [option_map].
    now rewrite !Nat.eqb_refl.
  - unfold failure_logged. rewrite Hnone. cbn [group_members List.length Z.of_nat Z.mul].
    apply map_failure_applied_balances. now apply no_other_members.
  - apply failure_logged_keys.
Qed.

Lemma log_failure_sole_member_witness :
  exists s',
    log_failure 1 0 (Some 1%nat) 1%nat None None example_solo
    = Return ({| lf_success := true; transactions_created := 0;
                 total_debt := Some 0 |}, s') /\
    transactions s' = transactions example_solo /\
    failures_of s' 1%nat 1%nat = Some (0 + 1) /\
    map current_balance (group_members s')
    = map current_balance (group_members example_solo) /\
    map membership_key (group_members s')
    = map membership_key (group_members example_solo).
Proof.
  apply (log_failure_sole_member 1 0 example_solo 1%nat 1%nat 200 200 0 None None);
    try reflexivity.
  unfold INT4_MAX. lia.
Defined.

(** A sole member of a group whose penalty is 100000000.00: the call does
    not succeed, the penalty does not fit [v_penalty]. *)
Lemma log_failure_sole_member_counterexample :
  select_other_members example_huge_penalty 1%nat (Some 1%nat) = [] /\
  is_member example_huge_penalty 1%nat 1%nat = true /\
  log_failure 1 0 (Some 1%nat) 1%nat None None example_huge_penalty
  = Raise "numeric field overflow".
Proof. repeat split. Qed.

(** ** Closed form of the two-argument [log_failure] *)

Lemma full_setup_loop_ok now ids g u P d members :
  existsb (Nat.eqb u) ids = true ->
  forall gm txs c,
  INT4_MIN <= c -> c + Z.of_nat (List.length members) <= INT4_MAX ->
  full_setup_log_failure_loop now ids g (Some u) (Some P) d members gm txs c
  = Return (fold_left (fun rows r => map (credited g r P) rows) members gm,
            txs ++ inserted_rows now g u P d None members txs,
            c + Z.of_nat (List.length members)).
Proof.
  intros Hfk. induction members as [|r rest IH]; intros gm txs c Hlo Hhi.
  - cbn. now rewrite app_nil_r, Z.add_0_r.
  - cbn [full_setup_log_failure_loop not_null bind option_map].
    rewrite (references_profiles_ok _ _ _ _ Hfk). cbn [bind].
    cbn [List.length] in Hhi. rewrite Nat2Z.inj_succ in Hhi.
    rewrite (sql_update_ok _ _ (fun m => with_balance m (current_balance m + P)))
      by reflexivity.
    cbn [bind]. rewrite int4_in_range by lia. cbn [bind].
    rewrite IH by lia.
    cbn [fold_left inserted_rows List.length]. rewrite <- app_assoc. cbn [app].
    rewrite Nat2Z.inj_succ.
    apply f_equal. apply f_equal2; [apply f_equal2; [reflexivity|reflexivity]|lia].
Qed.

Lemma credited_key (g r : uuid) (P : numeric) (m : group_members_row) :
  membership_key (credited g r P m) = membership_key m.
Proof.
  unfold credited.
  now destruct (Nat.eqb (gm_group_id m) g && Nat.eqb (gm_user_id m) r).
Qed.

Lemma credited_absent (g : uuid) (P : numeric) (members : list uuid)
    (m : group_members_row) :
  (gm_group_id m = g -> ~ In (gm_user_id m) members) ->
  fold_left (fun x r => credited g r P x) members m = m.
Proof.
  revert m. induction members as [|r rest IH]; intros m Hm; cbn [fold_left];
    [reflexivity|].
  assert (Hr : credited g r P m = m).
  { unfold credited.
    destruct (Nat.eqb_spec (gm_group_id m) g) as [Hg|Hg]; [|reflexivity].
    destruct (Nat.eqb_spec (gm_user_id m) r) as [Hu|Hu]; [|reflexivity].
    exfalso. apply (Hm Hg). now left. }
  rewrite Hr. apply IH. intros Hg Hin. apply (Hm Hg). now right.
Qed.

Lemma credited_once (g : uuid) (P : numeric) (members : list uuid)
    (m : group_members_row) :
  NoDup members -> gm_group_id m = g -> In (gm_user_id m) members ->
  fold_left (fun x r => credited g r P x) members m
  = with_balance m (current_balance m + P).
Proof.
  revert m. induction members as [|r rest IH]; intros m Hnd Hg Hin;
    [destruct Hin|].
  inversion Hnd as [|? ? Hfresh Hrest]; subst. cbn [fold_left].
  unfold credited at 2. rewrite Nat.eqb_refl. cbn [andb].
  destruct (Nat.eqb_spec (gm_user_id m) r) as [Hu|Hu].
  - apply credited_absent. cbn [gm_user_id with_balance]. intros _.
    now rewrite Hu.
  - destruct Hin as [Heq|Hin]; [now symmetry in Heq|]. now apply IH.
Qed.

Lemma fold_left_map_rows (g : uuid) (P : numeric) (members : list uuid)
    (rows : list group_members_row) :
  fold_left (fun rows r => map (credited g r P) rows) members rows
  = map (fun m => fold_left (fun x r => credited g r P x) members m) rows.
Proof.
  revert rows. induction members as [|r rest IH]; intros rows; cbn [fold_left].
  - now rewrite map_id.
  - now rewrite IH, map_map.
Qed.

Lemma other_members_NoDup (s : db) (g u : uuid) :
  unique_memberships s = true ->
  NoDup (select_other_members s g (Some u)).
Proof.
  intros Hun. apply unique_memberships_NoDup in Hun.
  unfold select_other_members.
  induction (group_members s) as [|m rest IH]; cbn [filter map]; [constructor|].
  cbn [map] in Hun. inversion Hun as [|? ? Hfresh Hrest]; subst.
  destruct (Nat.eqb_spec (gm_group_id m) g) as [Hg|Hg]; cbn [andb];
    [|now apply IH].
  destruct (sql_neq (gm_user_id m) (Some u)); [|now apply IH].
  cbn [map]. constructor; [|now apply IH].
  intros Hin. apply Hfresh. apply in_map_iff in Hin.
  destruct Hin as [m' [Hu' Hin']]. apply filter_In in Hin'.
  destruct Hin' as [Hin' Hw]. apply andb_true_iff in Hw. destruct Hw as [Hg' _].
  apply Nat.eqb_eq in Hg'. apply in_map_iff. exists m'.
  unfold membership_key. split; [congruence|assumption].
Qed.

Lemma full_setup_log_failure_in_range now s g u P c d :
  unique_memberships s = true ->
  select_default_penalty_amount s g = Some P ->
  failures_of s g u = Some c ->
  INT4_MIN <= c + 1 <= INT4_MAX ->
  Z.of_nat (List.length (select_other_members s g (Some u))) <= INT4_MAX ->
  full_setup_log_failure now (Some u) g d s
  = Return ({| lf_success := true;
               transactions_created :=
                 Z.of_nat (List.length (select_other_members s g (Some u)));
               total_debt :=
                 Some (P * Z.of_nat (List.length (select_other_members s g (Some u)))) |},
            full_setup_failure_logged now g u P d s).
Proof.
  intros Hun Hp Hc Hrange Hn. unfold full_setup_log_failure. rewrite Hp.
  cbn [sql_eq option_map].
  rewrite (sql_update_ok _ _
             (fun m => with_balance (with_failure_count m (failure_count m + 1))
                                    (current_balance m - P))).
  2:{ intros m Hin Hw. apply andb_true_iff in Hw. rewrite !Nat.eqb_eq in Hw.
      destruct Hw as [Hg Hu].
      destruct (failures_of_row _ _ _ _ Hc) as (m0 & Hm0 & <-).
      apply unique_memberships_NoDup in Hun.
      rewrite (unique_row g u (group_members s) m0 m Hun Hm0 Hin Hg Hu).
      rewrite int4_in_range by lia. reflexivity. }
  cbn [bind].
  set (gm1 := map _ (group_members s)).
  assert (Hothers : map gm_user_id
                      (filter (fun m => Nat.eqb (gm_group_id m) g
                                        && sql_neq (gm_user_id m) (Some u)) gm1)
                    = select_other_members s g (Some u)).
  { unfold gm1, select_other_members. clear.
    induction (group_members s) as [|m rest IH]; cbn [map filter]; [reflexivity|].
    destruct (Nat.eqb (gm_group_id m) g && Nat.eqb (gm_user_id m) u) eqn:Hw;
      cbn [gm_group_id gm_user_id with_balance with_failure_count];
      destruct (Nat.eqb (gm_group_id m) g && sql_neq (gm_user_id m) (Some u));
      cbn [map gm_user_id with_balance with_failure_count]; now rewrite IH. }
  rewrite Hothers.
  rewrite (full_setup_loop_ok now _ g u P d _ (caller_has_profile s g u c Hc))
    by (unfold INT4_MIN; lia).
  cbn [bind]. apply f_equal. apply f_equal2; [reflexivity|].
  unfold full_setup_failure_logged. f_equal.
  rewrite fold_left_map_rows. unfold gm1. rewrite map_map.
  apply map_ext_in. intros m Hin.
  pose proof (other_members_NoDup s g u Hun) as Hnd.
  unfold failure_applied.
  destruct (Nat.eqb_spec (gm_group_id m) g) as [Hg|Hg]; cbn [andb].
  - destruct (Nat.eqb_spec (gm_user_id m) u) as [Hu|Hu].
    + apply credited_absent. cbn [gm_user_id with_balance with_failure_count].
      intros _ Hin'. apply other_members_In in Hin'. tauto.
    + rewrite credited_once; try assumption; [reflexivity|].
      apply other_members_In. split; [|assumption].
      apply is_member_In. apply in_map_iff. exists m.
      unfold membership_key. now rewrite Hg.
  - apply credited_absent. intros Hg'. contradiction.
Qed.

Lemma balance_of_full_setup_failure_logged now g u P d s g' r :
  balance_of (full_setup_failure_logged now g u P d s) g' r
  = option_map
      (fun b => if Nat.eqb g' g
                then if Nat.eqb r u then b - P else b + P
                else b)
      (balance_of s g' r).
Proof.
  unfold balance_of, member_row, full_setup_failure_logged. cbn [group_members].
  rewrite find_row_map by apply failure_applied_key.
  destruct (find _ (group_members s)) as [m|] eqn:Hm; [|reflexivity].
  apply (member_row_key s) in Hm. destruct Hm as (_ & <- & <-).
  cbn [option_map]. now rewrite failure_applied_balance.
Qed.

(** The two-argument [log_failure] moves the sum of the group by
    [P * (n - 1)]: it keeps the ledger closed only for one recipient. *)
Lemma full_setup_failure_logged_sum now g u P d s :
  unique_memberships s = true -> is_member s g u = true ->
  group_balance_sum (full_setup_failure_logged now g u P d s) g
  = group_balance_sum s g
    + P * (Z.of_nat (List.length (select_other_members s g (Some u))) - 1).
Proof.
  intros Hun Hmem. unfold group_balance_sum, full_setup_failure_logged.
  cbn [group_members]. rewrite sum_failure_applied, Nat.eqb_refl.
  rewrite one_row_per_member
    by (try apply unique_memberships_NoDup; try apply is_member_In; assumption).
  unfold select_other_members. rewrite length_map. lia.
Qed.

Lemma inserted_rows_shape now g u P d d' url url' members :
  forall l1 l2,
  map tx_id l1 = map tx_id l2 ->
  map (fun t => (tx_id t, tx_group_id t, from_user_id t, to_user_id t,
                 amount t, status t))
      (inserted_rows now g u P d url members l1)
  = map (fun t => (tx_id t, tx_group_id t, from_user_id t, to_user_id t,
                   amount t, status t))
        (inserted_rows now g u P d' url' members l2).
Proof.
  induction members as [|r rest IH]; intros l1 l2 Hsame;
    cbn [inserted_rows map]; [reflexivity|].
  cbn [tx_id tx_group_id from_user_id to_user_id amount status].
  unfold uuid_generate_v4 at 1 3. rewrite Hsame. f_equal.
  apply IH. rewrite !map_app. cbn [map tx_id].
  unfold uuid_generate_v4. now rewrite Hsame.
Qed.

(** Where the two versions agree: the inserted rows up to the description
    and the photo, and every balance but the one of the failing member. *)
Lemma log_failure_versions_agree now g u P d url s :
  map (fun t => (tx_id t, tx_group_id t, from_user_id t, to_user_id t,
                 amount t, status t))
      (transactions (failure_logged now g u P d url s))
  = map (fun t => (tx_id t, tx_group_id t, from_user_id t, to_user_id t,
                   amount t, status t))
        (transactions (full_setup_failure_logged now g u P d s)) /\
  forall g' r, (g', r) <> (g, u) ->
    balance_of (failure_logged now g u P d url s) g' r
    = balance_of (full_setup_failure_logged now g u P d s) g' r.
Proof.
  split.
  - unfold failure_logged, full_setup_failure_logged. cbn [transactions].
    rewrite !map_app. f_equal. now apply inserted_rows_shape.
  - intros g' r Hne.
    rewrite balance_of_failure_logged, balance_of_full_setup_failure_logged.
    destruct (Nat.eqb_spec g' g) as [Hg|Hg]; [|reflexivity].
    destruct (Nat.eqb_spec r u) as [Hu|Hu]; [|reflexivity].
    exfalso. apply Hne. congruence.
Qed.

(** Where they differ: the balance of the failing member. *)
Lemma log_failure_versions_actor now g u P d url s :
  is_member s g u = true ->
  exists b,
    balance_of s g u = Some b /\
    balance_of (failure_logged now g u P d url s) g u
    = Some (b - Z.of_nat (List.length (select_other_members s g (Some u))) * P) /\
    balance_of (full_setup_failure_logged now g u P d s) g u = Some (b - P).
Proof.
  intros Hmem. destruct (balance_of_member s g u Hmem) as [b Hb].
  exists b. split; [assumption|].
  rewrite balance_of_failure_logged, balance_of_full_setup_failure_logged, Hb.
  cbn [option_map]. rewrite !Nat.eqb_refl. split; reflexivity.
Qed.

(** C10.  Member 1 of the three-member group with penalty 2.00 fails.  Both
    functions insert the same two transactions and credit 2.00 to members
    2 and 3, and both report a total debt of 4.00; the three-argument
    function debits member 1 by 4.00, the two-argument function by 2.00. *)
Theorem log_failure_versions_differ :
  exists j3 s3 j2 s2,
    log_failure 1 0 (Some 1%nat) 1%nat (Some "late"%string) None example_group
    = Return (j3, s3) /\
    full_setup_log_failure 0 (Some 1%nat) 1%nat (Some "late"%string) example_group
    = Return (j2, s2) /\
    j3 = j2 /\ total_debt j2 = Some 400 /\
    transactions s3 = transactions s2 /\
    map current_balance (group_members s3) = [-400; 200; 200] /\
    map current_balance (group_members s2) = [-200; 200; 200] /\
    group_balance_sum s3 1%nat = 0 /\
    group_balance_sum s2 1%nat = 200.
Proof. do 4 eexists. repeat split. Qed.

(** ** Settlement after a distribution *)

Lemma select_transaction_unique (s : db) (t : transactions_row) :
  NoDup (map tx_id (transactions s)) -> In t (transactions s) ->
  select_transaction s (tx_id t) = Some t.
Proof.
  unfold select_transaction.
  induction (transactions s) as [|x rest IH]; cbn [map find]; intros Hnd Hin;
    [destruct Hin|].
  inversion Hnd as [|? ? Hfresh Hrest]; subst.
  destruct Hin as [->|Hin]; [now rewrite Nat.eqb_refl|].
  destruct (Nat.eqb_spec (tx_id x) (tx_id t)) as [Hid|Hid]; [|now apply IH].
  exfalso. apply Hfresh. rewrite Hid. now apply in_map.
Qed.


(** ** Settling every transaction of a distribution *)

Lemma owed_inserted_rows now g u P d url members g' r :
  forall txs,
  owed (inserted_rows now g u P d url members txs) g' r
  = if Nat.eqb g' g
    then P * Z.of_nat (count_occ Nat.eq_dec members r)
         - (if Nat.eqb r u then P * Z.of_nat (List.length members) else 0)
    else 0.
Proof.
  unfold owed.
  induction members as [|m rest IH]; intros txs; cbn [inserted_rows map fold_right].
  - destruct (Nat.eqb g' g), (Nat.eqb r u); cbn; lia.
  - rewrite IH. cbn [tx_group_id to_user_id from_user_id amount count_occ List.length].
    destruct (Nat.eqb g' g); cbn [andb]; [|lia].
    destruct (Nat.eq_dec m r) as [->|Hm].
    + rewrite Nat.eqb_refl. destruct (Nat.eqb r u); rewrite ?Nat2Z.inj_succ; lia.
    + assert (Hr : Nat.eqb r m = false) by (apply Nat.eqb_neq; congruence).
      rewrite Hr. destruct (Nat.eqb r u); rewrite ?Nat2Z.inj_succ; lia.
Qed.

Lemma balance_of_failure_logged_owed now g u P d url s g' r :
  unique_memberships s = true ->
  balance_of (failure_logged now g u P d url s) g' r
  = option_map
      (fun b => b + owed (inserted_rows now g u P (Some (coalesce_description d)) url
                            (select_other_members s g (Some u)) (transactions s))
                         g' r)
      (balance_of s g' r).
Proof.
  intros Hun. rewrite balance_of_failure_logged.
  destruct (balance_of s g' r) as [b|] eqn:Hb; [|reflexivity].
  cbn [option_map]. f_equal. rewrite owed_inserted_rows.
  destruct (Nat.eqb_spec g' g) as [->|Hg]; [|lia].
  pose proof (other_members_NoDup s g u Hun) as Hnd.
  destruct (Nat.eqb_spec r u) as [->|Hu].
  - rewrite (proj1 (count_occ_not_In Nat.eq_dec _ u)); [cbn; lia|].
    intros Hin. apply other_members_In in Hin. tauto.
  - assert (Hin : In r (select_other_members s g (Some u))).
    { apply other_members_In. split; [|assumption].
      unfold is_member. unfold balance_of in Hb.
      now destruct (member_row s g r). }
    rewrite (proj1 (NoDup_count_occ' Nat.eq_dec _) Hnd r Hin). lia.
Qed.







(** ** Settling twice *)

Lemma select_transaction_debt_settled_db now t s id :
  tx_id t = id ->
  select_transaction (debt_settled_db now t s) id
  = option_map (mark_paid now) (select_transaction s id).
Proof.
  intros <-. unfold select_transaction, debt_settled_db. cbn [transactions].
  induction (transactions s) as [|x rest IH]; cbn [map find]; [reflexivity|].
  destruct (Nat.eqb (tx_id x) (tx_id t)) eqn:Hx.
  - cbn [mark_paid tx_id]. now rewrite Hx.
  - now rewrite Hx.
Qed.

(** C4 (idempotent settlement).  [settle_debt] on a paid transaction
    returns the "Already paid" failure and leaves the database as it was;
    so when [settle_debt] has settled a pending transaction, the same call
    made again is rejected and changes nothing. *)
Theorem settle_debt_already_paid :
  (forall now id s t,
     select_transaction s id = Some t -> status t = paid ->
     settle_debt now id s
     = Return ({| sd_success := false; sd_error := Some "Already paid"%string |}, s))
  /\
  (forall now now' id s t,
     select_transaction s id = Some t -> status t = pending ->
     exists s1,
       settle_debt now id s = Return ({| sd_success := true; sd_error := None |}, s1) /\
       settle_debt now' id s1
       = Return ({| sd_success := false; sd_error := Some "Already paid"%string |}, s1)).
Proof.
  split.
  - intros now id s t Ht Hs. now apply settle_debt_paid with (t := t).
  - intros now now' id s t Ht Hs.
    exists (debt_settled_db now t s). split; [now apply settle_debt_pending|].
    apply settle_debt_paid with (t := mark_paid now t); [|reflexivity].
    destruct (select_transaction_id _ _ _ Ht) as [Hid _].
    now rewrite (select_transaction_debt_settled_db now t s id Hid), Ht.
Qed.

Lemma settle_debt_already_paid_witness :
  settle_debt 6 1%nat example_settled
  = Return ({| sd_success := false; sd_error := Some "Already paid"%string |},
            example_settled)
  /\
  exists s1,
    settle_debt 5 1%nat example_pending
    = Return ({| sd_success := true; sd_error := None |}, s1) /\
    settle_debt 6 1%nat s1
    = Return ({| sd_success := false; sd_error := Some "Already paid"%string |}, s1).
Proof.
  split.
  - apply (proj1 settle_debt_already_paid 6 1%nat example_settled
             {| tx_id := 1%nat; tx_group_id := 1%nat; from_user_id := 1%nat;
                to_user_id := 2%nat; amount := 200; status := paid;
                description := Some "Logged failure"%string;
                proof_photo_url := None; created_at := 0; settled_at := Some 5 |});
      reflexivity.
  - apply (proj2 settle_debt_already_paid 5 6 1%nat example_pending
             {| tx_id := 1%nat; tx_group_id := 1%nat; from_user_id := 1%nat;
                to_user_id := 2%nat; amount := 200; status := pending;
                description := Some "Logged failure"%string;
                proof_photo_url := None; created_at := 0; settled_at := None |});
      reflexivity.
Defined.

(** ** Calls the functions do not reject *)

(** What a caller who is not a member does to the group: every member is
    credited, nobody is debited. *)
Lemma failure_logged_sum_non_member now g u P d url s :
  is_member s g u = false ->
  group_balance_sum (failure_logged now g u P d url s) g
  = group_balance_sum s g
    + P * Z.of_nat (List.length (select_other_members s g (Some u))).
Proof.
  intros Hmem. unfold group_balance_sum, failure_logged. cbn [group_members].
  rewrite sum_failure_applied, Nat.eqb_refl.
  assert (Hnone : filter (fun m => Nat.eqb (gm_group_id m) g
                                   && Nat.eqb (gm_user_id m) u) (group_members s)
                  = []).
  { destruct (filter _ _) as [|m rest] eqn:Hf; [reflexivity|].
    exfalso. apply not_true_iff_false in Hmem. apply Hmem.
    assert (Hin : In m (m :: rest)) by now left.
    rewrite <- Hf in Hin. apply filter_In in Hin. destruct Hin as [Hin Hw].
    apply andb_true_iff in Hw. rewrite !Nat.eqb_eq in Hw. destruct Hw as [Hg Hu].
    apply is_member_In. apply in_map_iff. exists m.
    unfold membership_key. split; [congruence|assumption]. }
  rewrite Hnone. unfold select_other_members. rewrite length_map.
  cbn [List.length Z.of_nat]. lia.
Qed.

(** C6.  User 9 is not a member of group 1, yet [log_failure] returns
    success: it inserts a transaction from 9 to each of the three members
    and credits each of them 2.00, with no debit anywhere. *)
Theorem log_failure_by_non_member :
  is_member example_group 1%nat 9%nat = false /\
  exists s',
    log_failure 1 0 (Some 9%nat) 1%nat None None example_group
    = Return ({| lf_success := true; transactions_created := 3;
                 total_debt := Some 600 |}, s') /\
    map (fun t => (from_user_id t, to_user_id t, amount t, status t)) (transactions s')
    = [(9%nat, 1%nat, 200, pending); (9%nat, 2%nat, 200, pending);
       (9%nat, 3%nat, 200, pending)] /\
    map current_balance (group_members s') = [200; 200; 200] /\
    group_balance_sum example_group 1%nat = 0 /\
    group_balance_sum s' 1%nat = 600.
Proof. split; [reflexivity|]. eexists. repeat split. Qed.

(** C7.  No transaction has id 7, yet [settle_debt] returns success (and
    leaves the database as it was). *)
Theorem settle_debt_unknown_transaction :
  select_transaction example_group 7%nat = None /\
  settle_debt 5 7%nat example_group
  = Return ({| sd_success := true; sd_error := None |}, example_group).
Proof. split; reflexivity. Qed.

(** ** Goal status *)

Lemma insert_desc_In (c x : GoalCompletion) (l : list GoalCompletion) :
  In x (insert_desc c l) <-> x = c \/ In x l.
Proof.
  induction l as [|y rest IH]; cbn [insert_desc].
  - cbn. intuition congruence.
  - destruct (completed_at y <=? completed_at c); cbn [In].
    + intuition congruence.
    + rewrite IH. intuition congruence.
Qed.

Lemma order_by_completed_at_desc_In (x : GoalCompletion) (l : list GoalCompletion) :
  In x (order_by_completed_at_desc l) <-> In x l.
Proof.
  unfold order_by_completed_at_desc.
  induction l as [|c rest IH]; cbn [fold_right]; [reflexivity|].
  rewrite insert_desc_In, IH. cbn. intuition congruence.
Qed.

Lemma insert_desc_sorted (c : GoalCompletion) (l : list GoalCompletion) :
  StronglySorted newer_or_same l -> StronglySorted newer_or_same (insert_desc c l).
Proof.
  induction l as [|y rest IH]; cbn [insert_desc]; intros Hs.
  - repeat constructor.
  - apply StronglySorted_inv in Hs. destruct Hs as [Hrest Hy].
    destruct (completed_at y <=? completed_at c) eqn:Hle.
    + apply Z.leb_le in Hle. constructor.
      * now constructor.
      * constructor; [exact Hle|].
        rewrite Forall_forall in *. intros x Hx. specialize (Hy x Hx).
        unfold newer_or_same in *. lia.
    + apply Z.leb_gt in Hle. constructor; [now apply IH|].
      rewrite Forall_forall in *. intros x Hx. apply insert_desc_In in Hx.
      destruct Hx as [->|Hx]; [unfold newer_or_same; lia|now apply Hy].
Qed.

Lemma order_by_completed_at_desc_sorted (l : list GoalCompletion) :
  StronglySorted newer_or_same (order_by_completed_at_desc l).
Proof.
  unfold order_by_completed_at_desc.
  induction l as [|c rest IH]; cbn [fold_right]; [constructor|].
  now apply insert_desc_sorted.
Qed.

Lemma filter_sorted (p : GoalCompletion -> bool) (l : list GoalCompletion) :
  StronglySorted newer_or_same l -> StronglySorted newer_or_same (filter p l).
Proof.
  induction l as [|c rest IH]; cbn [filter]; intros Hs; [constructor|].
  apply StronglySorted_inv in Hs. destruct Hs as [Hrest Hc].
  destruct (p c); [|now apply IH]. constructor; [now apply IH|].
  rewrite Forall_forall in *. intros x Hx. apply filter_In in Hx. now apply Hc.
Qed.

Lemma hd_error_sorted (l : list GoalCompletion) (x : GoalCompletion) :
  StronglySorted newer_or_same l -> In x l ->
  exists c, hd_error l = Some c /\ In c l /\ completed_at x <= completed_at c.
Proof.
  intros Hs Hin. destruct l as [|c rest]; [destruct Hin|].
  exists c. split; [reflexivity|]. split; [now left|].
  apply StronglySorted_inv in Hs. destruct Hs as [_ Hc].
  destruct Hin as [->|Hin]; [lia|].
  rewrite Forall_forall in Hc. exact (Hc x Hin).
Qed.

(** The completions [getGoalStatus] looks at: those of the user for the
    goal, most recent first. *)
Lemma userCompletions_In table goalIds (g : Goal) (u : uuid) (x : GoalCompletion) :
  In (goal_id g) goalIds ->
  In x (filter (fun c => is_user (gc_user_id c) (Some u))
          (completions (fetched_goal table goalIds g)))
  <-> In x table /\ gc_goal_id x = goal_id g /\ gc_user_id x = u.
Proof.
  intros Hg. unfold fetched_goal, merge_completions, fetch_completions.
  cbn [completions is_user].
  rewrite !filter_In, order_by_completed_at_desc_In, filter_In, !Nat.eqb_eq.
  split; [tauto|]. intros (Hin & Hgoal & Hu). repeat split; try assumption.
  apply existsb_exists. exists (goal_id g). split; [assumption|].
  now apply Nat.eqb_eq.
Qed.

Lemma userCompletions_sorted table goalIds (g : Goal) (u : option uuid) :
  StronglySorted newer_or_same
    (filter (fun c => is_user (gc_user_id c) u)
       (completions (fetched_goal table goalIds g))).
Proof.
  unfold fetched_goal, merge_completions, fetch_completions. cbn [completions].
  do 2 apply filter_sorted. apply order_by_completed_at_desc_sorted.
Qed.

Lemma Math_ceil_div_spec (a b k : Z) :
  0 < b -> (k - 1) * b < a <= k * b -> Math_ceil_div a b = k.
Proof.
  intros Hb Hk. unfold Math_ceil_div.
  assert (H : - a / b = - k); [|lia].
  symmetry. apply Z.div_unique with (r := k * b - a); lia.
Qed.

Lemma Math_ceil_div_bounds (a b : Z) :
  0 < b -> (Math_ceil_div a b - 1) * b < a <= Math_ceil_div a b * b.
Proof.
  intros Hb. unfold Math_ceil_div.
  pose proof (Z.div_mod (- a) b). pose proof (Z.mod_pos_bound (- a) b Hb). lia.
Qed.

Lemma setDate_plus_same_offset (LocalTZA : Z -> bool -> Z) (t n : Z) :
  Z.abs (t + n * MS_PER_DAY) <= MAX_TIME_VALUE ->
  LocalTZA (t + LocalTZA t true + n * MS_PER_DAY) false = LocalTZA t true ->
  setDate_plus LocalTZA (Some t) n = Some (t + n * MS_PER_DAY).
Proof.
  intros Hrange Hoff. unfold setDate_plus, UTC, LocalTime, TimeClip.
  rewrite Hoff.
  replace (t + LocalTZA t true + n * MS_PER_DAY - LocalTZA t true)
    with (t + n * MS_PER_DAY) by lia.
  apply Z.leb_le in Hrange. now rewrite Hrange.
Qed.

Lemma TimeClip_in_range (t : Z) :
  Z.abs t <= MAX_TIME_VALUE -> TimeClip t = Some t.
Proof. intros H. unfold TimeClip. apply Z.leb_le in H. now rewrite H. Qed.

(** C8 (goal status after a completion).  On a host whose UTC offset at the
    local time of the deadline is its offset at the completion, with the
    completion and the deadline within the range of [Date]: when the most
    recent completion of the user for the goal is at [T], [getGoalStatus]
    returns a status that has its deadline [frequency_days] days after [T],
    is overdue exactly when the deadline is before now, and has as days
    remaining the least whole number of days that reaches the deadline from
    now; with a frequency of 3 days this is "not overdue, 1 day" at [T] plus
    two days and "overdue, -1 day" at [T] plus four days. *)
Theorem getGoalStatus_after_completion LocalTZA table goalIds (g : Goal) (u : uuid)
    (new_Date : nat -> Z) (T : Z) :
  In (goal_id g) goalIds ->
  (exists c, In c table /\ gc_goal_id c = goal_id g /\ gc_user_id c = u /\
             completed_at c = T) ->
  (forall c, In c table -> gc_goal_id c = goal_id g -> gc_user_id c = u ->
             completed_at c <= T) ->
  Z.abs T <= MAX_TIME_VALUE ->
  Z.abs (T + frequency_days g * MS_PER_DAY) <= MAX_TIME_VALUE ->
  LocalTZA (T + LocalTZA T true + frequency_days g * MS_PER_DAY) false
  = LocalTZA T true ->
  exists st,
    getGoalStatus LocalTZA new_Date (Some u) (fetched_goal table goalIds g)
    = Return st /\
    last_completion st = Some T /\
    next_deadline st = T + frequency_days g * MS_PER_DAY /\
    is_overdue st = (next_deadline st <? new_Date 0%nat) /\
    ((days_remaining st - 1) * MS_PER_DAY < next_deadline st - new_Date 0%nat
     <= days_remaining st * MS_PER_DAY) /\
    (frequency_days g = 3 -> new_Date 0%nat = T + 2 * MS_PER_DAY ->
     is_overdue st = false /\ days_remaining st = 1) /\
    (frequency_days g = 3 -> new_Date 0%nat = T + 4 * MS_PER_DAY ->
     is_overdue st = true /\ days_remaining st = -1).
Proof.
  intros Hg [c0 (Hin0 & Hgoal0 & Hu0 & HT0)] Hmax HTrange Hrange Hoff.
  pose proof (userCompletions_sorted table goalIds g (Some u)) as Hs.
  assert (Hc0 : In c0 (filter (fun c => is_user (gc_user_id c) (Some u))
                         (completions (fetched_goal table goalIds g))))
    by (apply userCompletions_In; tauto).
  destruct (hd_error_sorted _ c0 Hs Hc0) as [c (Hhd & Hc & Hle)].
  apply userCompletions_In in Hc; [|assumption].
  destruct Hc as (Hin & Hgoal & Hu).
  assert (HT : completed_at c = T) by (specialize (Hmax c Hin Hgoal Hu); lia).
  unfold getGoalStatus. rewrite Hhd, HT.
  rewrite (TimeClip_in_range T HTrange).
  change (goal (fetched_goal table goalIds g)) with g.
  rewrite (setDate_plus_same_offset LocalTZA T (frequency_days g) Hrange Hoff).
  eexists. split; [reflexivity|].
  cbn [last_completion next_deadline is_overdue days_remaining option_map].
  rewrite HT.
  split; [reflexivity|]. split; [reflexivity|]. split; [reflexivity|].
  split; [now apply Math_ceil_div_bounds|].
  split; intros Hd Hnow; rewrite Hd, Hnow; unfold MS_PER_DAY.
  - split; [apply Z.ltb_ge; lia|apply Math_ceil_div_spec; lia].
  - split; [apply Z.ltb_lt; lia|apply Math_ceil_div_spec; lia].
Qed.

Lemma getGoalStatus_after_completion_witness :
  exists st,
    getGoalStatus utc_host (fun _ => 5000 + 2 * MS_PER_DAY) (Some 1%nat)
      (fetched_goal example_completions [1%nat] example_goal) = Return st /\
    last_completion st = Some 5000 /\
    is_overdue st = false /\
    days_remaining st = 1.
Proof.
  destruct (getGoalStatus_after_completion utc_host example_completions [1%nat]
              example_goal 1%nat (fun _ => 5000 + 2 * MS_PER_DAY) 5000)
    as (st & Hret & Hlast & _ & _ & _ & Hearly & _).
  - left. reflexivity.
  - eexists. split; [right; left; reflexivity|]. repeat split.
  - intros c [<-|[<-|[<-|[]]]] _ Hu; cbn in *; try lia; discriminate Hu.
  - unfold MAX_TIME_VALUE. cbn. lia.
  - unfold MAX_TIME_VALUE, MS_PER_DAY. cbn. lia.
  - reflexivity.
  - exists st. split; [exact Hret|]. split; [exact Hlast|].
    apply Hearly; reflexivity.
Defined.

(** The restriction on the host is needed.  On a host in New York a
    completion on 2024-11-02 at 12:00 UTC (08:00 local time) of a goal due
    every 3 days has its deadline on 2024-11-05 at 08:00 local time, which is
    13:00 UTC, 3 days and one hour later; two days after the completion the
    status has 2 days remaining. *)
Lemma getGoalStatus_after_completion_counterexample :
  exists st,
    getGoalStatus new_york_host (fun _ => 1730548800000 + 2 * MS_PER_DAY)
      (Some 1%nat)
      (fetched_goal example_completions_november [1%nat] example_goal)
    = Return st /\
    frequency_days example_goal = 3 /\
    last_completion st = Some 1730548800000 /\
    next_deadline st = 1730548800000 + 3 * MS_PER_DAY + 3600000 /\
    is_overdue st = false /\
    days_remaining st = 2.
Proof. eexists. repeat split. Qed.

Lemma userCompletions_incl table goalIds (g : Goal) (u : uuid) (x : GoalCompletion) :
  In x (filter (fun c => is_user (gc_user_id c) (Some u))
          (completions (fetched_goal table goalIds g))) ->
  In x table /\ gc_goal_id x = goal_id g /\ gc_user_id x = u.
Proof.
  unfold fetched_goal, merge_completions, fetch_completions.
  cbn [completions is_user].
  rewrite !filter_In, order_by_completed_at_desc_In, filter_In, !Nat.eqb_eq.
  tauto.
Qed.

(** C9 (goal never completed).  On a host whose UTC offset at the local
    time of the deadline is its offset now, with the deadline within the
    range of [Date]: when the user has no completion for the goal and the
    frequency is at least one day, [getGoalStatus] returns a status that has
    its deadline [frequency_days] days after the clock reading taken for it,
    is not overdue and has [frequency_days] days remaining, whatever the
    time of the call.  ([new_Date 0] and [new_Date 1] are the two clock
    readings of the call, the second less than a day after the first.) *)
Theorem getGoalStatus_never_completed LocalTZA table goalIds (g : Goal) (u : uuid)
    (new_Date : nat -> Z) :
  (forall c, In c table -> gc_goal_id c = goal_id g -> gc_user_id c <> u) ->
  1 <= frequency_days g ->
  new_Date 0%nat <= new_Date 1%nat < new_Date 0%nat + MS_PER_DAY ->
  Z.abs (new_Date 0%nat + frequency_days g * MS_PER_DAY) <= MAX_TIME_VALUE ->
  LocalTZA (new_Date 0%nat + LocalTZA (new_Date 0%nat) true
            + frequency_days g * MS_PER_DAY) false
  = LocalTZA (new_Date 0%nat) true ->
  exists st,
    getGoalStatus LocalTZA new_Date (Some u) (fetched_goal table goalIds g)
    = Return st /\
    last_completion st = None /\
    total_completions st = 0%nat /\
    next_deadline st = new_Date 0%nat + frequency_days g * MS_PER_DAY /\
    is_overdue st = false /\
    days_remaining st = frequency_days g.
Proof.
  intros Hnone Hd Hclock Hrange Hoff.
  assert (Hnil : filter (fun c => is_user (gc_user_id c) (Some u))
                   (completions (fetched_goal table goalIds g)) = []).
  { destruct (filter _ _) as [|x rest] eqn:Hf; [reflexivity|].
    assert (Hx : In x (x :: rest)) by now left.
    rewrite <- Hf in Hx. apply userCompletions_incl in Hx.
    destruct Hx as (Hin & Hgoal & Hu). now destruct (Hnone x Hin Hgoal). }
  unfold getGoalStatus. rewrite Hnil. cbn [hd_error].
  change (goal (fetched_goal table goalIds g)) with g.
  rewrite (setDate_plus_same_offset LocalTZA _ (frequency_days g) Hrange Hoff).
  eexists. split; [reflexivity|].
  cbn [last_completion total_completions next_deadline is_overdue
       days_remaining option_map List.length].
  repeat split.
  - apply Z.ltb_ge. unfold MS_PER_DAY in *. lia.
  - apply Math_ceil_div_spec; unfold MS_PER_DAY in *; lia.
Qed.

Lemma getGoalStatus_never_completed_witness :
  exists st,
    getGoalStatus utc_host (fun _ => 123456789) (Some 3%nat)
      (fetched_goal example_completions [1%nat] example_goal) = Return st /\
    last_completion st = None /\
    total_completions st = 0%nat /\
    next_deadline st = 123456789 + 3 * MS_PER_DAY /\
    is_overdue st = false /\
    days_remaining st = 3.
Proof.
  apply (getGoalStatus_never_completed utc_host example_completions [1%nat]
           example_goal 3%nat (fun _ => 123456789)).
  - intros c [<-|[<-|[<-|[]]]] _; discriminate.
  - cbn. lia.
  - unfold MS_PER_DAY. lia.
  - unfold MAX_TIME_VALUE, MS_PER_DAY. cbn. lia.
  - reflexivity.
Defined.

(** Both restrictions are needed.  On a host in New York, on 2024-11-02 at
    12:00 UTC, a goal due every 3 days that user 3 never completed has its
    deadline 3 days and one hour later, and 4 days remaining; and on any
    host a goal due every 100000000 days has a deadline that is no date, and
    the call throws. *)
Lemma getGoalStatus_never_completed_counterexample :
  (exists st,
     getGoalStatus new_york_host (fun _ => 1730548800000) (Some 3%nat)
       (fetched_goal example_completions_november [1%nat] example_goal)
     = Return st /\
     frequency_days example_goal = 3 /\
     last_completion st = None /\
     next_deadline st = 1730548800000 + 3 * MS_PER_DAY + 3600000 /\
     is_overdue st = false /\
     days_remaining st = 4) /\
  getGoalStatus utc_host (fun _ => 1730548800000) (Some 3%nat)
    (fetched_goal example_completions_november [1%nat]
       {| goal_id := 1%nat; goal_group_id := 1%nat;
          frequency_days := 100000000; is_active := true |})
  = Raise "Invalid time value".
Proof. split; [eexists; repeat split|reflexivity]. Qed.

(** ** The database function anchors a first deadline at [joined_at] *)

(** Unlike [getGoalStatus], [check_goal_status] measures the first deadline
    from the day the member joined: member 3 of the example group joined at
    instant 0 and never completed goal 1 (every 3 days); ten days later the
    function reports the goal overdue by seven days. *)
Lemma check_goal_status_never_completed :
  check_goal_status (10 * USEC_PER_DAY) [example_goal]
    (group_members example_group) example_completions 1%nat 3%nat
  = Return (Some {| cgs_last_completion := None;
                    cgs_next_deadline := Some (3 * USEC_PER_DAY);
                    cgs_is_overdue := Some true;
                    cgs_days_remaining := Some (-7);
                    cgs_total_completions := 0 |}).
Proof. reflexivity. Qed.

(** * Further properties of the ledger *)

(** ** What [settle_debt] does and does not touch *)

(** X1.  [settle_debt] returns on every input; it reports a failure exactly when
    the transaction exists and is paid, and then it changes nothing. *)
Theorem settle_debt_never_raises now id s :
  exists j s',
    settle_debt now id s = Return (j, s') /\
    (sd_success j = false <->
     exists t, select_transaction s id = Some t /\ status t = paid) /\
    (sd_success j = false -> s' = s).
Proof.
  destruct (select_transaction s id) as [t|] eqn:Ht.
  - destruct (status t) eqn:Hs.
    + do 2 eexists. split; [exact (settle_debt_pending now id s t Ht Hs)|].
      cbn [sd_success]. split; [|discriminate].
      split; [discriminate|]. intros [t' [[= <-] Hp]]. congruence.
    + do 2 eexists. split; [exact (settle_debt_paid now id s t Ht Hs)|].
      cbn [sd_success]. split; [|reflexivity].
      split; [|reflexivity]. intros _. now exists t.
  - do 2 eexists. split; [exact (settle_debt_missing now id s Ht)|].
    cbn [sd_success]. split; [|discriminate].
    split; [discriminate|]. intros [t [Hsome _]]. discriminate.
Qed.

Lemma debt_settled_other_columns (t : transactions_row) (m : group_members_row) :
  (gm_group_id (debt_settled t m), gm_user_id (debt_settled t m),
   failure_count (debt_settled t m), joined_at (debt_settled t m))
  = (gm_group_id m, gm_user_id m, failure_count m, joined_at m).
Proof.
  unfold debt_settled.
  destruct (Nat.eqb (gm_group_id m) (tx_group_id t)
            && Nat.eqb (gm_user_id m) (from_user_id t)); cbn;
  match goal with |- context [if ?c then _ else _] => destruct c end; reflexivity.
Qed.

(** X2.  Whatever [settle_debt] returns, it leaves the groups, the memberships
    with their failure counts, and every column of every transaction other
    than [status] and [settled_at] as they were; transactions with another
    id are untouched, and so is every balance except those of the two
    parties in the group of the transaction. *)
Theorem settle_debt_frame now id s j s' :
  settle_debt now id s = Return (j, s') ->
  groups s' = groups s /\
  map (fun m => (gm_group_id m, gm_user_id m, failure_count m, joined_at m))
      (group_members s')
  = map (fun m => (gm_group_id m, gm_user_id m, failure_count m, joined_at m))
        (group_members s) /\
  map tx_core (transactions s') = map tx_core (transactions s) /\
  (forall t, In t (transactions s) -> tx_id t <> id -> In t (transactions s')) /\
  (forall g r,
     (forall t, select_transaction s id = Some t ->
                ~ (g = tx_group_id t /\
                   (r = from_user_id t \/ r = to_user_id t))) ->
     balance_of s' g r = balance_of s g r).
Proof.
  intros H.
  assert (Hsame : s' = s -> groups s' = groups s /\
    map (fun m => (gm_group_id m, gm_user_id m, failure_count m, joined_at m))
        (group_members s')
    = map (fun m => (gm_group_id m, gm_user_id m, failure_count m, joined_at m))
          (group_members s) /\
    map tx_core (transactions s') = map tx_core (transactions s) /\
    (forall t, In t (transactions s) -> tx_id t <> id -> In t (transactions s')) /\
    (forall g r,
       (forall t, select_transaction s id = Some t ->
                  ~ (g = tx_group_id t /\
                     (r = from_user_id t \/ r = to_user_id t))) ->
       balance_of s' g r = balance_of s g r)).
  { intros ->. repeat split; auto. }
  destruct (select_transaction s id) as [t|] eqn:Ht.
  - destruct (status t) eqn:Hs.
    + rewrite (settle_debt_pending now id s t Ht Hs) in H. injection H as <- <-.
      destruct (select_transaction_id _ _ _ Ht) as [Hid _].
      split; [reflexivity|]. split; [|split; [|split]].
      * unfold debt_settled_db. cbn [group_members]. rewrite map_map.
        apply map_ext. intros m. apply debt_settled_other_columns.
      * unfold debt_settled_db. cbn [transactions]. rewrite map_map.
        apply map_ext. intros x. now destruct (Nat.eqb (tx_id x) (tx_id t)).
      * intros x Hin Hne. unfold debt_settled_db. cbn [transactions].
        apply in_map_iff. exists x. split; [|assumption].
        destruct (Nat.eqb_spec (tx_id x) (tx_id t)) as [Hx|Hx]; [|reflexivity].
        congruence.
      * intros g r Hother. rewrite balance_of_debt_settled_db.
        destruct (balance_of s g r) as [b|]; [|reflexivity]. cbn [option_map].
        specialize (Hother t eq_refl).
        destruct (Nat.eqb_spec g (tx_group_id t)) as [Hg|Hg]; cbn [andb];
          [|f_equal; lia].
        destruct (Nat.eqb_spec r (from_user_id t)) as [Hf|Hf]; [tauto|].
        destruct (Nat.eqb_spec r (to_user_id t)) as [Hto|Hto]; [tauto|].
        f_equal. lia.
    + rewrite (settle_debt_paid now id s t Ht Hs) in H. injection H as <- <-.
      now apply Hsame.
  - rewrite (settle_debt_missing now id s Ht) in H. injection H as <- <-.
    now apply Hsame.
Qed.

Lemma settle_debt_frame_witness :
  groups example_settled = groups example_pending /\
  map (fun m => (gm_group_id m, gm_user_id m, failure_count m, joined_at m))
      (group_members example_settled)
  = map (fun m => (gm_group_id m, gm_user_id m, failure_count m, joined_at m))
        (group_members example_pending) /\
  map tx_core (transactions example_settled)
  = map tx_core (transactions example_pending) /\
  (forall t, In t (transactions example_pending) -> tx_id t <> 1%nat ->
             In t (transactions example_settled)) /\
  (forall g r,
     (forall t, select_transaction example_pending 1%nat = Some t ->
                ~ (g = tx_group_id t /\
                   (r = from_user_id t \/ r = to_user_id t))) ->
     balance_of example_settled g r = balance_of example_pending g r).
Proof.
  apply (settle_debt_frame 5 1%nat example_pending
           {| sd_success := true; sd_error := None |} example_settled).
  reflexivity.
Defined.

(** ** When [log_failure] returns, and what it leaves alone *)

Lemma in_ids (u : uuid) (ids : list uuid) :
  existsb (Nat.eqb u) ids = true <-> In u ids.
Proof.
  rewrite existsb_exists. split.
  - intros [x [Hin Hx]]. apply Nat.eqb_eq in Hx. now subst x.
  - intros Hin. exists u. split; [assumption|apply Nat.eqb_refl].
Qed.

Lemma log_failure_loop_bounds cent now ids g u P d url members :
  P mod Z.pos cent = 0 ->
  forall txs c tot r,
  tot mod Z.pos cent = 0 ->
  c <= INT4_MAX -> Z.abs tot < DECIMAL_10_2_LIMIT cent ->
  log_failure_loop cent now ids g u P d url members txs c tot = Return r ->
  c + Z.of_nat (List.length members) <= INT4_MAX /\
  Z.abs (tot + Z.of_nat (List.length members) * P) < DECIMAL_10_2_LIMIT cent /\
  (members <> [] -> In u ids).
Proof.
  intros HP. induction members as [|m rest IH]; intros txs c tot r Htot Hc Ht H.
  - cbn [List.length Z.of_nat]. rewrite !Z.add_0_r. now repeat split.
  - cbn [log_failure_loop] in H.
    destruct (references_profiles _ _ ids u) as [[]|] eqn:Hfk; [|discriminate].
    apply references_profiles_Return, in_ids in Hfk. cbn [bind] in H.
    destruct (int4 (c + 1)) as [c'|] eqn:Hc'; [|discriminate].
    apply int4_Return in Hc'. destruct Hc' as [-> [_ Hc1]]. cbn [bind] in H.
    destruct (to_decimal_10_2 cent (tot + P)) as [t'|] eqn:Ht'; [|discriminate].
    apply to_decimal_10_2_Return in Ht'. destruct Ht' as [-> Hfit].
    cbn [bind] in H.
    assert (Hsum : (tot + P) mod Z.pos cent = 0).
    { rewrite Z.add_mod, Htot, HP by lia. reflexivity. }
    rewrite (round_to_cent_whole _ _ Hsum) in H, Hfit.
    apply is_decimal_10_2_spec in Hfit. destruct Hfit as [_ Hfit].
    apply IH in H; try assumption.
    cbn [List.length]. rewrite Nat2Z.inj_succ.
    replace (c + Z.succ (Z.of_nat (List.length rest)))
      with (c + 1 + Z.of_nat (List.length rest)) by lia.
    replace (tot + Z.succ (Z.of_nat (List.length rest)) * P)
      with (tot + P + Z.of_nat (List.length rest) * P) by lia.
    destruct H as (Hn & Hfit' & _). now repeat split.
Qed.

Lemma log_failure_returns_spec cent now auth_uid g d url s :
  (exists r, log_failure cent now auth_uid g d url s = Return r) <->
  (exists u p P,
     auth_uid = Some u /\
     select_default_penalty_amount s g = Some p /\
     to_decimal_10_2 cent p = Return P /\
     Z.of_nat (List.length (select_other_members s g (Some u))) <= INT4_MAX /\
     Z.abs (Z.of_nat (List.length (select_other_members s g (Some u))) * P)
       < DECIMAL_10_2_LIMIT cent /\
     (forall m, In m (group_members s) ->
                gm_group_id m = g -> gm_user_id m = u ->
                failure_count m + 1 <= INT4_MAX /\ INT4_MIN <= failure_count m + 1) /\
     (select_other_members s g (Some u) <> [] -> In u (profile_ids s))).
Proof.
  split.
  - intros [r H]. destruct auth_uid as [u|]; [|discriminate].
    exists u. unfold log_failure in H.
    destruct (select_default_penalty_amount s g) as [p|]; [|discriminate].
    destruct (to_decimal_10_2 cent p) as [P|] eqn:HP; [|discriminate].
    exists p, P. cbn [bind] in H.
    split; [reflexivity|]. split; [reflexivity|]. split; [exact HP|].
    apply to_decimal_10_2_Return in HP. destruct HP as [_ HP].
    apply is_decimal_10_2_spec in HP. destruct HP as [HP _].
    destruct (log_failure_loop cent now (profile_ids s) g u P d url
                (select_other_members s g (Some u)) (transactions s) 0 0)
      as [[[txs c] tot]|] eqn:Hloop; [|discriminate].
    apply log_failure_loop_bounds in Hloop;
      [|assumption|reflexivity|unfold INT4_MAX; lia|reflexivity].
    destruct Hloop as (Hn & Htot & Hfk). split; [exact Hn|]. split; [exact Htot|].
    split; [|exact Hfk].
    cbn [bind] in H. fold bump_failure_count in H.
    destruct (sql_update _ bump_failure_count (group_members s)) as [gm1|] eqn:H1;
      [|discriminate].
    apply (sql_update_Return _ _ (fun m => with_failure_count m (failure_count m + 1)))
      in H1; [|exact bump_failure_count_Return].
    destruct H1 as [_ Hall]. intros m Hin Hg Hu.
    assert (Hw : Nat.eqb (gm_group_id m) g && Nat.eqb (gm_user_id m) u = true)
      by (rewrite Hg, Hu, !Nat.eqb_refl; reflexivity).
    specialize (Hall m Hin Hw). unfold bump_failure_count in Hall.
    destruct (int4 (failure_count m + 1)) as [c'|] eqn:Hc; [|discriminate].
    apply int4_Return in Hc. lia.
  - intros (u & p & P & -> & Hp & HP & Hn & Htot & Hfc & Hfk).
    eexists. apply (log_failure_ok cent now u g d url s p P Hp HP Hn Htot Hfc).
    destruct (select_other_members s g (Some u)) as [|r rest]; [now left|].
    right. apply in_ids. now apply Hfk.
Qed.

(** X3.  [log_failure] returns exactly when the caller is authenticated, the
    group exists, its penalty rounded to two decimals and the total debt fit
    [DECIMAL(10,2)], neither counter leaves [integer], and the caller has a
    row in [profiles] or the group has no other member; in every other case
    it raises. *)
Theorem log_failure_returns_iff cent now auth_uid g d url s :
  (exists r, log_failure cent now auth_uid g d url s = Return r) <->
  (exists u p P,
     auth_uid = Some u /\
     select_default_penalty_amount s g = Some p /\
     to_decimal_10_2 cent p = Return P /\
     Z.of_nat (List.length (select_other_members s g (Some u))) <= INT4_MAX /\
     Z.abs (Z.of_nat (List.length (select_other_members s g (Some u))) * P)
       < DECIMAL_10_2_LIMIT cent /\
     (forall m, In m (group_members s) ->
                gm_group_id m = g -> gm_user_id m = u ->
                failure_count m + 1 <= INT4_MAX /\ INT4_MIN <= failure_count m + 1) /\
     (select_other_members s g (Some u) <> [] -> In u (profile_ids s))).
Proof. apply log_failure_returns_spec. Qed.

Lemma failure_applied_other_group (g u : uuid) (P total : numeric)
    (m : group_members_row) :
  gm_group_id m <> g -> failure_applied g u P total m = m.
Proof.
  intros Hg. unfold failure_applied.
  apply Nat.eqb_neq in Hg. now rewrite Hg.
Qed.

(** X4.  Whatever [log_failure] returns, the call was authenticated and it left
    alone the groups, the existing transactions (the new ones come after
    them), every membership of another group, who is a member of what, and
    the failure count of everybody but the caller. *)
Theorem log_failure_frame cent now auth_uid g d url s j s' :
  log_failure cent now auth_uid g d url s = Return (j, s') ->
  exists u new,
    auth_uid = Some u /\
    groups s' = groups s /\
    transactions s' = transactions s ++ new /\
    filter (fun m => negb (Nat.eqb (gm_group_id m) g)) (group_members s')
    = filter (fun m => negb (Nat.eqb (gm_group_id m) g)) (group_members s) /\
    map (fun m => (gm_group_id m, gm_user_id m, joined_at m)) (group_members s')
    = map (fun m => (gm_group_id m, gm_user_id m, joined_at m)) (group_members s) /\
    (forall g' r, (g', r) <> (g, u) -> failures_of s' g' r = failures_of s g' r).
Proof.
  intros H. destruct auth_uid as [u|]; [|discriminate].
  apply log_failure_Return in H. destruct H as (p & P & _ & _ & _ & ->).
  exists u. eexists. split; [reflexivity|]. split; [reflexivity|].
  split; [reflexivity|]. split; [|split].
  - unfold failure_logged. cbn [group_members].
    induction (group_members s) as [|m rest IH]; cbn [map filter]; [reflexivity|].
    rewrite failure_applied_group.
    destruct (Nat.eqb_spec (gm_group_id m) g) as [Hg|Hg]; cbn [negb];
      [exact IH|].
    now rewrite IH, failure_applied_other_group.
  - unfold failure_logged. cbn [group_members]. rewrite map_map.
    apply map_ext. intros m. unfold failure_applied.
    destruct (Nat.eqb (gm_group_id m) g); [|reflexivity].
    destruct (Nat.eqb (gm_user_id m) u); reflexivity.
  - intros g' r Hne. rewrite failures_of_failure_logged.
    destruct (failures_of s g' r) as [c|]; [|reflexivity]. cbn [option_map].
    destruct (Nat.eqb_spec g' g) as [Hg|Hg]; cbn [andb]; [|reflexivity].
    destruct (Nat.eqb_spec r u) as [Hu|Hu]; [|reflexivity].
    exfalso. apply Hne. congruence.
Qed.

Lemma log_failure_frame_witness :
  exists u new,
    Some 1%nat = Some u /\
    groups example_pending = groups example_group /\
    transactions example_pending = transactions example_group ++ new /\
    filter (fun m => negb (Nat.eqb (gm_group_id m) 1%nat)) (group_members example_pending)
    = filter (fun m => negb (Nat.eqb (gm_group_id m) 1%nat)) (group_members example_group) /\
    map (fun m => (gm_group_id m, gm_user_id m, joined_at m)) (group_members example_pending)
    = map (fun m => (gm_group_id m, gm_user_id m, joined_at m)) (group_members example_group) /\
    (forall g' r, (g', r) <> (1%nat, u) ->
       failures_of example_pending g' r = failures_of example_group g' r).
Proof.
  apply (log_failure_frame 1 0 (Some 1%nat) 1%nat None None example_group
           {| lf_success := true; transactions_created := 2; total_debt := Some 400 |}
           example_pending).
  reflexivity.
Defined.

(** ** Joining a group *)

Lemma already_member_is_member (s : db) (g u : uuid) :
  existsb (fun m => Nat.eqb (gm_group_id m) g && sql_eq (gm_user_id m) (Some u))
          (group_members s)
  = is_member s g u.
Proof.
  unfold is_member, member_row. cbn [sql_eq].
  induction (group_members s) as [|m rest IH]; cbn [existsb find]; [reflexivity|].
  now destruct (Nat.eqb (gm_group_id m) g && Nat.eqb (gm_user_id m) u).
Qed.

Lemma join_group_by_code_Return now codes auth code s j s' :
  join_group_by_code now codes auth code s = Return (j, s') ->
  (jg_success j = false /\ s' = s) \/
  (exists g u,
     select_group_by_invite_code codes code = Some g /\ auth = Some u /\
     is_member s g u = false /\
     j = {| jg_success := true; jg_group_id := Some g; jg_error := None |} /\
     s' = joined now g u s).
Proof.
  unfold join_group_by_code.
  destruct (select_group_by_invite_code codes code) as [g|].
  - destruct auth as [u|].
    + rewrite already_member_is_member.
      destruct (is_member s g u) eqn:Hmem.
      * intros H. injection H as <- <-. now left.
      * cbn [not_null bind].
        destruct (references_profiles _ _ (profile_ids s) u) as [[]|];
          [|discriminate].
        cbn [bind]. intros H. injection H as <- <-. right.
        exists g, u. now repeat split.
    + destruct (existsb _ _).
      * intros H. injection H as <- <-. now left.
      * cbn [not_null bind]. discriminate.
  - intros H. injection H as <- <-. now left.
Qed.

Lemma member_row_joined now g u s g' r :
  member_row (joined now g u s) g' r
  = match member_row s g' r with
    | Some m => Some m
    | None => if Nat.eqb g g' && Nat.eqb u r
              then Some (new_membership now g u) else None
    end.
Proof.
  unfold member_row, joined. cbn [group_members].
  induction (group_members s) as [|m rest IH]; cbn [app find].
  - cbn [new_membership gm_group_id gm_user_id].
    now destruct (Nat.eqb g g' && Nat.eqb u r).
  - now destruct (Nat.eqb (gm_group_id m) g' && Nat.eqb (gm_user_id m) r).
Qed.

Lemma is_member_joined now g u s g' r :
  is_member s g' r = true -> is_member (joined now g u s) g' r = true.
Proof.
  unfold is_member. rewrite member_row_joined.
  now destruct (member_row s g' r).
Qed.

Lemma group_balance_sum_joined now g u s g' :
  group_balance_sum (joined now g u s) g' = group_balance_sum s g'.
Proof.
  unfold group_balance_sum, sum_balances, joined. cbn [group_members].
  rewrite filter_app, map_app. cbn [filter new_membership gm_group_id].
  assert (Hzero : forall l, fold_right Z.add 0 (l ++ [0]) = fold_right Z.add 0 l).
  { intros l. induction l as [|x l IH]; cbn [app fold_right]; lia. }
  destruct (Nat.eqb g g'); cbn [map current_balance];
    [apply Hzero|now rewrite app_nil_r].
Qed.

Lemma joined_consistent now g u s :
  consistent s = true -> is_member s g u = false ->
  consistent (joined now g u s) = true.
Proof.
  intros Hc Hnew. apply consistent_spec in Hc. destruct Hc as (Hkeys & Hids & Hp).
  apply consistent_spec. split; [|split].
  - unfold joined. cbn [group_members]. rewrite map_app. cbn [map].
    apply NoDup_snoc; [assumption|].
    intros Hin. apply is_member_In in Hin.
    unfold membership_key, new_membership in Hin. cbn in Hin. congruence.
  - assumption.
  - intros t Hin. destruct (Hp t Hin) as [Hfrom Hto].
    split; now apply is_member_joined.
Qed.

(** X5.  A call of [join_group_by_code] that reports success was made by an
    authenticated user [u] who was not a member of the group [g] with that
    invite code; it adds the membership of [u] in [g] with balance 0 and no
    failure, and changes no other membership, no group, no transaction and no
    group's sum of balances; a consistent ledger stays consistent. *)
Theorem join_group_by_code_joins now codes auth code s j s' :
  join_group_by_code now codes auth code s = Return (j, s') ->
  jg_success j = true ->
  exists g u,
    select_group_by_invite_code codes code = Some g /\ auth = Some u /\
    jg_group_id j = Some g /\
    is_member s g u = false /\
    member_row s' g u = Some (new_membership now g u) /\
    balance_of s' g u = Some 0 /\ failures_of s' g u = Some 0 /\
    (forall g' r, (g', r) <> (g, u) -> member_row s' g' r = member_row s g' r) /\
    groups s' = groups s /\ transactions s' = transactions s /\
    (forall g', group_balance_sum s' g' = group_balance_sum s g') /\
    (consistent s = true -> consistent s' = true).
Proof.
  intros H Hok. apply join_group_by_code_Return in H.
  destruct H as [[Hfail _]|(g & u & Hg & -> & Hnew & -> & ->)]; [congruence|].
  exists g, u.
  assert (Hrow : member_row (joined now g u s) g u = Some (new_membership now g u)).
  { rewrite member_row_joined. unfold is_member in Hnew.
    destruct (member_row s g u); [discriminate|]. now rewrite !Nat.eqb_refl. }
  split; [assumption|]. split; [reflexivity|]. split; [reflexivity|].
  split; [assumption|]. split; [assumption|].
  split; [unfold balance_of; now rewrite Hrow|].
  split; [unfold failures_of; now rewrite Hrow|].
  split; [|split; [reflexivity|split; [reflexivity|split]]].
  - intros g' r Hne. rewrite member_row_joined.
    destruct (member_row s g' r); [reflexivity|].
    destruct (Nat.eqb_spec g g') as [Hg'|Hg']; [|reflexivity].
    destruct (Nat.eqb_spec u r) as [Hr|Hr]; [|reflexivity].
    exfalso. apply Hne. congruence.
  - intros g'. apply group_balance_sum_joined.
  - intros Hc. now apply joined_consistent.
Qed.

Lemma join_group_by_code_joins_witness :
  exists g u,
    select_group_by_invite_code example_invite_codes "ABC123" = Some g /\
    Some 4%nat = Some u /\
    jg_group_id {| jg_success := true; jg_group_id := Some 1%nat; jg_error := None |}
    = Some g /\
    is_member example_group g u = false /\
    member_row example_joined g u = Some (new_membership 7 g u) /\
    balance_of example_joined g u = Some 0 /\
    failures_of example_joined g u = Some 0 /\
    (forall g' r, (g', r) <> (g, u) ->
       member_row example_joined g' r = member_row example_group g' r) /\
    groups example_joined = groups example_group /\
    transactions example_joined = transactions example_group /\
    (forall g', group_balance_sum example_joined g' = group_balance_sum example_group g') /\
    (consistent example_group = true -> consistent example_joined = true).
Proof.
  apply (join_group_by_code_joins 7 example_invite_codes (Some 4%nat) "ABC123"
           example_group); reflexivity.
Defined.

Lemma join_group_by_code_step now codes auth code s :
  consistent s = true ->
  consistent (db_after s (join_group_by_code now codes auth code s)) = true /\
  (forall g, group_balance_sum (db_after s (join_group_by_code now codes auth code s)) g
             = group_balance_sum s g) /\
  (forall g u, is_member s g u = true ->
     member_row (db_after s (join_group_by_code now codes auth code s)) g u
     = member_row s g u).
Proof.
  intros Hc.
  destruct (join_group_by_code now codes auth code s) as [[j s1]|msg] eqn:H;
    cbn [db_after]; [|now repeat split].
  apply join_group_by_code_Return in H.
  destruct H as [[_ ->]|(g & u & _ & _ & Hnew & _ & ->)]; [now repeat split|].
  split; [now apply joined_consistent|]. split.
  - intros g'. apply group_balance_sum_joined.
  - intros g' r Hmem. rewrite member_row_joined. unfold is_member in Hmem.
    now destruct (member_row s g' r).
Qed.

Lemma reachable_joining_conserves cent codes s0 s :
  consistent s0 = true ->
  reachable_joining cent codes s0 s ->
  consistent s = true /\
  forall g, group_balance_sum s g = group_balance_sum s0 g.
Proof.
  intros Hc0 Hr.
  induction Hr as [|s now g u d url Hr [Hc Hsum] Hmem
                   |s now id Hr [Hc Hsum]
                   |s now auth code Hr [Hc Hsum]].
  - now split.
  - destruct (log_failure_step cent now g u d url s Hc Hmem) as [Hc' Hsum'].
    split; [assumption|]. intros g'. now rewrite Hsum', Hsum.
  - destruct (settle_debt_step now id s Hc) as [Hc' Hsum'].
    split; [assumption|]. intros g'. now rewrite Hsum', Hsum.
  - destruct (join_group_by_code_step now codes auth code s Hc) as (Hc' & Hsum' & _).
    split; [assumption|]. intros g'. now rewrite Hsum', Hsum.
Qed.

(** X7.  The ledger stays closed when users may also join: from a consistent
    state in which the balances of group [g] sum to 0, whatever sequence of
    [log_failure] calls by current members, [settle_debt] calls and
    [join_group_by_code] calls is made, the state stays consistent and the
    balances of [g] sum to 0. *)
Theorem ledger_with_joins_conserves cent codes s0 s g :
  consistent s0 = true ->
  group_balance_sum s0 g = 0 ->
  reachable_joining cent codes s0 s ->
  consistent s = true /\ group_balance_sum s g = 0.
Proof.
  intros Hc0 Hzero Hr.
  destruct (reachable_joining_conserves cent codes s0 s Hc0 Hr) as [Hc Hsum].
  split; [assumption|]. now rewrite Hsum.
Qed.

Lemma ledger_with_joins_conserves_witness :
  consistent example_joined_failed = true /\
  group_balance_sum example_joined_failed 1%nat = 0.
Proof.
  apply (ledger_with_joins_conserves 1 example_invite_codes example_group).
  - reflexivity.
  - reflexivity.
  - apply rj_log_failure; [apply rj_join; apply rj_init | reflexivity].
Defined.

(** ** The hook [joinGroup] *)

Lemma no_member_is_null (s : db) (g : uuid) :
  existsb (fun m => Nat.eqb (gm_group_id m) g && sql_eq (gm_user_id m) None)
          (group_members s) = false.
Proof.
  cbn [sql_eq]. induction (group_members s) as [|m rest IH]; cbn [existsb];
    [reflexivity|]. now rewrite andb_false_r.
Qed.

(** X8.  [joinGroup] resolves exactly when the signed-in user has a row in
    [profiles] and was not yet a member of the group with that invite code,
    and then the membership has been added; otherwise it throws ("Invalid
    invite code", "Already a member", the not-null violation of a call
    without a session, or the foreign-key violation of a user without a
    profile) and the database is as it was. *)
Theorem joinGroup_outcome now codes auth_uid code s :
  joinGroup now codes auth_uid code s
  = match select_group_by_invite_code codes code with
    | None => (Raise "Invalid invite code"%string, s)
    | Some g =>
        match auth_uid with
        | None =>
            (Raise "null value in column user_id violates not-null constraint"%string,
             s)
        | Some u =>
            if is_member s g u
            then (Raise "Already a member"%string, s)
            else if existsb (Nat.eqb u) (profile_ids s)
            then (Return {| jg_success := true; jg_group_id := Some g;
                            jg_error := None |},
                  joined now g u s)
            else (Raise ("insert or update on table group_members violates "
                         ++ "foreign key constraint group_members_user_id_fkey")%string,
                  s)
        end
    end.
Proof.
  unfold joinGroup, join_group_by_code.
  destruct (select_group_by_invite_code codes code) as [g|]; [|reflexivity].
  destruct auth_uid as [u|].
  - rewrite already_member_is_member.
    destruct (is_member s g u); [reflexivity|].
    cbn [not_null bind]. unfold references_profiles.
    now destruct (existsb (Nat.eqb u) (profile_ids s)).
  - now rewrite no_member_is_null.
Qed.

(** ** Balances and pending transactions *)

Lemma owed_app (a b : list transactions_row) (g r : uuid) :
  owed (a ++ b) g r = owed a g r + owed b g r.
Proof.
  unfold owed. rewrite map_app.
  induction (map _ a) as [|x rest IH]; cbn [app fold_right]; lia.
Qed.

Lemma inserted_rows_pending now g u P d url members :
  forall txs,
  filter (fun t => status_eqb (status t) pending)
         (inserted_rows now g u P d url members txs)
  = inserted_rows now g u P d url members txs.
Proof.
  induction members as [|m rest IH]; intros txs; cbn [inserted_rows filter];
    [reflexivity|].
  cbn [status status_eqb]. now rewrite IH.
Qed.

Lemma pending_transactions_failure_logged now g u P d url s :
  pending_transactions (failure_logged now g u P d url s)
  = pending_transactions s
    ++ inserted_rows now g u P (Some (coalesce_description d)) url
         (select_other_members s g (Some u)) (transactions s).
Proof.
  unfold pending_transactions, failure_logged. cbn [transactions].
  now rewrite filter_app, inserted_rows_pending.
Qed.

Lemma owed_pending_settled now (t : transactions_row) (g r : uuid)
    (txs : list transactions_row) :
  NoDup (map tx_id txs) -> In t txs -> status t = pending ->
  owed (filter (fun x => status_eqb (status x) pending)
          (map (fun x => if Nat.eqb (tx_id x) (tx_id t) then mark_paid now x else x)
               txs)) g r
  = owed (filter (fun x => status_eqb (status x) pending) txs) g r - owed [t] g r.
Proof.
  intros Hnd Hin Hst.
  induction txs as [|x rest IH]; [destruct Hin|].
  cbn [map] in Hnd. inversion Hnd as [|? ? Hfresh Hrest]; subst.
  cbn [map filter].
  destruct (Nat.eqb_spec (tx_id x) (tx_id t)) as [Hid|Hid].
  - assert (Hx : x = t).
    { destruct Hin as [Hx|Hin]; [assumption|].
      exfalso. apply Hfresh. rewrite Hid. now apply in_map. }
    subst x. cbn [status mark_paid status_eqb]. rewrite Hst. cbn [status_eqb].
    rewrite map_unselected.
    + change (t :: filter (fun x => status_eqb (status x) pending) rest)
        with ([t] ++ filter (fun x => status_eqb (status x) pending) rest).
      rewrite owed_app. lia.
    + intros y Hy. apply Nat.eqb_neq. intros Hyt. apply Hfresh.
      rewrite <- Hyt. now apply in_map.
  - destruct Hin as [Hx|Hin]; [congruence|].
    specialize (IH Hrest Hin).
    destruct (status_eqb (status x) pending); [|exact IH].
    change (x :: ?l) with ([x] ++ l).
    rewrite !(owed_app [x]), IH. lia.
Qed.

Lemma balances_match_pending_fresh (s : db) :
  transactions s = [] ->
  (forall m, In m (group_members s) -> current_balance m = 0) ->
  balances_match_pending s.
Proof.
  intros Htx Hzero g r b Hb. unfold pending_transactions. rewrite Htx. cbn.
  unfold balance_of in Hb. destruct (member_row s g r) as [m|] eqn:Hm;
    [|discriminate].
  injection Hb as <-. apply member_row_key in Hm. now apply Hzero.
Qed.

Lemma unique_memberships_of_consistent (s : db) :
  consistent s = true -> unique_memberships s = true.
Proof.
  unfold consistent. intros Hc. apply andb_true_iff in Hc. destruct Hc as [Hc _].
  apply andb_true_iff in Hc. tauto.
Qed.

Lemma balances_match_pending_step_log_failure cent now g u d url s :
  consistent s = true ->
  balances_match_pending s ->
  balances_match_pending (db_after s (log_failure cent now (Some u) g d url s)).
Proof.
  intros Hc Hinv.
  destruct (log_failure cent now (Some u) g d url s) as [[j s1]|msg] eqn:H;
    cbn [db_after]; [|assumption].
  apply log_failure_Return in H. destruct H as (p & P & _ & _ & _ & ->).
  intros g' r b Hb.
  rewrite balance_of_failure_logged_owed in Hb
    by now apply unique_memberships_of_consistent.
  destruct (balance_of s g' r) as [b0|] eqn:Hb0; [|discriminate].
  injection Hb as <-. rewrite pending_transactions_failure_logged, owed_app.
  now rewrite (Hinv g' r b0 Hb0).
Qed.

Lemma balances_match_pending_step_settle_debt now id s :
  consistent s = true ->
  balances_match_pending s ->
  balances_match_pending (db_after s (settle_debt now id s)).
Proof.
  intros Hc Hinv. destruct (select_transaction s id) as [t|] eqn:Ht.
  - destruct (status t) eqn:Hs.
    + rewrite (settle_debt_pending _ _ _ _ Ht Hs). cbn [db_after].
      destruct (select_transaction_id _ _ _ Ht) as [_ Hin].
      apply consistent_spec in Hc. destruct Hc as (_ & Hid & _).
      intros g r b Hb. rewrite balance_of_debt_settled_db in Hb.
      destruct (balance_of s g r) as [b0|] eqn:Hb0; [|discriminate].
      injection Hb as <-.
      unfold pending_transactions, debt_settled_db. cbn [transactions].
      rewrite (owed_pending_settled now t g r _ Hid Hin Hs).
      fold (pending_transactions s). rewrite (Hinv g r b0 Hb0).
      unfold owed at 3. cbn [map fold_right]. lia.
    + now rewrite (settle_debt_paid _ _ _ _ Ht Hs).
  - now rewrite (settle_debt_missing _ _ _ Ht).
Qed.

Lemma owed_non_member (s : db) (g u : uuid) :
  consistent s = true -> is_member s g u = false ->
  owed (pending_transactions s) g u = 0.
Proof.
  intros Hc Hnew. apply consistent_spec in Hc. destruct Hc as (_ & _ & Hp).
  unfold owed, pending_transactions.
  induction (transactions s) as [|t rest IH]; cbn [filter]; [reflexivity|].
  assert (Hrest : fold_right Z.add 0
            (map (fun t =>
                    (if Nat.eqb g (tx_group_id t) && Nat.eqb u (to_user_id t)
                     then amount t else 0)
                    - (if Nat.eqb g (tx_group_id t) && Nat.eqb u (from_user_id t)
                       then amount t else 0))
                 (filter (fun t => status_eqb (status t) pending) rest)) = 0)
    by (apply IH; intros x Hx; apply Hp; now right).
  destruct (status_eqb (status t) pending); [|exact Hrest].
  cbn [map fold_right]. rewrite Hrest.
  destruct (Hp t (or_introl eq_refl)) as [Hfrom Hto].
  destruct (Nat.eqb_spec g (tx_group_id t)) as [->|Hg]; cbn [andb]; [|lia].
  destruct (Nat.eqb_spec u (to_user_id t)) as [->|Hto']; [congruence|].
  destruct (Nat.eqb_spec u (from_user_id t)) as [->|Hfrom']; [congruence|].
  lia.
Qed.

Lemma balances_match_pending_step_join now codes auth code s :
  consistent s = true ->
  balances_match_pending s ->
  balances_match_pending (db_after s (join_group_by_code now codes auth code s)).
Proof.
  intros Hc Hinv.
  destruct (join_group_by_code now codes auth code s) as [[j s1]|msg] eqn:H;
    cbn [db_after]; [|assumption].
  apply join_group_by_code_Return in H.
  destruct H as [[_ ->]|(g & u & _ & _ & Hnew & _ & ->)]; [assumption|].
  intros g' r b Hb. unfold balance_of in Hb. rewrite member_row_joined in Hb.
  change (pending_transactions (joined now g u s)) with (pending_transactions s).
  destruct (member_row s g' r) as [m|] eqn:Hm.
  - apply Hinv. unfold balance_of. now rewrite Hm.
  - destruct (Nat.eqb_spec g g') as [<-|Hg]; cbn [andb] in Hb; [|discriminate].
    destruct (Nat.eqb_spec u r) as [<-|Hu]; [|discriminate].
    cbn in Hb. injection Hb as <-. symmetry. now apply owed_non_member.
Qed.

(** X9.  In every state the ledger reaches from one in which each balance is the
    net of the pending transactions (a fresh ledger, say), each balance is
    the net of the pending transactions: what the others owe the member minus
    what the member owes. *)
Theorem balances_follow_pending cent codes s0 s g r b :
  consistent s0 = true ->
  balances_match_pending s0 ->
  reachable_joining cent codes s0 s ->
  balance_of s g r = Some b ->
  b = owed (pending_transactions s) g r.
Proof.
  intros Hc0 Hinv0 Hr. revert g r b.
  change (balances_match_pending s).
  induction Hr as [|s now g u d url Hr IH Hmem|s now id Hr IH
                   |s now auth code Hr IH].
  - assumption.
  - apply balances_match_pending_step_log_failure; [|assumption].
    now apply (reachable_joining_conserves cent codes s0 s Hc0 Hr).
  - apply balances_match_pending_step_settle_debt; [|assumption].
    now apply (reachable_joining_conserves cent codes s0 s Hc0 Hr).
  - apply balances_match_pending_step_join; [|assumption].
    now apply (reachable_joining_conserves cent codes s0 s Hc0 Hr).
Qed.

Lemma balances_follow_pending_witness :
  200 = owed (pending_transactions example_joined_failed) 1%nat 1%nat.
Proof.
  apply (balances_follow_pending 1 example_invite_codes example_group
           example_joined_failed 1%nat 1%nat 200).
  - reflexivity.
  - apply balances_match_pending_fresh; [reflexivity|].
    intros m [<-|[<-|[<-|[]]]]; reflexivity.
  - apply rj_log_failure; [apply rj_join; apply rj_init | reflexivity].
  - reflexivity.
Defined.

(** ** Transactions are never lost *)

Lemma settle_debt_keeps_paid now id s t :
  NoDup (map tx_id (transactions s)) ->
  In t (transactions s) -> status t = paid ->
  In t (transactions (db_after s (settle_debt now id s))).
Proof.
  intros Hid Hin Hpaid. destruct (select_transaction s id) as [t0|] eqn:Ht0.
  - destruct (status t0) eqn:Hs0.
    + rewrite (settle_debt_pending _ _ _ _ Ht0 Hs0). cbn [db_after].
      unfold debt_settled_db. cbn [transactions]. apply in_map_iff. exists t.
      split; [|assumption].
      destruct (Nat.eqb_spec (tx_id t) (tx_id t0)) as [Heq|Hne]; [|reflexivity].
      exfalso. destruct (select_transaction_id _ _ _ Ht0) as [Hid0 _].
      pose proof (select_transaction_unique s t Hid Hin) as Hsel.
      rewrite Heq, Hid0, Ht0 in Hsel. injection Hsel as ->. congruence.
    + now rewrite (settle_debt_paid _ _ _ _ Ht0 Hs0).
  - now rewrite (settle_debt_missing _ _ _ Ht0).
Qed.

Lemma settle_debt_tx_core now id s :
  map tx_core (transactions (db_after s (settle_debt now id s)))
  = map tx_core (transactions s).
Proof.
  destruct (select_transaction s id) as [t|] eqn:Ht.
  - destruct (status t) eqn:Hs.
    + rewrite (settle_debt_pending _ _ _ _ Ht Hs). cbn [db_after].
      unfold debt_settled_db. cbn [transactions]. rewrite map_map.
      apply map_ext. intros x. now destruct (Nat.eqb (tx_id x) (tx_id t)).
    + now rewrite (settle_debt_paid _ _ _ _ Ht Hs).
  - now rewrite (settle_debt_missing _ _ _ Ht).
Qed.

(** X10.  In every state the ledger reaches, the transactions of the starting
    state are still there, in place and with every column but [status] and
    [settled_at] as it was, and those that were paid are exactly as they
    were: nothing is deleted, rewritten or settled a second time. *)
Theorem transactions_are_kept cent codes s0 s :
  consistent s0 = true ->
  reachable_joining cent codes s0 s ->
  (exists new,
     map tx_core (transactions s) = map tx_core (transactions s0) ++ new) /\
  (forall t, In t (transactions s0) -> status t = paid -> In t (transactions s)).
Proof.
  intros Hc0 Hr.
  induction Hr as [|s now g u d url Hr [[new Hcore] Hpaid] Hmem
                   |s now id Hr [[new Hcore] Hpaid]
                   |s now auth code Hr [[new Hcore] Hpaid]].
  - split; [exists []; now rewrite app_nil_r|auto].
  - destruct (log_failure cent now (Some u) g d url s) as [[j s1]|msg] eqn:H;
      cbn [db_after]; [|split; [now exists new|assumption]].
    apply log_failure_Return in H. destruct H as (p & P & _ & _ & _ & ->).
    unfold failure_logged. cbn [transactions]. split.
    + eexists. rewrite map_app, Hcore, <- app_assoc. reflexivity.
    + intros t Hin Hst. apply in_app_iff. left. now apply Hpaid.
  - destruct (reachable_joining_conserves cent codes s0 s Hc0 Hr) as [Hc _].
    apply consistent_spec in Hc. destruct Hc as (_ & Hid & _). split.
    + exists new. now rewrite settle_debt_tx_core.
    + intros t Hin Hst. apply settle_debt_keeps_paid; auto.
  - assert (Hsame : transactions
                      (db_after s (join_group_by_code now codes auth code s))
                    = transactions s).
    { destruct (join_group_by_code now codes auth code s) as [[j s1]|msg] eqn:H;
        cbn [db_after]; [|reflexivity].
      apply join_group_by_code_Return in H.
      now destruct H as [[_ ->]|(g & u & _ & _ & _ & _ & ->)]. }
    rewrite Hsame. split; [now exists new|assumption].
Qed.

Lemma transactions_are_kept_witness :
  (exists new,
     map tx_core (transactions example_settled)
     = map tx_core (transactions example_pending) ++ new) /\
  (forall t, In t (transactions example_pending) -> status t = paid ->
             In t (transactions example_settled)).
Proof.
  apply (transactions_are_kept 1 example_invite_codes example_pending example_settled).
  - reflexivity.
  - apply rj_settle_debt. apply rj_init.
Defined.

(** ** Memberships are never lost *)

Lemma member_row_failure_logged now g u P d url s g' r :
  member_row (failure_logged now g u P d url s) g' r
  = option_map
      (failure_applied g u P
         (Z.of_nat (List.length (select_other_members s g (Some u))) * P))
      (member_row s g' r).
Proof.
  unfold member_row, failure_logged. cbn [group_members].
  now rewrite find_row_map by apply failure_applied_key.
Qed.

Lemma member_row_debt_settled_db now t s g r :
  member_row (debt_settled_db now t s) g r
  = option_map (debt_settled t) (member_row s g r).
Proof.
  unfold member_row, debt_settled_db. cbn [group_members].
  now rewrite find_row_map by apply debt_settled_key.
Qed.

Lemma failure_applied_joined_at (g u : uuid) (P total : numeric)
    (m : group_members_row) :
  joined_at (failure_applied g u P total m) = joined_at m /\
  failure_count m <= failure_count (failure_applied g u P total m).
Proof.
  unfold failure_applied.
  destruct (Nat.eqb (gm_group_id m) g); [|split; [reflexivity|lia]].
  destruct (Nat.eqb (gm_user_id m) u); cbn; split; (reflexivity || lia).
Qed.

(** X11.  No sequence of [log_failure], [settle_debt] and [join_group_by_code]
    calls removes a membership, changes the instant it was joined at or
    lowers its failure count. *)
Theorem memberships_are_kept cent codes s0 s g u m :
  reachable_joining cent codes s0 s ->
  member_row s0 g u = Some m ->
  exists m', member_row s g u = Some m' /\
             joined_at m' = joined_at m /\
             failure_count m <= failure_count m'.
Proof.
  intros Hr Hm0.
  induction Hr as [|s now g1 u1 d url Hr (m1 & Hm1 & Hj & Hf) Hmem
                   |s now id Hr (m1 & Hm1 & Hj & Hf)
                   |s now auth code Hr (m1 & Hm1 & Hj & Hf)].
  - exists m. split; [assumption|]. split; [reflexivity|lia].
  - destruct (log_failure cent now (Some u1) g1 d url s) as [[j s1]|msg] eqn:H;
      cbn [db_after]; [|now exists m1].
    apply log_failure_Return in H. destruct H as (p & P & _ & _ & _ & ->).
    rewrite member_row_failure_logged, Hm1. cbn [option_map].
    eexists. split; [reflexivity|].
    destruct (failure_applied_joined_at g1 u1 P
                (Z.of_nat (List.length (select_other_members s g1 (Some u1))) * P) m1)
      as [Hj' Hf'].
    split; [congruence|lia].
  - destruct (select_transaction s id) as [t|] eqn:Ht.
    + destruct (status t) eqn:Hs.
      * rewrite (settle_debt_pending _ _ _ _ Ht Hs). cbn [db_after].
        rewrite member_row_debt_settled_db, Hm1. cbn [option_map].
        eexists. split; [reflexivity|].
        pose proof (debt_settled_other_columns t m1) as Hcols.
        injection Hcols as _ _ Hf' Hj'. split; [congruence|lia].
      * rewrite (settle_debt_paid _ _ _ _ Ht Hs). cbn [db_after]. now exists m1.
    + rewrite (settle_debt_missing _ _ _ Ht). cbn [db_after]. now exists m1.
  - destruct (join_group_by_code now codes auth code s) as [[j s1]|msg] eqn:H;
      cbn [db_after]; [|now exists m1].
    apply join_group_by_code_Return in H.
    destruct H as [[_ ->]|(g1 & u1 & _ & _ & _ & _ & ->)]; [now exists m1|].
    rewrite member_row_joined, Hm1. now exists m1.
Qed.

Lemma memberships_are_kept_witness :
  exists m', member_row example_settled 1%nat 1%nat = Some m' /\
             joined_at m' = joined_at (new_membership 0 1%nat 1%nat) /\
             failure_count (new_membership 0 1%nat 1%nat) <= failure_count m'.
Proof.
  apply (memberships_are_kept 1 example_invite_codes example_group example_settled).
  - apply rj_settle_debt. apply rj_log_failure; [apply rj_init|reflexivity].
  - reflexivity.
Defined.

Lemma reachable_joining_is_member cent codes s0 s g u :
  reachable_joining cent codes s0 s ->
  is_member s0 g u = true -> is_member s g u = true.
Proof.
  intros Hr H0.
  induction Hr as [|s now g1 u1 d url Hr IH Hmem|s now id Hr IH
                   |s now auth code Hr IH].
  - assumption.
  - destruct (log_failure cent now (Some u1) g1 d url s) as [[j s1]|msg] eqn:H;
      cbn [db_after]; [|assumption].
    apply log_failure_Return in H. destruct H as (p & P & _ & _ & _ & ->).
    now rewrite (is_member_same_keys s (failure_logged now g1 u1 P d url s))
      by apply failure_logged_keys.
  - destruct (select_transaction s id) as [t|] eqn:Ht.
    + destruct (status t) eqn:Hs.
      * rewrite (settle_debt_pending _ _ _ _ Ht Hs). cbn [db_after].
        now rewrite (is_member_same_keys s (debt_settled_db now t s))
          by apply debt_settled_db_keys.
      * now rewrite (settle_debt_paid _ _ _ _ Ht Hs).
    + now rewrite (settle_debt_missing _ _ _ Ht).
  - destruct (join_group_by_code now codes auth code s) as [[j s1]|msg] eqn:H;
      cbn [db_after]; [|assumption].
    apply join_group_by_code_Return in H.
    destruct H as [[_ ->]|(g1 & u1 & _ & _ & _ & _ & ->)]; [assumption|].
    now apply is_member_joined.
Qed.

(** X6.  Joining is not repeated: once a call of [join_group_by_code] has
    succeeded, then after any sequence of [log_failure] calls by members,
    [settle_debt] calls and [join_group_by_code] calls, the same user
    calling it again with the same code, at any time, is answered "Already
    a member" and the database stays as it is. *)
Theorem join_group_by_code_twice cent now now' codes auth code s j s' s'' :
  join_group_by_code now codes auth code s = Return (j, s') ->
  jg_success j = true ->
  reachable_joining cent codes s' s'' ->
  join_group_by_code now' codes auth code s''
  = Return ({| jg_success := false; jg_group_id := None;
               jg_error := Some "Already a member"%string |}, s'').
Proof.
  intros H Hok Hr. apply join_group_by_code_Return in H.
  destruct H as [[Hfail _]|(g & u & Hg & -> & Hnew & -> & ->)]; [congruence|].
  assert (Hmem : is_member (joined now g u s) g u = true).
  { unfold is_member. rewrite member_row_joined.
    destruct (member_row s g u); [reflexivity|]. now rewrite !Nat.eqb_refl. }
  pose proof (reachable_joining_is_member cent codes _ s'' g u Hr Hmem) as Hmem''.
  unfold join_group_by_code. rewrite Hg, already_member_is_member.
  now rewrite Hmem''.
Qed.

Lemma join_group_by_code_twice_witness :
  join_group_by_code 9 example_invite_codes (Some 4%nat) "ABC123"
    example_joined_failed
  = Return ({| jg_success := false; jg_group_id := None;
               jg_error := Some "Already a member"%string |},
            example_joined_failed).
Proof.
  apply (join_group_by_code_twice 1 7 9 example_invite_codes (Some 4%nat) "ABC123"
           example_group
           {| jg_success := true; jg_group_id := Some 1%nat; jg_error := None |}
           example_joined).
  - reflexivity.
  - reflexivity.
  - apply rj_log_failure; [apply rj_init|reflexivity].
Defined.

(** ** Net balances *)

Lemma total_of_add {A : Type} (a b : A -> Z) (l : list A) :
  total_of (fun x => a x + b x) l = total_of a l + total_of b l.
Proof.
  unfold total_of. induction l as [|x l IH]; cbn [map fold_right]; lia.
Qed.

Lemma total_of_ext {A : Type} (a b : A -> Z) (l : list A) :
  (forall x, a x = b x) -> total_of a l = total_of b l.
Proof.
  intros H. unfold total_of. f_equal. apply map_ext. exact H.
Qed.

Lemma total_of_indicator (y : uuid) (v : Z) (keys : list uuid) :
  NoDup keys ->
  total_of (fun x => if Nat.eqb y x then v else 0) keys
  = if existsb (Nat.eqb y) keys then v else 0.
Proof.
  unfold total_of. induction keys as [|k keys IH]; intros Hnd;
    cbn [map fold_right existsb]; [reflexivity|].
  inversion Hnd as [|? ? Hfresh Hrest]; subst. rewrite (IH Hrest).
  destruct (Nat.eqb_spec y k) as [->|Hne]; cbn [orb].
  - destruct (existsb (Nat.eqb k) keys) eqn:Hex; [|lia].
    exfalso. apply existsb_exists in Hex. destruct Hex as [x [Hin Hx]].
    apply Nat.eqb_eq in Hx. now subst x.
  - destruct (existsb (Nat.eqb y) keys); lia.
Qed.

Lemma total_by_key (k : group_members_row -> uuid) (keys : list uuid)
    (rows : list group_members_row) :
  NoDup keys ->
  (forall m, In m rows -> In (k m) keys) ->
  total_of (fun x => fold_right Z.add 0
                       (map current_balance
                          (filter (fun m => Nat.eqb (k m) x) rows))) keys
  = fold_right Z.add 0 (map current_balance rows).
Proof.
  intros Hnd. induction rows as [|m rest IH]; intros Hin.
  - cbn [filter map fold_right]. unfold total_of. clear.
    induction keys as [|x keys IHk]; cbn [map fold_right]; [reflexivity|].
    now rewrite IHk.
  - cbn [map fold_right].
    rewrite <- IH by (intros x Hx; apply Hin; now right).
    rewrite (total_of_ext _
               (fun x => (if Nat.eqb (k m) x then current_balance m else 0)
                         + fold_right Z.add 0
                             (map current_balance
                                (filter (fun m' => Nat.eqb (k m') x) rest)))).
    + rewrite total_of_add, (total_of_indicator _ _ _ Hnd).
      assert (Hex : existsb (Nat.eqb (k m)) keys = true).
      { apply existsb_exists. exists (k m). split; [apply Hin; now left|].
        apply Nat.eqb_refl. }
      now rewrite Hex.
    + intros x. cbn [filter]. destruct (Nat.eqb (k m) x); cbn [map fold_right]; lia.
Qed.

Lemma net_balances_total (s : db) :
  total_of (fun u => get_net_balance (Some u) s) (all_users s)
  = total_of (group_balance_sum s) (all_groups s).
Proof.
  transitivity (fold_right Z.add 0 (map current_balance (group_members s))).
  - unfold get_net_balance. cbn [sql_eq].
    apply (total_by_key gm_user_id).
    + apply NoDup_nodup.
    + intros m Hin. apply nodup_In. now apply in_map.
  - symmetry. unfold group_balance_sum, sum_balances.
    apply (total_by_key gm_group_id).
    + apply NoDup_nodup.
    + intros m Hin. apply nodup_In. now apply in_map.
Qed.

Lemma group_balance_sum_fresh (s : db) :
  (forall m, In m (group_members s) -> current_balance m = 0) ->
  forall g, group_balance_sum s g = 0.
Proof.
  intros Hzero g. unfold group_balance_sum, sum_balances.
  induction (group_members s) as [|m rest IH]; cbn [filter]; [reflexivity|].
  assert (Hrest : fold_right Z.add 0
                    (map current_balance
                       (filter (fun m => Nat.eqb (gm_group_id m) g) rest)) = 0)
    by (apply IH; intros x Hx; apply Hzero; now right).
  destruct (Nat.eqb (gm_group_id m) g); [|exact Hrest].
  cbn [map fold_right]. rewrite Hrest, (Hzero m) by now left. reflexivity.
Qed.

(** X12.  What [get_net_balance] reports to the users adds up to nothing: in a
    ledger that started consistent with every group's balances summing to 0,
    after any sequence of [log_failure] calls by members, [settle_debt]
    calls and [join_group_by_code] calls, the net balances of all the users
    sum to 0. *)
Theorem net_balances_sum_to_zero cent codes s0 s :
  consistent s0 = true ->
  (forall g, group_balance_sum s0 g = 0) ->
  reachable_joining cent codes s0 s ->
  total_of (fun u => get_net_balance (Some u) s) (all_users s) = 0.
Proof.
  intros Hc0 Hzero Hr. rewrite net_balances_total.
  assert (Hsum : forall g, group_balance_sum s g = 0).
  { destruct (reachable_joining_conserves cent codes s0 s Hc0 Hr) as [_ H].
    intros g. now rewrite H. }
  unfold total_of. induction (all_groups s) as [|g l IH]; cbn [map fold_right];
    [reflexivity|]. rewrite Hsum, IH. reflexivity.
Qed.

Lemma net_balances_sum_to_zero_witness :
  total_of (fun u => get_net_balance (Some u) example_joined_failed)
    (all_users example_joined_failed) = 0.
Proof.
  apply (net_balances_sum_to_zero 1 example_invite_codes example_group).
  - reflexivity.
  - apply group_balance_sum_fresh.
    intros m [<-|[<-|[<-|[]]]]; reflexivity.
  - apply rj_log_failure; [apply rj_join; apply rj_init | reflexivity].
Defined.

Lemma failure_applied_user (g u : uuid) (P total : numeric) (m : group_members_row) :
  gm_user_id (failure_applied g u P total m) = gm_user_id m.
Proof. exact (f_equal snd (failure_applied_key g u P total m)). Qed.

Lemma net_failure_applied (g u r : uuid) (P total : numeric)
    (rows : list group_members_row) :
  fold_right Z.add 0
    (map current_balance
       (filter (fun m => Nat.eqb (gm_user_id m) r)
               (map (failure_applied g u P total) rows)))
  = fold_right Z.add 0
      (map current_balance (filter (fun m => Nat.eqb (gm_user_id m) r) rows))
    + Z.of_nat (List.length
                  (filter (fun m => Nat.eqb (gm_group_id m) g
                                    && Nat.eqb (gm_user_id m) r) rows))
      * (if Nat.eqb r u then - total else P).
Proof.
  induction rows as [|m rest IH]; cbn [map filter]; [reflexivity|].
  rewrite failure_applied_user.
  destruct (Nat.eqb_spec (gm_user_id m) r) as [Hr|Hr];
    cbn [map fold_right]; rewrite ?failure_applied_balance, IH;
    destruct (Nat.eqb_spec (gm_group_id m) g) as [Hg|Hg];
    cbn [andb List.length]; rewrite ?Nat2Z.inj_succ; try lia.
  subst r. destruct (Nat.eqb (gm_user_id m) u); lia.
Qed.

Lemma no_row_of_non_member (s : db) (g r : uuid) :
  is_member s g r = false ->
  filter (fun m => Nat.eqb (gm_group_id m) g && Nat.eqb (gm_user_id m) r)
         (group_members s) = [].
Proof.
  unfold is_member, member_row.
  induction (group_members s) as [|m rest IH]; cbn [find filter]; [reflexivity|].
  destruct (Nat.eqb (gm_group_id m) g && Nat.eqb (gm_user_id m) r);
    [discriminate|exact IH].
Qed.

(** X13.  What a failure does to the net balances [get_net_balance] reports:
    when a member's [log_failure] returns, with [P] the penalty of the group
    rounded to two decimals and [n] the number of other members, the call
    reports [n] transactions and a total debt of [n * P], the member's net
    balance falls by [n * P], the net balance of every other member of the
    group rises by [P], and the net balance of everyone else stays as it
    was. *)
Theorem get_net_balance_after_log_failure cent now u g d url s j s' :
  unique_memberships s = true ->
  is_member s g u = true ->
  log_failure cent now (Some u) g d url s = Return (j, s') ->
  exists p P,
    select_default_penalty_amount s g = Some p /\
    to_decimal_10_2 cent p = Return P /\
    transactions_created j
    = Z.of_nat (List.length (select_other_members s g (Some u))) /\
    total_debt j = Some (transactions_created j * P) /\
    get_net_balance (Some u) s'
    = get_net_balance (Some u) s - transactions_created j * P /\
    (forall r, r <> u -> is_member s g r = true ->
       get_net_balance (Some r) s' = get_net_balance (Some r) s + P) /\
    (forall r, is_member s g r = false ->
       get_net_balance (Some r) s' = get_net_balance (Some r) s).
Proof.
  intros Hun Hmem H. apply log_failure_Return in H.
  destruct H as (p & P & Hp & HP & -> & ->). exists p, P.
  cbn [total_debt transactions_created].
  split; [exact Hp|]. split; [exact HP|]. split; [reflexivity|].
  split; [reflexivity|].
  assert (Hnet : forall r,
    get_net_balance (Some r) (failure_logged now g u P d url s)
    = get_net_balance (Some r) s
      + Z.of_nat (List.length
                    (filter (fun m => Nat.eqb (gm_group_id m) g
                                      && Nat.eqb (gm_user_id m) r)
                            (group_members s)))
        * (if Nat.eqb r u
           then - (Z.of_nat (List.length (select_other_members s g (Some u))) * P)
           else P)).
  { intros r. unfold get_net_balance, failure_logged. cbn [group_members sql_eq].
    apply net_failure_applied. }
  apply unique_memberships_NoDup in Hun.
  split; [|split].
  - rewrite Hnet, Nat.eqb_refl.
    rewrite one_row_per_member by (try apply is_member_In; assumption). lia.
  - intros r Hne Hr. rewrite Hnet.
    rewrite one_row_per_member by (try apply is_member_In; assumption).
    destruct (Nat.eqb_spec r u); [contradiction|lia].
  - intros r Hr. rewrite Hnet, (no_row_of_non_member s g r Hr).
    cbn [List.length]. lia.
Qed.

Lemma get_net_balance_after_log_failure_witness :
  exists p P,
    select_default_penalty_amount example_group 1%nat = Some p /\
    to_decimal_10_2 1 p = Return P /\
    transactions_created {| lf_success := true; transactions_created := 2;
                            total_debt := Some 400 |}
    = Z.of_nat (List.length (select_other_members example_group 1%nat (Some 1%nat))) /\
    total_debt {| lf_success := true; transactions_created := 2;
                  total_debt := Some 400 |}
    = Some (transactions_created
              {| lf_success := true; transactions_created := 2;
                 total_debt := Some 400 |} * P) /\
    get_net_balance (Some 1%nat) example_pending
    = get_net_balance (Some 1%nat) example_group
      - transactions_created
          {| lf_success := true; transactions_created := 2;
             total_debt := Some 400 |} * P /\
    (forall r, r <> 1%nat -> is_member example_group 1%nat r = true ->
       get_net_balance (Some r) example_pending
       = get_net_balance (Some r) example_group + P) /\
    (forall r, is_member example_group 1%nat r = false ->
       get_net_balance (Some r) example_pending
       = get_net_balance (Some r) example_group).
Proof.
  apply (get_net_balance_after_log_failure 1 0 1%nat 1%nat None None example_group);
    reflexivity.
Defined.

(** ** Failures of different members in either order *)

Lemma failure_logged_other_members now g u P d url s g' u' :
  select_other_members (failure_logged now g u P d url s) g' u'
  = select_other_members s g' u'.
Proof.
  unfold select_other_members, failure_logged. cbn [group_members].
  induction (group_members s) as [|m rest IH]; cbn [map filter]; [reflexivity|].
  rewrite failure_applied_group, failure_applied_user.
  destruct (Nat.eqb (gm_group_id m) g' && sql_neq (gm_user_id m) u');
    cbn [map]; rewrite ?failure_applied_user; now rewrite IH.
Qed.

Lemma failure_logged_profile_ids now g u P d url s :
  profile_ids (failure_logged now g u P d url s) = profile_ids s.
Proof.
  unfold profile_ids, failure_logged. cbn [group_members profiles].
  f_equal. rewrite map_map. apply map_ext. intros m. apply failure_applied_user.
Qed.

Lemma log_failure_returns_after_other cent now now' g u P d url g' u' d' url' s :
  (g, u) <> (g', u') ->
  (exists r, log_failure cent now' (Some u') g' d' url'
               (failure_logged now g u P d url s) = Return r)
  <-> (exists r, log_failure cent now' (Some u') g' d' url' s = Return r).
Proof.
  intros Hne.
  split; intros Hret; apply log_failure_returns_spec in Hret;
    apply log_failure_returns_spec;
    destruct Hret as (u0 & p & P' & Hu & Hp & HP & Hn & Hfit & Hcount & Hfk);
    exists u0, p, P';
    change (select_default_penalty_amount (failure_logged now g u P d url s) g')
      with (select_default_penalty_amount s g') in *;
    rewrite ?failure_logged_other_members, ?failure_logged_profile_ids in *;
    repeat (split; [assumption|]); (split; [|assumption]).
  - intros m Hin Hg Hu'.
    assert (Hin' : In (failure_applied g u P
                         (Z.of_nat (List.length (select_other_members s g (Some u))) * P)
                         m)
                      (group_members (failure_logged now g u P d url s)))
      by (unfold failure_logged; cbn [group_members]; now apply in_map).
    specialize (Hcount _ Hin').
    rewrite failure_applied_group, failure_applied_user in Hcount.
    specialize (Hcount Hg Hu').
    unfold failure_applied in Hcount.
    destruct (Nat.eqb_spec (gm_group_id m) g) as [Hg1|Hg1]; [|exact Hcount].
    destruct (Nat.eqb_spec (gm_user_id m) u) as [Hu1|Hu1]; [|exact Hcount].
    exfalso. apply Hne. injection Hu as <-. congruence.
  - intros m' Hin' Hg Hu'. unfold failure_logged in Hin'. cbn [group_members] in Hin'.
    apply in_map_iff in Hin'. destruct Hin' as (m & <- & Hin).
    rewrite failure_applied_group in Hg. rewrite failure_applied_user in Hu'.
    specialize (Hcount m Hin Hg Hu').
    unfold failure_applied.
    destruct (Nat.eqb_spec (gm_group_id m) g) as [Hg1|Hg1]; [|exact Hcount].
    destruct (Nat.eqb_spec (gm_user_id m) u) as [Hu1|Hu1]; [|exact Hcount].
    exfalso. apply Hne. injection Hu as <-. congruence.
Qed.

Lemma log_failure_after_other cent now now' g u P d url g' u' d' url' s :
  (g, u) <> (g', u') ->
  db_after (failure_logged now g u P d url s)
    (log_failure cent now' (Some u') g' d' url' (failure_logged now g u P d url s))
  = match log_failure cent now' (Some u') g' d' url' s with
    | Return (_, s') =>
        match select_default_penalty_amount s g' with
        | Some p =>
            match to_decimal_10_2 cent p with
            | Return P' =>
                failure_logged now' g' u' P' d' url' (failure_logged now g u P d url s)
            | Raise _ => failure_logged now g u P d url s
            end
        | None => failure_logged now g u P d url s
        end
    | Raise _ => failure_logged now g u P d url s
    end.
Proof.
  intros Hne.
  pose proof (log_failure_returns_after_other cent now now' g u P d url g' u' d' url'
                s Hne) as Hsame.
  destruct (log_failure cent now' (Some u') g' d' url' s) as [[j2 s2]|msg2] eqn:H2;
    destruct (log_failure cent now' (Some u') g' d' url'
                (failure_logged now g u P d url s)) as [[j s1]|msg] eqn:H1;
    cbn [db_after].
  - apply log_failure_Return in H1, H2.
    destruct H1 as (p1 & P1 & Hp1 & HP1 & _ & ->).
    destruct H2 as (p2 & P2 & Hp2 & HP2 & _ & _).
    change (select_default_penalty_amount (failure_logged now g u P d url s) g')
      with (select_default_penalty_amount s g') in Hp1.
    rewrite Hp2 in Hp1. injection Hp1 as <-. rewrite Hp2, HP2.
    rewrite HP2 in HP1. now injection HP1 as <-.
  - exfalso. destruct (proj2 Hsame) as [r Hr]; [now eexists|discriminate].
  - exfalso. destruct (proj1 Hsame) as [r Hr]; [now eexists|discriminate].
  - reflexivity.
Qed.

(** X14.  The order of two failures does not matter to the members: when two
    different memberships log a failure one after the other, every balance
    and every failure count ends the same whichever call came first, also
    when one of the calls or both are refused. *)
Theorem log_failure_calls_commute cent now1 now2 u1 g1 d1 url1 u2 g2 d2 url2 s g r :
  (g1, u1) <> (g2, u2) ->
  balance_of
    (db_after (db_after s (log_failure cent now1 (Some u1) g1 d1 url1 s))
       (log_failure cent now2 (Some u2) g2 d2 url2
          (db_after s (log_failure cent now1 (Some u1) g1 d1 url1 s)))) g r
  = balance_of
      (db_after (db_after s (log_failure cent now2 (Some u2) g2 d2 url2 s))
         (log_failure cent now1 (Some u1) g1 d1 url1
            (db_after s (log_failure cent now2 (Some u2) g2 d2 url2 s)))) g r /\
  failures_of
    (db_after (db_after s (log_failure cent now1 (Some u1) g1 d1 url1 s))
       (log_failure cent now2 (Some u2) g2 d2 url2
          (db_after s (log_failure cent now1 (Some u1) g1 d1 url1 s)))) g r
  = failures_of
      (db_after (db_after s (log_failure cent now2 (Some u2) g2 d2 url2 s))
         (log_failure cent now1 (Some u1) g1 d1 url1
            (db_after s (log_failure cent now2 (Some u2) g2 d2 url2 s)))) g r.
Proof.
  intros Hne.
  assert (Hne' : (g2, u2) <> (g1, u1)) by congruence.
  destruct (log_failure cent now1 (Some u1) g1 d1 url1 s) as [[j1 s1]|msg1] eqn:H1;
    destruct (log_failure cent now2 (Some u2) g2 d2 url2 s) as [[j2 s2]|msg2] eqn:H2;
    cbn [db_after]; rewrite ?H1, ?H2; cbn [db_after].
  - apply log_failure_Return in H1 as H1', H2 as H2'.
    destruct H1' as (p1 & P1 & Hp1 & HP1 & _ & ->).
    destruct H2' as (p2 & P2 & Hp2 & HP2 & _ & ->).
    rewrite (log_failure_after_other cent now1 now2 g1 u1 P1 d1 url1 g2 u2 d2 url2 s Hne).
    rewrite (log_failure_after_other cent now2 now1 g2 u2 P2 d2 url2 g1 u1 d1 url1 s Hne').
    rewrite H1, H2, Hp1, Hp2, HP1, HP2.
    rewrite !balance_of_failure_logged, !failures_of_failure_logged.
    rewrite !failure_logged_other_members.
    split.
    + destruct (balance_of s g r) as [b|]; [|reflexivity]. cbn [option_map]. f_equal.
      destruct (Nat.eqb g g1), (Nat.eqb g g2), (Nat.eqb r u1), (Nat.eqb r u2); lia.
    + destruct (failures_of s g r) as [c|]; [|reflexivity]. cbn [option_map]. f_equal.
      destruct (Nat.eqb g g1), (Nat.eqb g g2), (Nat.eqb r u1), (Nat.eqb r u2);
        cbn [andb]; lia.
  - apply log_failure_Return in H1 as H1'.
    destruct H1' as (p1 & P1 & Hp1 & HP1 & _ & ->).
    rewrite (log_failure_after_other cent now1 now2 g1 u1 P1 d1 url1 g2 u2 d2 url2 s Hne).
    rewrite H2. now split.
  - apply log_failure_Return in H2 as H2'.
    destruct H2' as (p2 & P2 & Hp2 & HP2 & _ & ->).
    rewrite (log_failure_after_other cent now2 now1 g2 u2 P2 d2 url2 g1 u1 d1 url1 s Hne').
    rewrite H1. now split.
  - now split.
Qed.

Lemma log_failure_calls_commute_witness :
  balance_of
    (db_after (db_after example_group
                 (log_failure 1 0 (Some 1%nat) 1%nat None None example_group))
       (log_failure 1 3 (Some 2%nat) 1%nat None None
          (db_after example_group
             (log_failure 1 0 (Some 1%nat) 1%nat None None example_group))))
    1%nat 3%nat
  = balance_of
      (db_after (db_after example_group
                   (log_failure 1 3 (Some 2%nat) 1%nat None None example_group))
         (log_failure 1 0 (Some 1%nat) 1%nat None None
            (db_after example_group
               (log_failure 1 3 (Some 2%nat) 1%nat None None example_group))))
      1%nat 3%nat /\
  failures_of
    (db_after (db_after example_group
                 (log_failure 1 0 (Some 1%nat) 1%nat None None example_group))
       (log_failure 1 3 (Some 2%nat) 1%nat None None
          (db_after example_group
             (log_failure 1 0 (Some 1%nat) 1%nat None None example_group))))
    1%nat 3%nat
  = failures_of
      (db_after (db_after example_group
                   (log_failure 1 3 (Some 2%nat) 1%nat None None example_group))
         (log_failure 1 0 (Some 1%nat) 1%nat None None
            (db_after example_group
               (log_failure 1 3 (Some 2%nat) 1%nat None None example_group))))
      1%nat 3%nat.
Proof.
  apply (log_failure_calls_commute 1 0 3 1%nat 1%nat None None 2%nat 1%nat None None
           example_group 1%nat 3%nat).
  intros H. discriminate H.
Defined.

(** ** The two-argument [log_failure] in general *)

Lemma sql_update_none {R : Type} (w : R -> bool) (set : R -> exn R) (rows : list R) :
  (forall r, In r rows -> w r = false) ->
  sql_update w set rows = Return rows.
Proof.
  induction rows as [|r rest IH]; intros Hw; cbn [sql_update]; [reflexivity|].
  rewrite (Hw r) by now left.
  rewrite IH by (intros x Hx; apply Hw; now right). reflexivity.
Qed.

(** X15.  The two-argument [log_failure] of [full_setup.sql], called by a member
    of a group with penalty [P] and [n] other members, returns, reports [n]
    transactions and a total debt of [n * P], but takes only [P] from the
    caller: the balances of the group then sum to [P * (n - 1)] more than
    before. *)
Theorem full_setup_log_failure_sum now s g u P c d :
  unique_memberships s = true ->
  select_default_penalty_amount s g = Some P ->
  failures_of s g u = Some c ->
  INT4_MIN <= c + 1 <= INT4_MAX ->
  Z.of_nat (List.length (select_other_members s g (Some u))) <= INT4_MAX ->
  exists j s',
    full_setup_log_failure now (Some u) g d s = Return (j, s') /\
    transactions_created j
    = Z.of_nat (List.length (select_other_members s g (Some u))) /\
    total_debt j = Some (P * transactions_created j) /\
    balance_of s' g u = option_map (fun b => b - P) (balance_of s g u) /\
    failures_of s' g u = Some (c + 1) /\
    group_balance_sum s' g
    = group_balance_sum s g + P * (transactions_created j - 1).
Proof.
  intros Hun Hp Hc Hrange Hn. do 2 eexists.
  split; [now apply (full_setup_log_failure_in_range now s g u P c d)|].
  cbn [transactions_created total_debt].
  split; [reflexivity|]. split; [reflexivity|]. split; [|split].
  - rewrite balance_of_full_setup_failure_logged, !Nat.eqb_refl. reflexivity.
  - unfold failures_of, member_row, full_setup_failure_logged in *.
    cbn [group_members]. rewrite find_row_map by apply failure_applied_key.
    destruct (find _ (group_members s)) as [m|] eqn:Hm; [|discriminate].
    cbn [option_map] in *. injection Hc as <-.
    apply (member_row_key s) in Hm. destruct Hm as (_ & Hg & Hu).
    unfold failure_applied. rewrite Hg, Hu, !Nat.eqb_refl. reflexivity.
  - apply full_setup_failure_logged_sum; [assumption|].
    now apply (is_member_failures_of s g u c).
Qed.

Lemma full_setup_log_failure_sum_witness :
  exists j s',
    full_setup_log_failure 0 (Some 1%nat) 1%nat None example_group = Return (j, s') /\
    transactions_created j
    = Z.of_nat (List.length (select_other_members example_group 1%nat (Some 1%nat))) /\
    total_debt j = Some (200 * transactions_created j) /\
    balance_of s' 1%nat 1%nat
    = option_map (fun b => b - 200) (balance_of example_group 1%nat 1%nat) /\
    failures_of s' 1%nat 1%nat = Some (0 + 1) /\
    group_balance_sum s' 1%nat
    = group_balance_sum example_group 1%nat + 200 * (transactions_created j - 1).
Proof.
  apply (full_setup_log_failure_sum 0 example_group 1%nat 1%nat 200 0 None).
  - reflexivity.
  - reflexivity.
  - reflexivity.
  - unfold INT4_MIN, INT4_MAX. lia.
  - unfold INT4_MAX. cbn. lia.
Defined.

(** X16.  Called by nobody (no session), the two-argument [log_failure] does not
    raise: it reports success with no transaction and leaves the database
    as it is. *)
Theorem full_setup_log_failure_unauthenticated now g d s :
  full_setup_log_failure now None g d s
  = Return ({| lf_success := true;
               transactions_created := 0;
               total_debt := option_map (fun p => p * 0)
                               (select_default_penalty_amount s g) |}, s).
Proof.
  unfold full_setup_log_failure. cbn [sql_eq sql_neq].
  rewrite sql_update_none
    by (intros r _; apply andb_false_r).
  cbn [bind].
  assert (Hnone : filter (fun m : group_members_row =>
                            Nat.eqb (gm_group_id m) g && false) (group_members s)
                  = []).
  { induction (group_members s) as [|m rest IH]; cbn [filter]; [reflexivity|].
    now rewrite andb_false_r. }
  rewrite Hnone. cbn [map full_setup_log_failure_loop bind].
  now destruct s.
Qed.

(** ** The [log_failure] of [schema.sql] *)

Lemma schema_loop_ok now ids g u P d members :
  existsb (Nat.eqb u) ids = true ->
  forall gm txs c tot,
  INT4_MIN <= c -> c + Z.of_nat (List.length members) <= INT4_MAX ->
  schema_log_failure_loop now ids g (Some u) (Some P) d members gm txs c (Some tot)
  = Return (fold_left (fun rows r => map (credited g r P) rows) members gm,
            txs ++ inserted_rows now g u P d None members txs,
            c + Z.of_nat (List.length members),
            Some (tot + Z.of_nat (List.length members) * P)).
Proof.
  intros Hfk. induction members as [|r rest IH]; intros gm txs c tot Hlo Hhi.
  - cbn. rewrite app_nil_r, !Z.add_0_r. reflexivity.
  - cbn [schema_log_failure_loop not_null bind option_map add_penalty].
    rewrite (references_profiles_ok _ _ _ _ Hfk). cbn [bind].
    cbn [List.length] in Hhi. rewrite Nat2Z.inj_succ in Hhi.
    rewrite (sql_update_ok _ _ (fun m => with_balance m (current_balance m + P)))
      by reflexivity.
    cbn [bind]. rewrite int4_in_range by lia. cbn [bind].
    rewrite IH by lia.
    cbn [fold_left inserted_rows List.length]. rewrite <- app_assoc. cbn [app].
    rewrite Nat2Z.inj_succ.
    apply f_equal. apply f_equal2; [apply f_equal2; [reflexivity|lia]|].
    apply f_equal. lia.
Qed.

Lemma group_size_split (g u : uuid) (rows : list group_members_row) :
  List.length (filter (fun m => Nat.eqb (gm_group_id m) g) rows)
  = (List.length (filter (fun m => Nat.eqb (gm_group_id m) g
                                   && sql_neq (gm_user_id m) (Some u)) rows)
     + List.length (filter (fun m => Nat.eqb (gm_group_id m) g
                                     && Nat.eqb (gm_user_id m) u) rows))%nat.
Proof.
  cbn [sql_neq]. induction rows as [|m rest IH]; cbn [filter]; [reflexivity|].
  destruct (Nat.eqb (gm_group_id m) g); cbn [andb]; [|exact IH].
  destruct (Nat.eqb (gm_user_id m) u); cbn [negb List.length]; lia.
Qed.

(** X17.  The [log_failure] of [schema.sql], called by a member of a group with
    penalty [P] and [n] other members, returns, reports [n] transactions and
    a total debt of [n * P], and leaves the memberships exactly as the
    three-argument [log_failure] does for the penalty [P]: the caller is
    debited [n * P] and the balances of every group sum to what they did.
    It inserts the same transactions, with the description as given and no
    photo. *)
Theorem schema_log_failure_agrees now s g u P c d :
  unique_memberships s = true ->
  select_default_penalty_amount s g = Some P ->
  failures_of s g u = Some c ->
  INT4_MIN <= c + 1 <= INT4_MAX ->
  Z.of_nat (List.length (select_other_members s g (Some u))) <= INT4_MAX ->
  exists j s',
    schema_log_failure now (Some u) g d s = Return (j, s') /\
    slf_transactions_created j
    = Z.of_nat (List.length (select_other_members s g (Some u))) /\
    slf_total_debt j
    = Some (Z.of_nat (List.length (select_other_members s g (Some u))) * P) /\
    groups s' = groups s /\
    group_members s' = group_members (failure_logged now g u P d None s) /\
    transactions s'
    = transactions s
      ++ inserted_rows now g u P d None (select_other_members s g (Some u))
           (transactions s) /\
    (forall g', group_balance_sum s' g' = group_balance_sum s g').
Proof.
  intros Hun Hp Hc Hrange Hn.
  pose proof (is_member_failures_of s g u c Hc) as Hmem.
  assert (Hcount : Z.of_nat (List.length
                     (filter (fun m => Nat.eqb (gm_group_id m) g) (group_members s)))
                   - 1
                   = Z.of_nat (List.length (select_other_members s g (Some u)))).
  { rewrite (group_size_split g u), one_row_per_member
      by (try apply unique_memberships_NoDup; try apply is_member_In; assumption).
    unfold select_other_members. rewrite length_map. lia. }
  unfold schema_log_failure. rewrite Hp, Hcount. cbn [sql_eq option_map].
  set (n := Z.of_nat (List.length (select_other_members s g (Some u)))) in *.
  rewrite (sql_update_ok _ _
             (fun m => with_balance (with_failure_count m (failure_count m + 1))
                                    (current_balance m - P * n))).
  2:{ intros m Hin Hw. apply andb_true_iff in Hw. rewrite !Nat.eqb_eq in Hw.
      destruct Hw as [Hg Hu].
      destruct (failures_of_row _ _ _ _ Hc) as (m0 & Hm0 & <-).
      apply unique_memberships_NoDup in Hun.
      rewrite (unique_row g u (group_members s) m0 m Hun Hm0 Hin Hg Hu).
      rewrite int4_in_range by lia. reflexivity. }
  cbn [bind].
  set (gm1 := map _ (group_members s)).
  assert (Hothers : map gm_user_id
                      (filter (fun m => Nat.eqb (gm_group_id m) g
                                        && sql_neq (gm_user_id m) (Some u)) gm1)
                    = select_other_members s g (Some u)).
  { unfold gm1, select_other_members. clear.
    induction (group_members s) as [|m rest IH]; cbn [map filter]; [reflexivity|].
    destruct (Nat.eqb (gm_group_id m) g && Nat.eqb (gm_user_id m) u) eqn:Hw;
      cbn [gm_group_id gm_user_id with_balance with_failure_count];
      destruct (Nat.eqb (gm_group_id m) g && sql_neq (gm_user_id m) (Some u));
      cbn [map gm_user_id with_balance with_failure_count]; now rewrite IH. }
  rewrite Hothers.
  rewrite (schema_loop_ok now _ g u P d _ (caller_has_profile s g u c Hc))
    by (unfold INT4_MIN; lia).
  cbn [bind]. do 2 eexists. split; [reflexivity|].
  cbn [slf_transactions_created slf_total_debt groups group_members transactions].
  fold n.
  assert (Hrows : fold_left (fun rows r => map (credited g r P) rows)
                    (select_other_members s g (Some u)) gm1
                  = group_members (failure_logged now g u P d None s)).
  { unfold failure_logged. cbn [group_members]. fold n.
    rewrite fold_left_map_rows. unfold gm1. rewrite map_map.
    apply map_ext_in. intros m Hin.
    pose proof (other_members_NoDup s g u Hun) as Hnd.
    unfold failure_applied.
    destruct (Nat.eqb_spec (gm_group_id m) g) as [Hg|Hg]; cbn [andb].
    - destruct (Nat.eqb_spec (gm_user_id m) u) as [Hu|Hu].
      + rewrite credited_absent.
        * f_equal. lia.
        * cbn [gm_user_id with_balance with_failure_count].
          intros _ Hin'. apply other_members_In in Hin'. tauto.
      + rewrite credited_once; try assumption; [reflexivity|].
        apply other_members_In. split; [|assumption].
        apply is_member_In. apply in_map_iff. exists m.
        unfold membership_key. now rewrite Hg.
    - apply credited_absent. intros Hg'. contradiction. }
  split; [reflexivity|]. split; [f_equal; lia|]. split; [reflexivity|].
  split; [exact Hrows|]. split; [reflexivity|].
  intros g'. unfold group_balance_sum at 1. cbn [group_members]. rewrite Hrows.
  now apply (failure_logged_sum now g u P d None s g').
Qed.

Lemma schema_log_failure_agrees_witness :
  exists j s',
    schema_log_failure 0 (Some 1%nat) 1%nat None example_group = Return (j, s') /\
    slf_transactions_created j
    = Z.of_nat (List.length (select_other_members example_group 1%nat (Some 1%nat))) /\
    slf_total_debt j
    = Some (Z.of_nat (List.length
                        (select_other_members example_group 1%nat (Some 1%nat)))
            * 200) /\
    groups s' = groups example_group /\
    group_members s'
    = group_members (failure_logged 0 1%nat 1%nat 200 None None example_group) /\
    transactions s'
    = transactions example_group
      ++ inserted_rows 0 1%nat 1%nat 200 None None
           (select_other_members example_group 1%nat (Some 1%nat))
           (transactions example_group) /\
    (forall g', group_balance_sum s' g' = group_balance_sum example_group g').
Proof.
  apply (schema_log_failure_agrees 0 example_group 1%nat 1%nat 200 0 None).
  - reflexivity.
  - reflexivity.
  - reflexivity.
  - unfold INT4_MIN, INT4_MAX. lia.
  - unfold INT4_MAX. cbn. lia.
Defined.

(** * Further properties of the goal status *)

(** ** Overdue and days remaining *)

Lemma getGoalStatus_Return LocalTZA new_Date user g st :
  getGoalStatus LocalTZA new_Date user g = Return st ->
  last_completion st
  = option_map completed_at
      (hd_error (filter (fun c => is_user (gc_user_id c) user) (completions g))) /\
  total_completions st
  = List.length (filter (fun c => is_user (gc_user_id c) user) (completions g)) /\
  is_overdue st = (time_left new_Date st <? 0) /\
  days_remaining st = Math_ceil_div (time_left new_Date st) MS_PER_DAY.
Proof.
  unfold getGoalStatus, time_left.
  destruct (hd_error _) as [c|];
    match goal with
    | |- context [setDate_plus ?h ?d ?n] => destruct (setDate_plus h d n) as [dl|]
    end; try discriminate;
    intros [= <-];
    cbn [last_completion total_completions is_overdue days_remaining
         next_deadline option_map];
    (split; [reflexivity|]); (split; [reflexivity|]); (split; [|reflexivity]);
    match goal with |- (?a <? ?b) = _ =>
      destruct (Z.ltb_spec a b); symmetry; [apply Z.ltb_lt|apply Z.ltb_ge]; lia
    end.
Qed.

(** X18.  [getGoalStatus] never reports a goal overdue with days left, nor on
    time with days missing: in a status it returns, when [is_overdue] holds
    [days_remaining] is 0 or negative, and otherwise it is 0 or positive.  It
    counts the completions of the signed-in user only, none when nobody is
    signed in. *)
Theorem getGoalStatus_days_remaining_sign LocalTZA new_Date user g st :
  getGoalStatus LocalTZA new_Date user g = Return st ->
  (is_overdue st = true /\ days_remaining st <= 0
   \/
   is_overdue st = false /\ 0 <= days_remaining st) /\
  total_completions st
  = List.length (filter (fun c => is_user (gc_user_id c) user) (completions g)) /\
  (user = None -> total_completions st = 0%nat).
Proof.
  intros H. apply getGoalStatus_Return in H.
  destruct H as (_ & Htotal & Hover & Hdays).
  split; [|split].
  - rewrite Hover, Hdays.
    pose proof (Math_ceil_div_bounds (time_left new_Date st) MS_PER_DAY) as Hb.
    unfold MS_PER_DAY in *. specialize (Hb ltac:(lia)).
    destruct (Z.ltb_spec (time_left new_Date st) 0); [left|right];
      split; try reflexivity; lia.
  - exact Htotal.
  - intros ->. rewrite Htotal. cbn [is_user].
    assert (Hnil : forall l : list GoalCompletion, filter (fun _ => false) l = []).
    { intros l. induction l as [|c l IH]; [reflexivity|exact IH]. }
    now rewrite Hnil.
Qed.

Lemma getGoalStatus_days_remaining_sign_witness :
  (is_overdue example_status_after_two_days = true /\
   days_remaining example_status_after_two_days <= 0
   \/
   is_overdue example_status_after_two_days = false /\
   0 <= days_remaining example_status_after_two_days) /\
  total_completions example_status_after_two_days
  = List.length (filter (fun c => is_user (gc_user_id c) (Some 1%nat))
                   (completions (fetched_goal example_completions [1%nat]
                                   example_goal))) /\
  (Some 1%nat = None -> total_completions example_status_after_two_days = 0%nat).
Proof.
  apply (getGoalStatus_days_remaining_sign utc_host
           (fun _ => 5000 + 2 * MS_PER_DAY) (Some 1%nat)
           (fetched_goal example_completions [1%nat] example_goal)
           example_status_after_two_days).
  reflexivity.
Defined.

(** ** The hook and the database function read the same completions *)

Lemma length_filter_insert_desc (p : GoalCompletion -> bool) (c : GoalCompletion)
    (l : list GoalCompletion) :
  List.length (filter p (insert_desc c l)) = List.length (filter p (c :: l)).
Proof.
  induction l as [|x rest IH]; cbn [insert_desc]; [reflexivity|].
  destruct (completed_at x <=? completed_at c); [reflexivity|].
  cbn [filter] in *. destruct (p x), (p c); cbn [List.length] in *; lia.
Qed.

Lemma length_filter_order_by (p : GoalCompletion -> bool) (l : list GoalCompletion) :
  List.length (filter p (order_by_completed_at_desc l)) = List.length (filter p l).
Proof.
  unfold order_by_completed_at_desc.
  induction l as [|c rest IH]; cbn [fold_right]; [reflexivity|].
  rewrite length_filter_insert_desc. cbn [filter].
  destruct (p c); cbn [List.length]; now rewrite IH.
Qed.

Lemma filter_filter {A : Type} (p q : A -> bool) (l : list A) :
  filter p (filter q l) = filter (fun x => q x && p x) l.
Proof.
  induction l as [|x rest IH]; cbn [filter]; [reflexivity|].
  destruct (q x); cbn [filter andb]; [destruct (p x)|]; now rewrite IH.
Qed.

Lemma filter_ext_In {A : Type} (p q : A -> bool) (l : list A) :
  (forall x, In x l -> p x = q x) -> filter p l = filter q l.
Proof.
  induction l as [|x rest IH]; intros H; cbn [filter]; [reflexivity|].
  rewrite (H x) by now left.
  rewrite IH by (intros y Hy; apply H; now right). reflexivity.
Qed.

Lemma hd_sorted_agree (l1 l2 : list GoalCompletion) :
  StronglySorted newer_or_same l1 -> StronglySorted newer_or_same l2 ->
  (forall x, In x l1 <-> In x l2) ->
  option_map completed_at (hd_error l1) = option_map completed_at (hd_error l2).
Proof.
  intros Hs1 Hs2 Hsame.
  destruct l1 as [|c1 r1], l2 as [|c2 r2]; cbn [hd_error option_map].
  - reflexivity.
  - exfalso. apply (Hsame c2). now left.
  - exfalso. apply (Hsame c1). now left.
  - f_equal.
    destruct (hd_error_sorted (c1 :: r1) c2 Hs1) as (x & Hx & _ & Hle1);
      [apply Hsame; now left|].
    destruct (hd_error_sorted (c2 :: r2) c1 Hs2) as (y & Hy & _ & Hle2);
      [apply Hsame; now left|].
    cbn [hd_error] in Hx, Hy. injection Hx as <-. injection Hy as <-. lia.
Qed.

Lemma db_completions_In table (gid u : uuid) (x : GoalCompletion) :
  In x (order_by_completed_at_desc
          (filter (fun c => Nat.eqb (gc_goal_id c) gid && Nat.eqb (gc_user_id c) u)
                  table))
  <-> In x table /\ gc_goal_id x = gid /\ gc_user_id x = u.
Proof.
  rewrite order_by_completed_at_desc_In, filter_In, andb_true_iff, !Nat.eqb_eq.
  tauto.
Qed.

(** X19.  The client and the database agree on what is stored: for a goal among
    those fetched, the last completion and the number of completions in the
    status that [getGoalStatus] returns for the signed-in user are those
    that [check_goal_status] reports for that user. *)
Theorem getGoalStatus_agrees_with_check_goal_status LocalTZA NOW new_Date goals
    members table goalIds (g : Goal) (u : uuid) (st : GoalStatus)
    (json : check_goal_status_json) :
  In (goal_id g) goalIds ->
  getGoalStatus LocalTZA new_Date (Some u) (fetched_goal table goalIds g)
  = Return st ->
  check_goal_status NOW goals members table (goal_id g) u = Return (Some json) ->
  last_completion st = cgs_last_completion json /\
  total_completions st = cgs_total_completions json.
Proof.
  intros Hg Hst H. apply getGoalStatus_Return in Hst.
  destruct Hst as (Hlast & Htotal & _ & _). rewrite Hlast, Htotal.
  unfold check_goal_status in H.
  destruct (find _ goals) as [v_goal|]; [|discriminate].
  match type of H with
  | bind ?d _ = _ => destruct d as [v_deadline|]; [|discriminate]
  end.
  cbn [bind] in H. injection H as <-.
  cbn [cgs_last_completion cgs_total_completions].
  split.
  - unfold select_last_completion. apply hd_sorted_agree;
      try apply userCompletions_sorted;
      try apply order_by_completed_at_desc_sorted.
    intros x. rewrite db_completions_In. now apply userCompletions_In.
  - unfold fetched_goal, merge_completions, fetch_completions.
    cbn [completions is_user].
    rewrite filter_filter, length_filter_order_by, filter_filter. f_equal.
    apply filter_ext_In. intros x _.
    assert (Hids : Nat.eqb (gc_goal_id x) (goal_id g) = true ->
                   existsb (Nat.eqb (gc_goal_id x)) goalIds = true).
    { intros Hx. apply existsb_exists. exists (goal_id g). now split. }
    destruct (Nat.eqb (gc_goal_id x) (goal_id g)).
    + now rewrite Hids.
    + now rewrite andb_false_r.
Qed.

Lemma getGoalStatus_agrees_with_check_goal_status_witness :
  last_completion example_status_after_two_days
  = cgs_last_completion example_check_goal_status /\
  total_completions example_status_after_two_days
  = cgs_total_completions example_check_goal_status.
Proof.
  apply (getGoalStatus_agrees_with_check_goal_status utc_host 0
           (fun _ => 5000 + 2 * MS_PER_DAY) [example_goal]
           (group_members example_group) example_completions [1%nat] example_goal
           1%nat example_status_after_two_days example_check_goal_status).
  - left. reflexivity.
  - reflexivity.
  - reflexivity.
Defined.

(** ** What [check_goal_status] answers *)





(** ** Logging a completion *)

Lemma is_member_of_goal_group_spec goals members (gid u : uuid) :
  is_member_of_goal_group goals members gid u = true <->
  exists g m, In g goals /\ In m members /\ goal_id g = gid /\
              gm_user_id m = u /\ goal_group_id g = gm_group_id m.
Proof.
  unfold is_member_of_goal_group. rewrite existsb_exists. split.
  - intros [[g m] [Hin Hw]]. cbn [fst snd] in Hw.
    rewrite !andb_true_iff, !Nat.eqb_eq in Hw. apply in_prod_iff in Hin.
    exists g, m. tauto.
  - intros (g & m & Hg & Hm & Hid & Hu & Hgrp). exists (g, m).
    split; [now apply in_prod_iff|]. cbn [fst snd].
    rewrite !andb_true_iff, !Nat.eqb_eq. tauto.
Qed.

(** X21.  [log_goal_completion] returns exactly when the caller is signed in and
    is a member of the group of a goal with that id; it raises otherwise,
    and when it returns it has added one completion, of that user for that
    goal at the current instant, under an id no completion had. *)
Theorem log_goal_completion_returns_iff NOW auth_uid goals members table gid :
  ((exists r, log_goal_completion NOW auth_uid goals members table gid = Return r)
   <->
   (exists u g m, auth_uid = Some u /\ In g goals /\ In m members /\
                  goal_id g = gid /\ gm_user_id m = u /\
                  goal_group_id g = gm_group_id m)) /\
  (forall j table',
     log_goal_completion NOW auth_uid goals members table gid = Return (j, table') ->
     lgc_success j = true /\
     ~ In (lgc_completion_id j) (map gc_id table) /\
     exists u, auth_uid = Some u /\
       table' = table ++ [ {| gc_id := lgc_completion_id j; gc_goal_id := gid;
                              gc_user_id := u; completed_at := NOW |} ]).
Proof.
  unfold log_goal_completion. split.
  - split.
    + intros [r Hr]. destruct auth_uid as [u|]; [|discriminate].
      destruct (is_member_of_goal_group goals members gid u) eqn:Hmem;
        [|discriminate].
      apply is_member_of_goal_group_spec in Hmem.
      destruct Hmem as (g & m & H). exists u, g, m. tauto.
    + intros (u & g & m & -> & H).
      assert (Hmem : is_member_of_goal_group goals members gid u = true)
        by (apply is_member_of_goal_group_spec; exists g, m; tauto).
      rewrite Hmem. cbn [negb]. eexists. reflexivity.
  - intros j table' H. destruct auth_uid as [u|]; [|discriminate].
    destruct (negb _); [discriminate|]. injection H as <- <-.
    cbn [lgc_success lgc_completion_id]. split; [reflexivity|]. split.
    + unfold gen_random_uuid. intros Hin.
      pose proof (list_max_le (map gc_id table) (list_max (map gc_id table)))
        as [Hle _].
      specialize (Hle (Nat.le_refl _)). rewrite Forall_forall in Hle.
      specialize (Hle _ Hin). lia.
    + now exists u.
Qed.



(** ** What the goal card shows *)

(** X23.  What the card of a goal shows for a status [getGoalStatus] returns,
    by the time left to the deadline: "Overdue by [n] days" once the
    deadline has passed, [n] being the whole days it has passed by, so 0 for
    the first day; "Due today!" only at the very instant of the deadline;
    "Due tomorrow" for the whole last day before the deadline; "[d] days
    remaining", with [d] at least 2, before that.  Only the last is not
    urgent. *)
Theorem getStatusInfo_of_getGoalStatus LocalTZA new_Date user g st :
  getGoalStatus LocalTZA new_Date user g = Return st ->
  (time_left new_Date st < 0 ->
   exists n,
     si_text (getStatusInfo st) = Overdue_by n (negb (n =? 1)) /\
     n * MS_PER_DAY <= - time_left new_Date st < (n + 1) * MS_PER_DAY /\
     si_urgent (getStatusInfo st) = true) /\
  (time_left new_Date st = 0 ->
   si_text (getStatusInfo st) = Due_today /\
   si_urgent (getStatusInfo st) = true) /\
  (0 < time_left new_Date st <= MS_PER_DAY ->
   si_text (getStatusInfo st) = Due_tomorrow /\
   si_urgent (getStatusInfo st) = true) /\
  (MS_PER_DAY < time_left new_Date st ->
   exists d,
     si_text (getStatusInfo st) = Days_remaining d /\
     2 <= d /\
     (d - 1) * MS_PER_DAY < time_left new_Date st <= d * MS_PER_DAY /\
     si_urgent (getStatusInfo st) = false).
Proof.
  intros H. apply getGoalStatus_Return in H.
  destruct H as (_ & _ & Hover & Hdays).
  pose proof (Math_ceil_div_bounds (time_left new_Date st) MS_PER_DAY) as Hb.
  rewrite <- Hdays in Hb.
  unfold getStatusInfo. rewrite Hover.
  set (d := days_remaining st) in *.
  set (left := time_left new_Date st) in *.
  unfold MS_PER_DAY in *. specialize (Hb ltac:(lia)).
  split; [|split; [|split]]; intros Hleft.
  - assert (Hlt : (left <? 0) = true) by (apply Z.ltb_lt; lia).
    rewrite Hlt. cbn [si_text si_urgent]. exists (Z.abs d).
    split; [reflexivity|]. split; [lia|reflexivity].
  - assert (Hlt : (left <? 0) = false) by (apply Z.ltb_ge; lia).
    assert (Hd1 : (d <=? 1) = true) by (apply Z.leb_le; lia).
    assert (Hd0 : (d <=? 0) = true) by (apply Z.leb_le; lia).
    rewrite Hlt, Hd1. cbn [si_text si_urgent]. now rewrite Hd0.
  - assert (Hlt : (left <? 0) = false) by (apply Z.ltb_ge; lia).
    assert (Hd1 : (d <=? 1) = true) by (apply Z.leb_le; lia).
    assert (Hd0 : (d <=? 0) = false) by (apply Z.leb_gt; lia).
    rewrite Hlt, Hd1. cbn [si_text si_urgent]. now rewrite Hd0.
  - assert (Hlt : (left <? 0) = false) by (apply Z.ltb_ge; lia).
    assert (Hd1 : (d <=? 1) = false) by (apply Z.leb_gt; lia).
    rewrite Hlt, Hd1. cbn [si_text si_urgent]. exists d.
    split; [reflexivity|]. split; [lia|]. split; [lia|reflexivity].
Qed.

Lemma getStatusInfo_of_getGoalStatus_witness :
  (time_left (fun _ => 5000 + 2 * MS_PER_DAY) example_status_after_two_days < 0 ->
   exists n,
     si_text (getStatusInfo example_status_after_two_days)
     = Overdue_by n (negb (n =? 1)) /\
     n * MS_PER_DAY
     <= - time_left (fun _ => 5000 + 2 * MS_PER_DAY) example_status_after_two_days
     < (n + 1) * MS_PER_DAY /\
     si_urgent (getStatusInfo example_status_after_two_days) = true) /\
  (time_left (fun _ => 5000 + 2 * MS_PER_DAY) example_status_after_two_days = 0 ->
   si_text (getStatusInfo example_status_after_two_days) = Due_today /\
   si_urgent (getStatusInfo example_status_after_two_days) = true) /\
  (0 < time_left (fun _ => 5000 + 2 * MS_PER_DAY) example_status_after_two_days
   <= MS_PER_DAY ->
   si_text (getStatusInfo example_status_after_two_days) = Due_tomorrow /\
   si_urgent (getStatusInfo example_status_after_two_days) = true) /\
  (MS_PER_DAY
   < time_left (fun _ => 5000 + 2 * MS_PER_DAY) example_status_after_two_days ->
   exists d,
     si_text (getStatusInfo example_status_after_two_days) = Days_remaining d /\
     2 <= d /\
     (d - 1) * MS_PER_DAY
     < time_left (fun _ => 5000 + 2 * MS_PER_DAY) example_status_after_two_days
     <= d * MS_PER_DAY /\
     si_urgent (getStatusInfo example_status_after_two_days) = false).
Proof.
  apply (getStatusInfo_of_getGoalStatus utc_host (fun _ => 5000 + 2 * MS_PER_DAY)
           (Some 1%nat) (fetched_goal example_completions [1%nat] example_goal)
           example_status_after_two_days).
  reflexivity.
Defined.

(** X24.  "Completed today" on the card means within the last 24 hours, and
    "Completed yesterday" between 24 and 48 hours ago, whatever the calendar
    day; every other text carries the whole days elapsed, a negative number
    when the completion is later than the clock. *)
Theorem formatLastCompletion_by_elapsed_time now (status : GoalStatus) (T : Z) :
  last_completion status = Some T ->
  (formatLastCompletion now status = Completed_today <->
   0 <= now - T < MS_PER_DAY) /\
  (formatLastCompletion now status = Completed_yesterday <->
   MS_PER_DAY <= now - T < 2 * MS_PER_DAY) /\
  (forall n, formatLastCompletion now status = Completed_days_ago n <->
     n * MS_PER_DAY <= now - T < (n + 1) * MS_PER_DAY /\ n <> 0 /\ n <> 1).
Proof.
  intros HT. unfold formatLastCompletion, Math_floor_div. rewrite HT.
  change MS_PER_DAY with 86400000.
  pose proof (Z.div_mod (now - T) 86400000 ltac:(lia)) as Hdm.
  pose proof (Z.mod_pos_bound (now - T) 86400000 ltac:(lia)) as Hmod.
  set (q := (now - T) / 86400000) in *.
  set (r := (now - T) mod 86400000) in *.
  destruct (Z.eqb_spec q 0) as [H0|H0]; [|destruct (Z.eqb_spec q 1) as [H1|H1]].
  - split; [|split]; [split; [lia|reflexivity]|split; [discriminate|lia]|].
    intros n. split; [discriminate|lia].
  - split; [|split]; [split; [discriminate|lia]|split; [lia|reflexivity]|].
    intros n. split; [discriminate|lia].
  - split; [|split]; [split; [discriminate|lia]|split; [discriminate|lia]|].
    intros n. split.
    + intros [= <-]. lia.
    + intros (Hn & _ & _). f_equal. nia.
Qed.

Lemma formatLastCompletion_by_elapsed_time_witness :
  (formatLastCompletion (5000 + 2 * MS_PER_DAY) example_status_after_two_days
   = Completed_today <->
   0 <= 5000 + 2 * MS_PER_DAY - 5000 < MS_PER_DAY) /\
  (formatLastCompletion (5000 + 2 * MS_PER_DAY) example_status_after_two_days
   = Completed_yesterday <->
   MS_PER_DAY <= 5000 + 2 * MS_PER_DAY - 5000 < 2 * MS_PER_DAY) /\
  (forall n,
     formatLastCompletion (5000 + 2 * MS_PER_DAY) example_status_after_two_days
     = Completed_days_ago n <->
     n * MS_PER_DAY <= 5000 + 2 * MS_PER_DAY - 5000 < (n + 1) * MS_PER_DAY /\
     n <> 0 /\ n <> 1).
Proof.
  apply (formatLastCompletion_by_elapsed_time (5000 + 2 * MS_PER_DAY)
           example_status_after_two_days 5000).
  reflexivity.
Defined.
